(** * Raspberry Pi autofocus control algorithm

    A shallow embedding of [src/ipa/rpi/controller/rpi/af.cpp] (class
    [RPiController::Af]) together with the properties of its
    specification.

    Conventions of the embedding.

    - C++ [uint16_t], [unsigned]/[uint32_t], [uint64_t], [int] and
      [int64_t] values are integers in [Z]; every arithmetic operation
      of the source is followed by the wrap-around of its C++ type
      ([u16], [u32], [u64], [s32], [s64]).
    - C++ [double] values are exact rationals in [Q]: comparisons,
      branches and the order of the operations are those of the source,
      while rounding, infinities and NaN are outside the model.  The one
      place where the source can really produce a NaN (the mean of an
      empty list of zones in the scene monitor of [doAF]) is modelled
      with an explicit NaN value.
    - A member function of [Af] is a function on the record [Af] of the
      member variables.  A function that indexes a [std::vector] or
      dereferences a pointer returns [option]: [None] stands for an
      access out of bounds or a null pointer.
    - Logging is omitted. *)

From Stdlib Require Import ZArith QArith Qabs Lia Lqa Bool.
From stdpp Require Import base option list numbers strings.

Local Open Scope Z_scope.

(** ** Machine integers *)

Definition u16 (z : Z) : Z := z mod 2 ^ 16.
Definition u32 (z : Z) : Z := z mod 2 ^ 32.
Definition u64 (z : Z) : Z := z mod 2 ^ 64.
Definition s32 (z : Z) : Z := (z + 2 ^ 31) mod 2 ^ 32 - 2 ^ 31.
Definition s64 (z : Z) : Z := (z + 2 ^ 63) mod 2 ^ 64 - 2 ^ 63.

(** ** Doubles *)

Definition double : Type := Q.
Bind Scope Q_scope with double.

(** [a < b], [a <= b] and [a == b] on doubles. *)
Definition dlt (a b : double) : bool := negb (Qle_bool b a).
Definition dle (a b : double) : bool := Qle_bool a b.
Definition deq (a b : double) : bool := Qeq_bool a b.

(** [std::min], [std::max] and [std::clamp] of <algorithm>.  [std::clamp]
    requires [lo <= hi]; the source calls it with the limits of a range
    and with [fsmooth_ -/+ maxSlew]. *)
Definition dmin (a b : double) : double := if dlt b a then b else a.
Definition dmax (a b : double) : double := if dlt a b then b else a.
Definition dclamp (v lo hi : double) : double :=
  if dlt v lo then lo else if dlt hi v then hi else v.

(** Conversion of an integer to [double], and of a [double] to an
    integer type (truncation towards zero). *)
Definition of_int (z : Z) : double := inject_Z z.
Definition to_int (q : double) : Z := Z.quot (Qnum q) (Z.pos (Qden q)).

(** A [double] that may be a NaN: [None] is NaN.  Every ordered
    comparison with a NaN is false and [!=] is true. *)
Definition ndouble : Type := option Q.

Definition ndiv (a : Q) (n : Z) : ndouble :=
  if (n =? 0) && Qeq_bool a 0 then None else Some (a / of_int n)%Q.
Definition nabsdiff (a b : ndouble) : ndouble :=
  match a, b with
  | Some x, Some y => Some (Qabs (x - y))
  | _, _ => None
  end.
Definition ngt (a : ndouble) (c : Q) : bool :=
  match a with Some x => dlt c x | None => false end.
Definition nlt (a : ndouble) (c : Q) : bool :=
  match a with Some x => dlt x c | None => false end.
Definition nne (a : ndouble) (c : Q) : bool :=
  match a with Some x => negb (deq x c) | None => true end.

(** ** Enumerations *)

Module ScanState.
Inductive t := Idle | Trigger | Pdaf | Coarse | Fine | Settle.

(** The enumerators in declaration order, as compared by [<] and [>=]. *)
Definition rank (s : t) : Z :=
  match s with
  | Idle => 0 | Trigger => 1 | Pdaf => 2 | Coarse => 3 | Fine => 4 | Settle => 5
  end.
Definition ltb (a b : t) : bool := rank a <? rank b.
Definition geb (a b : t) : bool := rank b <=? rank a.
#[export] Instance eq_dec : EqDecision t.
Proof. solve_decision. Defined.
End ScanState.
Export (hints) ScanState.

Module AfState.
Inductive t := Idle | Scanning | Focused | Failed.
#[export] Instance eq_dec : EqDecision t.
Proof. solve_decision. Defined.
End AfState.
Export (hints) AfState.

Module AfPauseState.
Inductive t := Running | Pausing | Paused.
End AfPauseState.

Inductive AfMode := AfModeManual | AfModeAuto | AfModeContinuous.
#[export] Instance AfMode_eq_dec : EqDecision AfMode.
Proof. solve_decision. Defined.

Inductive AfPause := AfPauseImmediate | AfPauseDeferred | AfPauseResume.
#[export] Instance AfPause_eq_dec : EqDecision AfPause.
Proof. solve_decision. Defined.

(** [AfRange] and [AfSpeed] are plain enumerations used as array indices:
    a caller can pass any integer value, which is what the guards of
    [setRange] and [setSpeed] are for. *)
Definition AfRange : Type := Z.
Definition AfRangeNormal : AfRange := 0.
Definition AfRangeMacro : AfRange := 1.
Definition AfRangeFull : AfRange := 2.
Definition AfRangeMax : AfRange := 3.

Definition AfSpeed : Type := Z.
Definition AfSpeedNormal : AfSpeed := 0.
Definition AfSpeedFast : AfSpeed := 1.
Definition AfSpeedMax : AfSpeed := 2.

(** ** Tuning parameters *)

Record RangeDependentParams := {
  focusMin : double;
  focusMax : double;
  focusDefault : double
}.

Record SpeedDependentParams := {
  stepCoarse : double;
  stepFine : double;
  contrastRatio : double;
  pdafGain : double;
  pdafSquelch : double;
  maxSlew : double;
  pdafFrames : Z;
  dropoutFrames : Z;
  stepFrames : Z
}.

(** [map] is a piecewise linear function (class [Pwl], declared outside
    this file); [Af] uses only [map.eval(x)], converted to [int], and
    [map.domain().clip(x)], which are the two function fields here. *)
Record CfgParams := {
  ranges : AfRange -> RangeDependentParams;
  speeds : AfSpeed -> SpeedDependentParams;
  confEpsilon : Z;
  confThresh : Z;
  confClip : Z;
  skipFrames : Z;
  map_eval : double -> Z;
  map_domain_clip : double -> double
}.

(** The default constructors. *)
Definition RangeDependentParams_default : RangeDependentParams :=
  {| focusMin := 0%Q; focusMax := 12%Q; focusDefault := 1%Q |}.

Definition SpeedDependentParams_default : SpeedDependentParams :=
  {| stepCoarse := 1%Q; stepFine := (1 # 4)%Q; contrastRatio := (3 # 4)%Q;
     pdafGain := (- (2 # 100))%Q; pdafSquelch := (1 # 8)%Q; maxSlew := 2%Q;
     pdafFrames := 20; dropoutFrames := 6; stepFrames := 4 |}.

(** ** Statistics and metadata *)

Module Rectangle.
Record t := mk { x : Z; y : Z; width : Z; height : Z }.
End Rectangle.

Module Size.
Record t := mk { width : Z; height : Z }.
End Size.

(** [RegionStats<T>]: the dimensions of a grid and its regions in row
    order; each region carries a value and a count. *)
Module RegionStats.
Record Region (T : Type) := mkRegion { val : T; counted : Z }.
Arguments mkRegion {T} _ _.
Arguments val {T} _.
Arguments counted {T} _.
Record t (T : Type) := mk { size : Size.t; regions : list (Region T) }.
Arguments mk {T} _ _.
Arguments size {T} _.
Arguments regions {T} _.
Definition numRegions {T} (r : t T) : nat := length (regions r).
Definition get {T} (r : t T) (i : nat) : option (Region T) := regions r !! i.
End RegionStats.

(** A PDAF sample: an unsigned confidence and a signed phase. *)
Record PdafData := { conf : Z; phase : Z }.
Record RgbySums := { rSum : Z; gSum : Z; bSum : Z; ySum : Z }.

Definition PdafRegions : Type := RegionStats.t PdafData.
Definition FocusRegions : Type := RegionStats.t Z.
Definition RgbyRegions : Type := RegionStats.t RgbySums.

Record Statistics := { focusRegions : FocusRegions; awbRegions : RgbyRegions }.

Record AgcPrepareStatus := { locked : Z }.

Record AfStatus := {
  state : AfState.t;
  pauseState : AfPauseState.t;
  lensSetting : option Z
}.

(** The entries of the metadata bag that [Af] reads and writes. *)
Record Metadata := {
  pdaf_regions : option PdafRegions;
  agc_prepare_status : option AgcPrepareStatus;
  af_status : option AfStatus
}.

Record CameraMode := {
  cropX : Z;
  cropY : Z;
  cm_width : Z;
  cm_height : Z;
  scaleX : double;
  scaleY : double
}.

(** ** The state of the algorithm

    The member variables of [Af] are declared in [af.h], outside this
    file; their types are the ones that [af.cpp] shows.  The parameters
    read with [readNumber<uint32_t>] and the counters [skipCount_],
    [stepCount_] and [dropCount_] (saved in a [uint32_t], incremented and
    decremented) are 32-bit unsigned integers.  The cells of a weight
    grid are 16-bit ("ensure weights sum to less than (1<<16)") and its
    sum is a 32-bit unsigned integer.  [scanMaxIndex_] is an index into
    [scanData_] and is kept in [nat], as are the sizes of vectors. *)

Module RegionWeights.
Record t := mk { rows : Z; cols : Z; sum : Z; w : list Z }.
Definition empty : t := mk 0 0 0 [].
End RegionWeights.

Record ScanRecord := {
  focus : double;
  contrast : double;
  sr_phase : double;
  sr_conf : double
}.

Record Af := MkAf {
  cfg_ : CfgParams;
  range_ : AfRange;
  speed_ : AfSpeed;
  mode_ : AfMode;
  pauseFlag_ : bool;
  statsRegion_ : Rectangle.t;
  windows_ : list Rectangle.t;
  useWindows_ : bool;
  phaseWeights_ : RegionWeights.t;
  contrastWeights_ : RegionWeights.t;
  scanState_ : ScanState.t;
  initted_ : bool;
  ftarget_ : double;
  fsmooth_ : double;
  prevContrast_ : double;
  skipCount_ : Z;
  stepCount_ : Z;
  dropCount_ : Z;
  scanMaxIndex_ : nat;
  scanMaxContrast_ : double;
  scanMinContrast_ : double;
  scanData_ : list ScanRecord;
  reportState_ : AfState.t;
  isPdafEnabled_ : bool;
  imageMetadata_ : option Metadata;
  stats_ : option Statistics;
  last_mean : ndouble;
  last_agc_status : bool;
  trigger_when_stable : bool;
  stable_frame_count : Z
}.

(** Assignment to one member variable: [s <| f := v |>]. *)
Class Setter {R T : Type} (proj : R -> T) := set : (T -> T) -> R -> R.
Arguments set {R T} proj {Setter} f r.
Notation "r <| p := v |>" := (set p (fun _ => v) r)
  (at level 1, left associativity, p at level 1, v at level 99,
   format "r  <| p  :=  v |>").

#[export] Instance set_cfg_ : Setter cfg_ :=
  fun f s => MkAf (f (cfg_ s)) (range_ s) (speed_ s) (mode_ s) (pauseFlag_ s)
    (statsRegion_ s) (windows_ s) (useWindows_ s) (phaseWeights_ s)
    (contrastWeights_ s) (scanState_ s) (initted_ s) (ftarget_ s) (fsmooth_ s)
    (prevContrast_ s) (skipCount_ s) (stepCount_ s) (dropCount_ s)
    (scanMaxIndex_ s) (scanMaxContrast_ s) (scanMinContrast_ s) (scanData_ s)
    (reportState_ s) (isPdafEnabled_ s) (imageMetadata_ s) (stats_ s)
    (last_mean s) (last_agc_status s) (trigger_when_stable s)
    (stable_frame_count s).
#[export] Instance set_range_ : Setter range_ :=
  fun f s => MkAf (cfg_ s) (f (range_ s)) (speed_ s) (mode_ s) (pauseFlag_ s)
    (statsRegion_ s) (windows_ s) (useWindows_ s) (phaseWeights_ s)
    (contrastWeights_ s) (scanState_ s) (initted_ s) (ftarget_ s) (fsmooth_ s)
    (prevContrast_ s) (skipCount_ s) (stepCount_ s) (dropCount_ s)
    (scanMaxIndex_ s) (scanMaxContrast_ s) (scanMinContrast_ s) (scanData_ s)
    (reportState_ s) (isPdafEnabled_ s) (imageMetadata_ s) (stats_ s)
    (last_mean s) (last_agc_status s) (trigger_when_stable s)
    (stable_frame_count s).
#[export] Instance set_speed_ : Setter speed_ :=
  fun f s => MkAf (cfg_ s) (range_ s) (f (speed_ s)) (mode_ s) (pauseFlag_ s)
    (statsRegion_ s) (windows_ s) (useWindows_ s) (phaseWeights_ s)
    (contrastWeights_ s) (scanState_ s) (initted_ s) (ftarget_ s) (fsmooth_ s)
    (prevContrast_ s) (skipCount_ s) (stepCount_ s) (dropCount_ s)
    (scanMaxIndex_ s) (scanMaxContrast_ s) (scanMinContrast_ s) (scanData_ s)
    (reportState_ s) (isPdafEnabled_ s) (imageMetadata_ s) (stats_ s)
    (last_mean s) (last_agc_status s) (trigger_when_stable s)
    (stable_frame_count s).
#[export] Instance set_mode_ : Setter mode_ :=
  fun f s => MkAf (cfg_ s) (range_ s) (speed_ s) (f (mode_ s)) (pauseFlag_ s)
    (statsRegion_ s) (windows_ s) (useWindows_ s) (phaseWeights_ s)
    (contrastWeights_ s) (scanState_ s) (initted_ s) (ftarget_ s) (fsmooth_ s)
    (prevContrast_ s) (skipCount_ s) (stepCount_ s) (dropCount_ s)
    (scanMaxIndex_ s) (scanMaxContrast_ s) (scanMinContrast_ s) (scanData_ s)
    (reportState_ s) (isPdafEnabled_ s) (imageMetadata_ s) (stats_ s)
    (last_mean s) (last_agc_status s) (trigger_when_stable s)
    (stable_frame_count s).
#[export] Instance set_pauseFlag_ : Setter pauseFlag_ :=
  fun f s => MkAf (cfg_ s) (range_ s) (speed_ s) (mode_ s) (f (pauseFlag_ s))
    (statsRegion_ s) (windows_ s) (useWindows_ s) (phaseWeights_ s)
    (contrastWeights_ s) (scanState_ s) (initted_ s) (ftarget_ s) (fsmooth_ s)
    (prevContrast_ s) (skipCount_ s) (stepCount_ s) (dropCount_ s)
    (scanMaxIndex_ s) (scanMaxContrast_ s) (scanMinContrast_ s) (scanData_ s)
    (reportState_ s) (isPdafEnabled_ s) (imageMetadata_ s) (stats_ s)
    (last_mean s) (last_agc_status s) (trigger_when_stable s)
    (stable_frame_count s).
#[export] Instance set_statsRegion_ : Setter statsRegion_ :=
  fun f s => MkAf (cfg_ s) (range_ s) (speed_ s) (mode_ s) (pauseFlag_ s)
    (f (statsRegion_ s)) (windows_ s) (useWindows_ s) (phaseWeights_ s)
    (contrastWeights_ s) (scanState_ s) (initted_ s) (ftarget_ s) (fsmooth_ s)
    (prevContrast_ s) (skipCount_ s) (stepCount_ s) (dropCount_ s)
    (scanMaxIndex_ s) (scanMaxContrast_ s) (scanMinContrast_ s) (scanData_ s)
    (reportState_ s) (isPdafEnabled_ s) (imageMetadata_ s) (stats_ s)
    (last_mean s) (last_agc_status s) (trigger_when_stable s)
    (stable_frame_count s).
#[export] Instance set_windows_ : Setter windows_ :=
  fun f s => MkAf (cfg_ s) (range_ s) (speed_ s) (mode_ s) (pauseFlag_ s)
    (statsRegion_ s) (f (windows_ s)) (useWindows_ s) (phaseWeights_ s)
    (contrastWeights_ s) (scanState_ s) (initted_ s) (ftarget_ s) (fsmooth_ s)
    (prevContrast_ s) (skipCount_ s) (stepCount_ s) (dropCount_ s)
    (scanMaxIndex_ s) (scanMaxContrast_ s) (scanMinContrast_ s) (scanData_ s)
    (reportState_ s) (isPdafEnabled_ s) (imageMetadata_ s) (stats_ s)
    (last_mean s) (last_agc_status s) (trigger_when_stable s)
    (stable_frame_count s).
#[export] Instance set_useWindows_ : Setter useWindows_ :=
  fun f s => MkAf (cfg_ s) (range_ s) (speed_ s) (mode_ s) (pauseFlag_ s)
    (statsRegion_ s) (windows_ s) (f (useWindows_ s)) (phaseWeights_ s)
    (contrastWeights_ s) (scanState_ s) (initted_ s) (ftarget_ s) (fsmooth_ s)
    (prevContrast_ s) (skipCount_ s) (stepCount_ s) (dropCount_ s)
    (scanMaxIndex_ s) (scanMaxContrast_ s) (scanMinContrast_ s) (scanData_ s)
    (reportState_ s) (isPdafEnabled_ s) (imageMetadata_ s) (stats_ s)
    (last_mean s) (last_agc_status s) (trigger_when_stable s)
    (stable_frame_count s).
#[export] Instance set_phaseWeights_ : Setter phaseWeights_ :=
  fun f s => MkAf (cfg_ s) (range_ s) (speed_ s) (mode_ s) (pauseFlag_ s)
    (statsRegion_ s) (windows_ s) (useWindows_ s) (f (phaseWeights_ s))
    (contrastWeights_ s) (scanState_ s) (initted_ s) (ftarget_ s) (fsmooth_ s)
    (prevContrast_ s) (skipCount_ s) (stepCount_ s) (dropCount_ s)
    (scanMaxIndex_ s) (scanMaxContrast_ s) (scanMinContrast_ s) (scanData_ s)
    (reportState_ s) (isPdafEnabled_ s) (imageMetadata_ s) (stats_ s)
    (last_mean s) (last_agc_status s) (trigger_when_stable s)
    (stable_frame_count s).
#[export] Instance set_contrastWeights_ : Setter contrastWeights_ :=
  fun f s => MkAf (cfg_ s) (range_ s) (speed_ s) (mode_ s) (pauseFlag_ s)
    (statsRegion_ s) (windows_ s) (useWindows_ s) (phaseWeights_ s)
    (f (contrastWeights_ s)) (scanState_ s) (initted_ s) (ftarget_ s)
    (fsmooth_ s) (prevContrast_ s) (skipCount_ s) (stepCount_ s)
    (dropCount_ s) (scanMaxIndex_ s) (scanMaxContrast_ s) (scanMinContrast_ s)
    (scanData_ s) (reportState_ s) (isPdafEnabled_ s) (imageMetadata_ s)
    (stats_ s) (last_mean s) (last_agc_status s) (trigger_when_stable s)
    (stable_frame_count s).
#[export] Instance set_scanState_ : Setter scanState_ :=
  fun f s => MkAf (cfg_ s) (range_ s) (speed_ s) (mode_ s) (pauseFlag_ s)
    (statsRegion_ s) (windows_ s) (useWindows_ s) (phaseWeights_ s)
    (contrastWeights_ s) (f (scanState_ s)) (initted_ s) (ftarget_ s)
    (fsmooth_ s) (prevContrast_ s) (skipCount_ s) (stepCount_ s)
    (dropCount_ s) (scanMaxIndex_ s) (scanMaxContrast_ s) (scanMinContrast_ s)
    (scanData_ s) (reportState_ s) (isPdafEnabled_ s) (imageMetadata_ s)
    (stats_ s) (last_mean s) (last_agc_status s) (trigger_when_stable s)
    (stable_frame_count s).
#[export] Instance set_initted_ : Setter initted_ :=
  fun f s => MkAf (cfg_ s) (range_ s) (speed_ s) (mode_ s) (pauseFlag_ s)
    (statsRegion_ s) (windows_ s) (useWindows_ s) (phaseWeights_ s)
    (contrastWeights_ s) (scanState_ s) (f (initted_ s)) (ftarget_ s)
    (fsmooth_ s) (prevContrast_ s) (skipCount_ s) (stepCount_ s)
    (dropCount_ s) (scanMaxIndex_ s) (scanMaxContrast_ s) (scanMinContrast_ s)
    (scanData_ s) (reportState_ s) (isPdafEnabled_ s) (imageMetadata_ s)
    (stats_ s) (last_mean s) (last_agc_status s) (trigger_when_stable s)
    (stable_frame_count s).
#[export] Instance set_ftarget_ : Setter ftarget_ :=
  fun f s => MkAf (cfg_ s) (range_ s) (speed_ s) (mode_ s) (pauseFlag_ s)
    (statsRegion_ s) (windows_ s) (useWindows_ s) (phaseWeights_ s)
    (contrastWeights_ s) (scanState_ s) (initted_ s) (f (ftarget_ s))
    (fsmooth_ s) (prevContrast_ s) (skipCount_ s) (stepCount_ s)
    (dropCount_ s) (scanMaxIndex_ s) (scanMaxContrast_ s) (scanMinContrast_ s)
    (scanData_ s) (reportState_ s) (isPdafEnabled_ s) (imageMetadata_ s)
    (stats_ s) (last_mean s) (last_agc_status s) (trigger_when_stable s)
    (stable_frame_count s).
#[export] Instance set_fsmooth_ : Setter fsmooth_ :=
  fun f s => MkAf (cfg_ s) (range_ s) (speed_ s) (mode_ s) (pauseFlag_ s)
    (statsRegion_ s) (windows_ s) (useWindows_ s) (phaseWeights_ s)
    (contrastWeights_ s) (scanState_ s) (initted_ s) (ftarget_ s)
    (f (fsmooth_ s)) (prevContrast_ s) (skipCount_ s) (stepCount_ s)
    (dropCount_ s) (scanMaxIndex_ s) (scanMaxContrast_ s) (scanMinContrast_ s)
    (scanData_ s) (reportState_ s) (isPdafEnabled_ s) (imageMetadata_ s)
    (stats_ s) (last_mean s) (last_agc_status s) (trigger_when_stable s)
    (stable_frame_count s).
#[export] Instance set_prevContrast_ : Setter prevContrast_ :=
  fun f s => MkAf (cfg_ s) (range_ s) (speed_ s) (mode_ s) (pauseFlag_ s)
    (statsRegion_ s) (windows_ s) (useWindows_ s) (phaseWeights_ s)
    (contrastWeights_ s) (scanState_ s) (initted_ s) (ftarget_ s) (fsmooth_ s)
    (f (prevContrast_ s)) (skipCount_ s) (stepCount_ s) (dropCount_ s)
    (scanMaxIndex_ s) (scanMaxContrast_ s) (scanMinContrast_ s) (scanData_ s)
    (reportState_ s) (isPdafEnabled_ s) (imageMetadata_ s) (stats_ s)
    (last_mean s) (last_agc_status s) (trigger_when_stable s)
    (stable_frame_count s).
#[export] Instance set_skipCount_ : Setter skipCount_ :=
  fun f s => MkAf (cfg_ s) (range_ s) (speed_ s) (mode_ s) (pauseFlag_ s)
    (statsRegion_ s) (windows_ s) (useWindows_ s) (phaseWeights_ s)
    (contrastWeights_ s) (scanState_ s) (initted_ s) (ftarget_ s) (fsmooth_ s)
    (prevContrast_ s) (f (skipCount_ s)) (stepCount_ s) (dropCount_ s)
    (scanMaxIndex_ s) (scanMaxContrast_ s) (scanMinContrast_ s) (scanData_ s)
    (reportState_ s) (isPdafEnabled_ s) (imageMetadata_ s) (stats_ s)
    (last_mean s) (last_agc_status s) (trigger_when_stable s)
    (stable_frame_count s).
#[export] Instance set_stepCount_ : Setter stepCount_ :=
  fun f s => MkAf (cfg_ s) (range_ s) (speed_ s) (mode_ s) (pauseFlag_ s)
    (statsRegion_ s) (windows_ s) (useWindows_ s) (phaseWeights_ s)
    (contrastWeights_ s) (scanState_ s) (initted_ s) (ftarget_ s) (fsmooth_ s)
    (prevContrast_ s) (skipCount_ s) (f (stepCount_ s)) (dropCount_ s)
    (scanMaxIndex_ s) (scanMaxContrast_ s) (scanMinContrast_ s) (scanData_ s)
    (reportState_ s) (isPdafEnabled_ s) (imageMetadata_ s) (stats_ s)
    (last_mean s) (last_agc_status s) (trigger_when_stable s)
    (stable_frame_count s).
#[export] Instance set_dropCount_ : Setter dropCount_ :=
  fun f s => MkAf (cfg_ s) (range_ s) (speed_ s) (mode_ s) (pauseFlag_ s)
    (statsRegion_ s) (windows_ s) (useWindows_ s) (phaseWeights_ s)
    (contrastWeights_ s) (scanState_ s) (initted_ s) (ftarget_ s) (fsmooth_ s)
    (prevContrast_ s) (skipCount_ s) (stepCount_ s) (f (dropCount_ s))
    (scanMaxIndex_ s) (scanMaxContrast_ s) (scanMinContrast_ s) (scanData_ s)
    (reportState_ s) (isPdafEnabled_ s) (imageMetadata_ s) (stats_ s)
    (last_mean s) (last_agc_status s) (trigger_when_stable s)
    (stable_frame_count s).
#[export] Instance set_scanMaxIndex_ : Setter scanMaxIndex_ :=
  fun f s => MkAf (cfg_ s) (range_ s) (speed_ s) (mode_ s) (pauseFlag_ s)
    (statsRegion_ s) (windows_ s) (useWindows_ s) (phaseWeights_ s)
    (contrastWeights_ s) (scanState_ s) (initted_ s) (ftarget_ s) (fsmooth_ s)
    (prevContrast_ s) (skipCount_ s) (stepCount_ s) (dropCount_ s)
    (f (scanMaxIndex_ s)) (scanMaxContrast_ s) (scanMinContrast_ s)
    (scanData_ s) (reportState_ s) (isPdafEnabled_ s) (imageMetadata_ s)
    (stats_ s) (last_mean s) (last_agc_status s) (trigger_when_stable s)
    (stable_frame_count s).
#[export] Instance set_scanMaxContrast_ : Setter scanMaxContrast_ :=
  fun f s => MkAf (cfg_ s) (range_ s) (speed_ s) (mode_ s) (pauseFlag_ s)
    (statsRegion_ s) (windows_ s) (useWindows_ s) (phaseWeights_ s)
    (contrastWeights_ s) (scanState_ s) (initted_ s) (ftarget_ s) (fsmooth_ s)
    (prevContrast_ s) (skipCount_ s) (stepCount_ s) (dropCount_ s)
    (scanMaxIndex_ s) (f (scanMaxContrast_ s)) (scanMinContrast_ s)
    (scanData_ s) (reportState_ s) (isPdafEnabled_ s) (imageMetadata_ s)
    (stats_ s) (last_mean s) (last_agc_status s) (trigger_when_stable s)
    (stable_frame_count s).
#[export] Instance set_scanMinContrast_ : Setter scanMinContrast_ :=
  fun f s => MkAf (cfg_ s) (range_ s) (speed_ s) (mode_ s) (pauseFlag_ s)
    (statsRegion_ s) (windows_ s) (useWindows_ s) (phaseWeights_ s)
    (contrastWeights_ s) (scanState_ s) (initted_ s) (ftarget_ s) (fsmooth_ s)
    (prevContrast_ s) (skipCount_ s) (stepCount_ s) (dropCount_ s)
    (scanMaxIndex_ s) (scanMaxContrast_ s) (f (scanMinContrast_ s))
    (scanData_ s) (reportState_ s) (isPdafEnabled_ s) (imageMetadata_ s)
    (stats_ s) (last_mean s) (last_agc_status s) (trigger_when_stable s)
    (stable_frame_count s).
#[export] Instance set_scanData_ : Setter scanData_ :=
  fun f s => MkAf (cfg_ s) (range_ s) (speed_ s) (mode_ s) (pauseFlag_ s)
    (statsRegion_ s) (windows_ s) (useWindows_ s) (phaseWeights_ s)
    (contrastWeights_ s) (scanState_ s) (initted_ s) (ftarget_ s) (fsmooth_ s)
    (prevContrast_ s) (skipCount_ s) (stepCount_ s) (dropCount_ s)
    (scanMaxIndex_ s) (scanMaxContrast_ s) (scanMinContrast_ s)
    (f (scanData_ s)) (reportState_ s) (isPdafEnabled_ s) (imageMetadata_ s)
    (stats_ s) (last_mean s) (last_agc_status s) (trigger_when_stable s)
    (stable_frame_count s).
#[export] Instance set_reportState_ : Setter reportState_ :=
  fun f s => MkAf (cfg_ s) (range_ s) (speed_ s) (mode_ s) (pauseFlag_ s)
    (statsRegion_ s) (windows_ s) (useWindows_ s) (phaseWeights_ s)
    (contrastWeights_ s) (scanState_ s) (initted_ s) (ftarget_ s) (fsmooth_ s)
    (prevContrast_ s) (skipCount_ s) (stepCount_ s) (dropCount_ s)
    (scanMaxIndex_ s) (scanMaxContrast_ s) (scanMinContrast_ s) (scanData_ s)
    (f (reportState_ s)) (isPdafEnabled_ s) (imageMetadata_ s) (stats_ s)
    (last_mean s) (last_agc_status s) (trigger_when_stable s)
    (stable_frame_count s).
#[export] Instance set_isPdafEnabled_ : Setter isPdafEnabled_ :=
  fun f s => MkAf (cfg_ s) (range_ s) (speed_ s) (mode_ s) (pauseFlag_ s)
    (statsRegion_ s) (windows_ s) (useWindows_ s) (phaseWeights_ s)
    (contrastWeights_ s) (scanState_ s) (initted_ s) (ftarget_ s) (fsmooth_ s)
    (prevContrast_ s) (skipCount_ s) (stepCount_ s) (dropCount_ s)
    (scanMaxIndex_ s) (scanMaxContrast_ s) (scanMinContrast_ s) (scanData_ s)
    (reportState_ s) (f (isPdafEnabled_ s)) (imageMetadata_ s) (stats_ s)
    (last_mean s) (last_agc_status s) (trigger_when_stable s)
    (stable_frame_count s).
#[export] Instance set_imageMetadata_ : Setter imageMetadata_ :=
  fun f s => MkAf (cfg_ s) (range_ s) (speed_ s) (mode_ s) (pauseFlag_ s)
    (statsRegion_ s) (windows_ s) (useWindows_ s) (phaseWeights_ s)
    (contrastWeights_ s) (scanState_ s) (initted_ s) (ftarget_ s) (fsmooth_ s)
    (prevContrast_ s) (skipCount_ s) (stepCount_ s) (dropCount_ s)
    (scanMaxIndex_ s) (scanMaxContrast_ s) (scanMinContrast_ s) (scanData_ s)
    (reportState_ s) (isPdafEnabled_ s) (f (imageMetadata_ s)) (stats_ s)
    (last_mean s) (last_agc_status s) (trigger_when_stable s)
    (stable_frame_count s).
#[export] Instance set_stats_ : Setter stats_ :=
  fun f s => MkAf (cfg_ s) (range_ s) (speed_ s) (mode_ s) (pauseFlag_ s)
    (statsRegion_ s) (windows_ s) (useWindows_ s) (phaseWeights_ s)
    (contrastWeights_ s) (scanState_ s) (initted_ s) (ftarget_ s) (fsmooth_ s)
    (prevContrast_ s) (skipCount_ s) (stepCount_ s) (dropCount_ s)
    (scanMaxIndex_ s) (scanMaxContrast_ s) (scanMinContrast_ s) (scanData_ s)
    (reportState_ s) (isPdafEnabled_ s) (imageMetadata_ s) (f (stats_ s))
    (last_mean s) (last_agc_status s) (trigger_when_stable s)
    (stable_frame_count s).
#[export] Instance set_last_mean : Setter last_mean :=
  fun f s => MkAf (cfg_ s) (range_ s) (speed_ s) (mode_ s) (pauseFlag_ s)
    (statsRegion_ s) (windows_ s) (useWindows_ s) (phaseWeights_ s)
    (contrastWeights_ s) (scanState_ s) (initted_ s) (ftarget_ s) (fsmooth_ s)
    (prevContrast_ s) (skipCount_ s) (stepCount_ s) (dropCount_ s)
    (scanMaxIndex_ s) (scanMaxContrast_ s) (scanMinContrast_ s) (scanData_ s)
    (reportState_ s) (isPdafEnabled_ s) (imageMetadata_ s) (stats_ s)
    (f (last_mean s)) (last_agc_status s) (trigger_when_stable s)
    (stable_frame_count s).
#[export] Instance set_last_agc_status : Setter last_agc_status :=
  fun f s => MkAf (cfg_ s) (range_ s) (speed_ s) (mode_ s) (pauseFlag_ s)
    (statsRegion_ s) (windows_ s) (useWindows_ s) (phaseWeights_ s)
    (contrastWeights_ s) (scanState_ s) (initted_ s) (ftarget_ s) (fsmooth_ s)
    (prevContrast_ s) (skipCount_ s) (stepCount_ s) (dropCount_ s)
    (scanMaxIndex_ s) (scanMaxContrast_ s) (scanMinContrast_ s) (scanData_ s)
    (reportState_ s) (isPdafEnabled_ s) (imageMetadata_ s) (stats_ s)
    (last_mean s) (f (last_agc_status s)) (trigger_when_stable s)
    (stable_frame_count s).
#[export] Instance set_trigger_when_stable : Setter trigger_when_stable :=
  fun f s => MkAf (cfg_ s) (range_ s) (speed_ s) (mode_ s) (pauseFlag_ s)
    (statsRegion_ s) (windows_ s) (useWindows_ s) (phaseWeights_ s)
    (contrastWeights_ s) (scanState_ s) (initted_ s) (ftarget_ s) (fsmooth_ s)
    (prevContrast_ s) (skipCount_ s) (stepCount_ s) (dropCount_ s)
    (scanMaxIndex_ s) (scanMaxContrast_ s) (scanMinContrast_ s) (scanData_ s)
    (reportState_ s) (isPdafEnabled_ s) (imageMetadata_ s) (stats_ s)
    (last_mean s) (last_agc_status s) (f (trigger_when_stable s))
    (stable_frame_count s).
#[export] Instance set_stable_frame_count : Setter stable_frame_count :=
  fun f s => MkAf (cfg_ s) (range_ s) (speed_ s) (mode_ s) (pauseFlag_ s)
    (statsRegion_ s) (windows_ s) (useWindows_ s) (phaseWeights_ s)
    (contrastWeights_ s) (scanState_ s) (initted_ s) (ftarget_ s) (fsmooth_ s)
    (prevContrast_ s) (skipCount_ s) (stepCount_ s) (dropCount_ s)
    (scanMaxIndex_ s) (scanMaxContrast_ s) (scanMinContrast_ s) (scanData_ s)
    (reportState_ s) (isPdafEnabled_ s) (imageMetadata_ s) (stats_ s)
    (last_mean s) (last_agc_status s) (trigger_when_stable s)
    (f (stable_frame_count s)).

(** The members that the constructor leaves without a value. *)
Record Unset := {
  unset_scanMaxIndex : nat;
  unset_last_mean : ndouble;
  unset_last_agc_status : bool;
  unset_trigger_when_stable : bool;
  unset_stable_frame_count : Z
}.

(** The state built by the constructor [Af::Af]. *)
Definition Af_new (cfg : CfgParams) (u : Unset) : Af :=
  {| cfg_ := cfg;
     range_ := AfRangeNormal;
     speed_ := AfSpeedNormal;
     mode_ := AfModeManual;
     pauseFlag_ := false;
     statsRegion_ := Rectangle.mk 0 0 0 0;
     windows_ := [];
     useWindows_ := false;
     phaseWeights_ := RegionWeights.empty;
     contrastWeights_ := RegionWeights.empty;
     scanState_ := ScanState.Idle;
     initted_ := false;
     ftarget_ := (-1)%Q;
     fsmooth_ := (-1)%Q;
     prevContrast_ := 0%Q;
     skipCount_ := 0;
     stepCount_ := 0;
     dropCount_ := 0;
     scanMaxIndex_ := unset_scanMaxIndex u;
     scanMaxContrast_ := 0%Q;
     scanMinContrast_ := 1000000000%Q;
     scanData_ := [];
     reportState_ := AfState.Idle;
     isPdafEnabled_ := false;
     imageMetadata_ := None;
     stats_ := None;
     last_mean := unset_last_mean u;
     last_agc_status := unset_last_agc_status u;
     trigger_when_stable := unset_trigger_when_stable u;
     stable_frame_count := unset_stable_frame_count u |}.

(** The active range and speed parameters, [cfg_.ranges[range_]] and
    [cfg_.speeds[speed_]].  The arrays are functions of the index here:
    a read outside of an array is not told apart from one inside (see
    [indexOk]). *)
Definition rangeParams (s : Af) : RangeDependentParams := ranges (cfg_ s) (range_ s).
Definition speedParams (s : Af) : SpeedDependentParams := speeds (cfg_ s) (speed_ s).

(** ** Region weights *)

Definition MaxWindows : Z := 10.

(** The values of an unsigned loop counter that runs from [lo] while it is
    below [hi]. *)
Definition urange (lo hi : Z) : list Z :=
  Z.of_nat <$> seq (Z.to_nat lo) (Z.to_nat hi - Z.to_nat lo).

(** [wgts->w[i] += a; wgts->sum += a;] with 16-bit cells and a 32-bit sum.
    The vector has [rows * cols] cells and [i] is [r * cols + c] with
    [r < rows] and [c < cols]. *)
Definition addWeight (i a : Z) (wg : RegionWeights.t) : RegionWeights.t :=
  RegionWeights.mk (RegionWeights.rows wg) (RegionWeights.cols wg)
    (u32 (RegionWeights.sum wg + a))
    (alter (fun v => u16 (v + a)) (Z.to_nat i) (RegionWeights.w wg)).

(** [wgts->w[i] = 1; wgts->sum += 1;] *)
Definition setWeightOne (i : Z) (wg : RegionWeights.t) : RegionWeights.t :=
  RegionWeights.mk (RegionWeights.rows wg) (RegionWeights.cols wg)
    (u32 (RegionWeights.sum wg + 1))
    (<[Z.to_nat i := 1]> (RegionWeights.w wg)).

(** The body of the loop over the columns [c] of row [r] for the window
    [win]; [y1] is the height of the overlap of the row and the window. *)
Definition windowCell (sr win : Rectangle.t) (maxCellWeight cellW cellA : Z)
    (cols r y1 : Z) (wg : RegionWeights.t) (c : Z) : RegionWeights.t :=
  let x0 := Z.max (s32 (Rectangle.x sr + s32 (u32 (cellW * c)))) (Rectangle.x win) in
  let x1 := Z.min (s32 (Rectangle.x sr + s32 (u32 (cellW * (c + 1)))))
                  (s32 (Rectangle.x win + s32 (Rectangle.width win))) in
  if x1 <=? x0 then wg
  else
    let a := u32 (s32 (y1 * s32 (x1 - x0))) in
    let a := u32 (maxCellWeight * a + cellA - 1) / cellA in
    addWeight (u32 (r * cols + c)) a wg.

(** The body of the loop over the rows [r] for the window [win]. *)
Definition windowRow (sr win : Rectangle.t) (maxCellWeight cellH cellW cellA : Z)
    (cols : Z) (wg : RegionWeights.t) (r : Z) : RegionWeights.t :=
  let y0 := Z.max (s32 (Rectangle.y sr + s32 (u32 (cellH * r)))) (Rectangle.y win) in
  let y1 := Z.min (s32 (Rectangle.y sr + s32 (u32 (cellH * (r + 1)))))
                  (s32 (Rectangle.y win + s32 (Rectangle.height win))) in
  if y1 <=? y0 then wg
  else
    let y1 := s32 (y1 - y0) in
    foldl (windowCell sr win maxCellWeight cellW cellA cols r y1) wg (urange 0 cols).

(** The first part of [computeWeights]: the grid is cleared and the
    windows are merged, weighted by area. *)
Definition windowWeights (s : Af) (rows cols : Z) : RegionWeights.t :=
  let wg := RegionWeights.mk rows cols 0 (replicate (Z.to_nat (u32 (rows * cols))) 0) in
  let sr := statsRegion_ s in
  if (0 <? rows) && (0 <? cols) && useWindows_ s &&
     (rows <=? Rectangle.height sr) && (cols <=? Rectangle.width sr)
  then
    let maxCellWeight := 46080 / u32 (MaxWindows * rows * cols) in
    let cellH := Rectangle.height sr / rows in
    let cellW := Rectangle.width sr / cols in
    let cellA := u32 (cellH * cellW) in
    foldl (fun wg win =>
             foldl (windowRow sr win maxCellWeight cellH cellW cellA cols) wg
                   (urange 0 rows))
          wg (windows_ s)
  else wg.

(** The second part of [computeWeights]: the default window, used when no
    weight was accumulated. *)
Definition centralWindow (rows cols : Z) (wg : RegionWeights.t) : RegionWeights.t :=
  foldl (fun wg r =>
           foldl (fun wg c => setWeightOne (u32 (r * cols + c)) wg) wg
                 (urange (cols / 4) (u32 (cols - cols / 4))))
        wg (urange (rows / 3) (u32 (rows - rows / 3))).

(** [Af::computeWeights(wgts, rows, cols)]: the new value of [*wgts]. *)
Definition computeWeights (s : Af) (rows cols : Z) : RegionWeights.t :=
  let wg := windowWeights s rows cols in
  if RegionWeights.sum wg =? 0 then centralWindow rows cols wg else wg.

(** [Af::invalidateWeights] *)
Definition invalidateWeights (s : Af) : Af :=
  let pw := phaseWeights_ s in
  let cw := contrastWeights_ s in
  s <| phaseWeights_ := RegionWeights.mk (RegionWeights.rows pw) (RegionWeights.cols pw)
                                         0 (RegionWeights.w pw) |>
    <| contrastWeights_ := RegionWeights.mk (RegionWeights.rows cw) (RegionWeights.cols cw)
                                            0 (RegionWeights.w cw) |>.

(** ** Phase and contrast fusion *)

(** The body of the loop of [getPhase] for a region of weight [w]. *)
Definition phaseCell (cfg : CfgParams) (w : Z) (data : PdafData) (acc : Z * Z) : Z * Z :=
  let '(sumWc, sumWcp) := acc in
  let c := conf data in
  if confThresh cfg <=? c then
    let c := if confClip cfg <? c then confClip cfg else c in
    let c := u32 (c - Z.shiftr (confThresh cfg) 2) in
    let sumWc := u32 (sumWc + u32 (w * c)) in
    let c := u32 (c - Z.shiftr (confThresh cfg) 2) in
    let sumWcp := s64 (sumWcp + s64 (u32 (w * c) * phase data)) in
    (sumWc, sumWcp)
  else acc.

(** The loop [for (i = ...; i < regions.numRegions(); ++i)] of [getPhase],
    with [n] iterations left. *)
Fixpoint phaseLoop (cfg : CfgParams) (W : list Z) (regions : PdafRegions)
    (i n : nat) (acc : Z * Z) : option (Z * Z) :=
  match n with
  | O => Some acc
  | S n' =>
      w ← W !! i;
      acc' ← (if w =? 0 then Some acc
              else r ← RegionStats.get regions i;
                   Some (phaseCell cfg w (RegionStats.val r) acc));
      phaseLoop cfg W regions (S i) n' acc'
  end.

(** The weights are recomputed when the grid has changed or after
    [invalidateWeights]. *)
Definition staleWeights (size : Size.t) (wg : RegionWeights.t) : bool :=
  negb (Size.height size =? RegionWeights.rows wg) ||
  negb (Size.width size =? RegionWeights.cols wg) ||
  (RegionWeights.sum wg =? 0).

(** [Af::getPhase(regions, phase, conf)]: the new state, the returned
    flag and the two results. *)
Definition getPhase (regions : PdafRegions) (s : Af) : option (Af * bool * double * double) :=
  let size := RegionStats.size regions in
  let s := if staleWeights size (phaseWeights_ s)
           then s <| phaseWeights_ := computeWeights s (Size.height size) (Size.width size) |>
           else s in
  '(sumWc, sumWcp) ← phaseLoop (cfg_ s) (RegionWeights.w (phaseWeights_ s)) regions
                                0 (RegionStats.numRegions regions) (0, 0);
  let gridSum := RegionWeights.sum (phaseWeights_ s) in
  if (0 <? gridSum) && (gridSum <=? sumWc)
  then Some (s, true, (of_int sumWcp / of_int sumWc)%Q, (of_int sumWc / of_int gridSum)%Q)
  else Some (s, false, 0%Q, 0%Q).

(** The loop of [getContrast], with [n] iterations left. *)
Fixpoint contrastLoop (W : list Z) (focusStats : FocusRegions)
    (i n : nat) (sumWc : Z) : option Z :=
  match n with
  | O => Some sumWc
  | S n' =>
      w ← W !! i;
      r ← RegionStats.get focusStats i;
      contrastLoop W focusStats (S i) n' (u64 (sumWc + u64 (w * RegionStats.val r)))
  end.

(** [Af::getContrast(focusStats)] *)
Definition getContrast (focusStats : FocusRegions) (s : Af) : option (Af * double) :=
  let size := RegionStats.size focusStats in
  let s := if staleWeights size (contrastWeights_ s)
           then s <| contrastWeights_ := computeWeights s (Size.height size) (Size.width size) |>
           else s in
  sumWc ← contrastLoop (RegionWeights.w (contrastWeights_ s)) focusStats
                        0 (RegionStats.numRegions focusStats) 0;
  let gridSum := RegionWeights.sum (contrastWeights_ s) in
  Some (s, if 0 <? gridSum then (of_int sumWc / of_int gridSum)%Q else 0%Q).

(** ** Closed-loop control from the phase *)

(** [Af::doPDAF(phase, conf)] *)
Definition doPDAF (phase conf : double) (s : Af) : Af :=
  let sp := speedParams s in
  let phase := (phase * pdafGain sp)%Q in
  let '(phase, s) :=
    if decide (mode_ s = AfModeContinuous) then
      let phase := (phase * (conf / (conf + of_int (confEpsilon (cfg_ s)))))%Q in
      if dlt (Qabs phase) (pdafSquelch sp) then
        let a := (phase / pdafSquelch sp)%Q in
        ((phase * (a * a))%Q, s)
      else (phase, s)
    else if stepFrames sp <=? stepCount_ s then
      if dlt (Qabs phase) (pdafSquelch sp)
      then (phase, s <| stepCount_ := stepFrames sp |>)
      else (phase, s)
    else ((phase * of_int (stepCount_ s / stepFrames sp))%Q, s) in
  let '(phase, s) :=
    if dlt phase (- maxSlew sp)%Q then
      ((- maxSlew sp)%Q,
       s <| reportState_ := if dle (ftarget_ s) (focusMin (rangeParams s))
                            then AfState.Failed else AfState.Scanning |>)
    else if dlt (maxSlew sp) phase then
      (maxSlew sp,
       s <| reportState_ := if dle (focusMax (rangeParams s)) (ftarget_ s)
                            then AfState.Failed else AfState.Scanning |>)
    else (phase, s <| reportState_ := AfState.Focused |>) in
  s <| ftarget_ := (fsmooth_ s + phase)%Q |>.

(** ** Lens position *)

(** [Af::updateLensPosition] *)
Definition updateLensPosition (s : Af) : Af :=
  let s := if ScanState.geb (scanState_ s) ScanState.Pdaf
           then s <| ftarget_ := dclamp (ftarget_ s) (focusMin (rangeParams s))
                                        (focusMax (rangeParams s)) |>
           else s in
  if initted_ s then
    s <| fsmooth_ := dclamp (ftarget_ s)
                            (fsmooth_ s - maxSlew (speedParams s))%Q
                            (fsmooth_ s + maxSlew (speedParams s))%Q |>
  else
    s <| fsmooth_ := ftarget_ s |>
      <| initted_ := true |>
      <| skipCount_ := skipFrames (cfg_ s) |>.

(** [Af::startProgrammedScan] *)
Definition startProgrammedScan (s : Af) : Af :=
  let s := s <| ftarget_ := focusMin (rangeParams s) |> in
  let s := updateLensPosition s in
  s <| scanState_ := ScanState.Coarse |>
    <| scanMaxContrast_ := 0%Q |>
    <| scanMinContrast_ := 1000000000%Q |>
    <| scanMaxIndex_ := 0%nat |>
    <| scanData_ := [] |>
    <| stepCount_ := stepFrames (speedParams s) |>
    <| reportState_ := AfState.Scanning |>
    <| stable_frame_count := 0 |>
    <| last_mean := Some 0%Q |>
    <| trigger_when_stable := false |>
    <| last_agc_status := false |>.

(** [Af::startAF] *)
Definition startAF (s : Af) : Af :=
  if (0 <? dropoutFrames (speedParams s)) &&
     (bool_decide (mode_ s = AfModeContinuous) || (0 <? pdafFrames (speedParams s)))
  then
    let s := if initted_ s then s
             else updateLensPosition (s <| ftarget_ := focusDefault (rangeParams s) |>) in
    s <| stepCount_ := if decide (mode_ s = AfModeContinuous)
                       then 0 else pdafFrames (speedParams s) |>
      <| scanState_ := ScanState.Pdaf |>
      <| scanData_ := [] |>
      <| dropCount_ := 0 |>
      <| reportState_ := AfState.Scanning |>
  else startProgrammedScan s.

(** [Af::goIdle] *)
Definition goIdle (s : Af) : Af :=
  s <| scanState_ := ScanState.Idle |>
    <| reportState_ := AfState.Idle |>
    <| scanData_ := [] |>.

(** ** Programmed scan *)

(** [Af::earlyTerminationByPhase(phase)]: the new state and the returned
    flag.  [list.last] is [scanData_[scanData_.size() - 1]], read under the
    guard [scanData_.size() > 0]. *)
Definition earlyTerminationByPhase (phase : double) (s : Af) : Af * bool :=
  match list.last (scanData_ s) with
  | Some rec =>
      if dle (of_int (confEpsilon (cfg_ s))) (sr_conf rec) then
        let oldFocus := focus rec in
        let oldPhase := sr_phase rec in
        if dlt 0 ((ftarget_ s - oldFocus) * (phase - oldPhase))%Q then
          let param := (phase / (phase - oldPhase))%Q in
          if dle (-3)%Q param && dle param (7 # 2)%Q
          then (s <| ftarget_ := (ftarget_ s + param * (oldFocus - ftarget_ s))%Q |>, true)
          else (s, false)
        else (s, false)
      else (s, false)
  | None => (s, false)
  end.

(** The quadratic correction of [findPeak] towards the neighbour with the
    smaller drop [dMin], where [dMax] is the larger one. *)
Definition peakParam (dMin dMax : double) : double :=
  ((5 # 16) * (1 - dMin / dMax) * ((8 # 5) - dMin / dMax))%Q.

(** [Af::findPeak(i)] *)
Definition findPeak (i : nat) (s : Af) : option double :=
  ri ← scanData_ s !! i;
  let f := focus ri in
  if (0 <? i)%nat && (i + 1 <? length (scanData_ s))%nat then
    rlo ← scanData_ s !! (i - 1)%nat;
    rhi ← scanData_ s !! (i + 1)%nat;
    let dropLo := (contrast ri - contrast rlo)%Q in
    let dropHi := (contrast ri - contrast rhi)%Q in
    if dle 0 dropLo && dlt dropLo dropHi then
      Some (f + peakParam dropLo dropHi * (focus rlo - f))%Q
    else if dle 0 dropHi && dlt dropHi dropLo then
      Some (f + peakParam dropHi dropLo * (focus rhi - f))%Q
    else Some f
  else Some f.

Definition isEmpty {A} (l : list A) : bool :=
  match l with [] => true | _ => false end.

(** The first statements of [doScan]: the lens position, contrast and
    phase of the current step are recorded. *)
Definition recordScan (c p cf : double) (s : Af) : Af :=
  let s := if isEmpty (scanData_ s) || dlt (scanMaxContrast_ s) c
           then s <| scanMaxContrast_ := c |>
                  <| scanMaxIndex_ := length (scanData_ s) |>
           else s in
  let s := if dlt c (scanMinContrast_ s) then s <| scanMinContrast_ := c |> else s in
  s <| scanData_ := scanData_ s ++ [Build_ScanRecord (ftarget_ s) c p cf] |>.

(** [Af::doScan(contrast, phase, conf)] *)
Definition doScan (c p cf : double) (s : Af) : option Af :=
  let s := recordScan c p cf s in
  let collapsed := dlt c (contrastRatio (speedParams s) * scanMaxContrast_ s)%Q in
  s ← (if decide (scanState_ s = ScanState.Coarse) then
         if dle (focusMax (rangeParams s)) (ftarget_ s) || collapsed then
           pk ← findPeak (scanMaxIndex_ s) s;
           Some (s <| ftarget_ := dmin (ftarget_ s) (pk + 2 * stepFine (speedParams s))%Q |>
                   <| scanState_ := ScanState.Fine |>
                   <| scanData_ := [] |>)
         else Some (s <| ftarget_ := (ftarget_ s + stepCoarse (speedParams s))%Q |>)
       else
         if dle (ftarget_ s) (focusMin (rangeParams s)) ||
            (5 <=? length (scanData_ s))%nat || collapsed then
           pk ← findPeak (scanMaxIndex_ s) s;
           Some (s <| ftarget_ := pk |> <| scanState_ := ScanState.Settle |>)
         else Some (s <| ftarget_ := (ftarget_ s - stepFine (speedParams s))%Q |>));
  Some (s <| stepCount_ := if deq (ftarget_ s) (fsmooth_ s)
                           then 0 else stepFrames (speedParams s) |>).

(** ** The per-frame algorithm *)

(** [generate_stats(zones, stats, min_pixels, min_G)]: the zones that are
    pushed, in order. *)
Definition generate_stats (stats : RgbyRegions) (min_pixels min_G : double) : list double :=
  foldl (fun zones iter =>
           let counted := of_int (RegionStats.counted iter) in
           if dle min_pixels counted then
             let zone := (of_int (gSum (RegionStats.val iter)) / counted)%Q in
             if dle min_G zone then zones ++ [zone] else zones
           else zones)
        [] (RegionStats.regions stats).

(** [sum / zones.size()]: a NaN when there is no zone. *)
Definition meanOf (zones : list double) : ndouble :=
  let sum := foldl Qplus 0%Q zones in
  if isEmpty zones then None else Some (sum / of_int (Z.of_nat (length zones)))%Q.

(** The first branch of [doAF]: in continuous mode without PDAF, a scan
    is started when the scene has changed and the exposure is stable. *)
Definition sceneMonitor (s : Af) : option Af :=
  md ← imageMetadata_ s;
  let agcLocked := match agc_prepare_status md with
                   | Some st => negb (locked st =? 0)
                   | None => false
                   end in
  st ← stats_ s;
  let zones := generate_stats (awbRegions st) 16%Q 32%Q in
  let mean := meanOf zones in
  let s :=
    if agcLocked && nne (last_mean s) 0%Q then
      let mean_diff := nabsdiff mean (last_mean s) in
      let s := if ngt mean_diff 1000%Q then s <| trigger_when_stable := true |> else s in
      if trigger_when_stable s && nlt mean_diff 400%Q then startProgrammedScan s
      else if negb (last_agc_status s) && agcLocked then startProgrammedScan s
      else s
    else s in
  Some (s <| last_agc_status := agcLocked |> <| last_mean := mean |>).

(** The branch of [doAF] for [ScanState::Pdaf]. *)
Definition pdafStep (phase conf : double) (s : Af) : Af :=
  let k := if dropCount_ s =? 0 then (1 # 4)%Q else 1%Q in
  if dlt (k * of_int (confEpsilon (cfg_ s)))%Q conf then
    let s := doPDAF phase conf s in
    let s := if 0 <? stepCount_ s then s <| stepCount_ := u32 (stepCount_ s - 1) |>
             else if decide (mode_ s <> AfModeContinuous)
                  then s <| scanState_ := ScanState.Idle |>
                  else s in
    s <| dropCount_ := 0 |>
  else
    let s := s <| dropCount_ := u32 (dropCount_ s + 1) |> in
    if dropCount_ s =? dropoutFrames (speedParams s) then startProgrammedScan s else s.

(** The end of the [ScanState::Settle] dwell: the verdict is published. *)
Definition settle (s : Af) : Af :=
  let limit := (contrastRatio (speedParams s) * scanMaxContrast_ s)%Q in
  let s := if dle limit (prevContrast_ s) && dle (scanMinContrast_ s) limit
           then s <| reportState_ := AfState.Focused |>
           else s <| reportState_ := AfState.Failed |> in
  let s := if bool_decide (mode_ s = AfModeContinuous) && negb (pauseFlag_ s) &&
              (0 <? dropoutFrames (speedParams s)) && isPdafEnabled_ s
           then s <| scanState_ := ScanState.Pdaf |>
           else s <| scanState_ := ScanState.Idle |> in
  s <| scanData_ := [] |> <| last_mean := Some 0%Q |>.

(** [Af::doAF(contrast, phase, conf)] *)
Definition doAF (c p cf : double) (s : Af) : option Af :=
  if 0 <? skipCount_ s then Some (s <| skipCount_ := u32 (skipCount_ s - 1) |>)
  else if bool_decide (mode_ s = AfModeContinuous) && negb (isPdafEnabled_ s) &&
          bool_decide (scanState_ s = ScanState.Idle)
  then sceneMonitor s
  else if decide (scanState_ s = ScanState.Pdaf) then Some (pdafStep p cf s)
  else if ScanState.geb (scanState_ s) ScanState.Coarse && deq (fsmooth_ s) (ftarget_ s) then
    if 0 <? stepCount_ s then Some (s <| stepCount_ := u32 (stepCount_ s - 1) |>)
    else if decide (scanState_ s = ScanState.Settle) then Some (settle s)
    else if dle (of_int (confEpsilon (cfg_ s))) cf then
      let '(s', ok) := earlyTerminationByPhase p s in
      if ok then
        Some (s' <| scanState_ := ScanState.Settle |>
                 <| stepCount_ := if decide (mode_ s' = AfModeContinuous)
                                  then 0 else stepFrames (speedParams s') |>)
      else doScan c p cf s'
    else doScan c p cf s
  else Some s.

(** [Af::prepare(imageMetadata)]: the new state and the metadata with the
    status written to it. *)
Definition prepare (imageMetadata : Metadata) (s : Af) : option (Af * Metadata) :=
  let s := if decide (scanState_ s = ScanState.Trigger) then startAF s else s in
  s ← (if initted_ s then
         let s := s <| imageMetadata_ := Some imageMetadata |> in
         '(s, ph, cf) ← match pdaf_regions imageMetadata with
                         | Some regions =>
                             '(s, _, ph, cf) ← getPhase regions s;
                             Some (s <| isPdafEnabled_ := true |>, ph, cf)
                         | None => Some (s, 0%Q, 0%Q)
                         end;
         s ← doAF (prevContrast_ s) ph cf s;
         Some (updateLensPosition s)
       else Some s);
  let status :=
    {| pauseState :=
         if pauseFlag_ s then
           if decide (scanState_ s = ScanState.Idle)
           then AfPauseState.Paused else AfPauseState.Pausing
         else AfPauseState.Running;
       state :=
         if bool_decide (mode_ s = AfModeAuto) &&
            negb (bool_decide (scanState_ s = ScanState.Idle))
         then AfState.Scanning else reportState_ s;
       lensSetting :=
         if initted_ s then Some (map_eval (cfg_ s) (fsmooth_ s)) else None |} in
  Some (s, {| pdaf_regions := pdaf_regions imageMetadata;
              agc_prepare_status := agc_prepare_status imageMetadata;
              af_status := Some status |}).

(** [Af::process(stats, imageMetadata)] *)
Definition process (stats : Statistics) (s : Af) : option Af :=
  '(s, c) ← getContrast (focusRegions stats) s;
  Some (s <| prevContrast_ := c |> <| stats_ := Some stats |>).

(** [Af::switchMode(cameraMode, metadata)] *)
Definition switchMode (cameraMode : CameraMode) (s : Af) : Af :=
  let s := s <| statsRegion_ :=
             Rectangle.mk (s32 (cropX cameraMode)) (s32 (cropY cameraMode))
               (u32 (to_int (of_int (cm_width cameraMode) * scaleX cameraMode)%Q))
               (u32 (to_int (of_int (cm_height cameraMode) * scaleY cameraMode)%Q)) |> in
  let s := invalidateWeights s in
  let s := if ScanState.geb (scanState_ s) ScanState.Coarse &&
              ScanState.ltb (scanState_ s) ScanState.Settle
           then startProgrammedScan s else s in
  s <| skipCount_ := skipFrames (cfg_ s) |>.

(** ** Controls *)

(** [Af::setRange(r)] *)
Definition setRange (r : AfRange) (s : Af) : Af :=
  if r <? AfRangeMax then s <| range_ := r |> else s.

(** [Af::setSpeed(s)] *)
Definition setSpeed (sp : AfSpeed) (s : Af) : Af :=
  if sp <? AfSpeedMax then
    let s := if bool_decide (scanState_ s = ScanState.Pdaf) &&
                (pdafFrames (speedParams s) <? pdafFrames (speeds (cfg_ s) sp))
             then s <| stepCount_ := u32 (stepCount_ s +
                                          u32 (pdafFrames (speeds (cfg_ s) sp) -
                                               pdafFrames (speedParams s))) |>
             else s in
    s <| speed_ := sp |>
  else s.

(** [Af::setMetering(mode)] *)
Definition setMetering (mode : bool) (s : Af) : Af :=
  if eqb (useWindows_ s) mode then s
  else invalidateWeights (s <| useWindows_ := mode |>).

(** The loop of [setWindows]: the windows are copied until there are
    [MaxWindows] of them. *)
Fixpoint copyWindows (acc wins : list Rectangle.t) : list Rectangle.t :=
  match wins with
  | [] => acc
  | w :: wins' =>
      let acc := acc ++ [w] in
      if MaxWindows <=? Z.of_nat (length acc) then acc else copyWindows acc wins'
  end.

(** [Af::setWindows(wins)] *)
Definition setWindows (wins : list Rectangle.t) (s : Af) : Af :=
  let s := s <| windows_ := copyWindows [] wins |> in
  if useWindows_ s then invalidateWeights s else s.

(** [Af::setLensPosition(dioptres, hwpos)]: the new state, the returned
    flag and the value written to [*hwpos]. *)
Definition setLensPosition (dioptres : double) (s : Af) : Af * bool * Z :=
  let '(s, changed) :=
    if decide (mode_ s = AfModeManual) then
      let s := s <| ftarget_ := map_domain_clip (cfg_ s) dioptres |> in
      let changed := negb (initted_ s && deq (fsmooth_ s) (ftarget_ s)) in
      (updateLensPosition s, changed)
    else (s, false) in
  (s, changed, map_eval (cfg_ s) (fsmooth_ s)).

(** [Af::getLensPosition] *)
Definition getLensPosition (s : Af) : option double :=
  if initted_ s then Some (fsmooth_ s) else None.

(** [Af::cancelScan] *)
Definition cancelScan (s : Af) : Af :=
  if decide (mode_ s = AfModeAuto) then goIdle s else s.

(** [Af::triggerScan] *)
Definition triggerScan (s : Af) : Af :=
  if bool_decide (mode_ s = AfModeAuto) && bool_decide (scanState_ s = ScanState.Idle)
  then s <| scanState_ := ScanState.Trigger |>
  else s.

(** [Af::setMode(mode)] *)
Definition setMode (mode : AfMode) (s : Af) : Af :=
  if decide (mode_ s <> mode) then
    let s := s <| mode_ := mode |> <| pauseFlag_ := false |> in
    if decide (mode = AfModeContinuous) then s <| scanState_ := ScanState.Trigger |>
    else if negb (bool_decide (mode = AfModeAuto)) ||
            ScanState.ltb (scanState_ s) ScanState.Coarse
         then goIdle s
         else s
  else s.

(** [Af::getMode] *)
Definition getMode (s : Af) : AfMode := mode_ s.

(** [Af::pause(pause)] *)
Definition pause (p : AfPause) (s : Af) : Af :=
  if decide (mode_ s = AfModeContinuous) then
    if bool_decide (p = AfPauseResume) && pauseFlag_ s then
      let s := s <| pauseFlag_ := false |> in
      if ScanState.ltb (scanState_ s) ScanState.Coarse
      then s <| scanState_ := ScanState.Trigger |>
      else s
    else if negb (bool_decide (p = AfPauseResume)) && negb (pauseFlag_ s) then
      let s := s <| pauseFlag_ := true |> in
      if bool_decide (p = AfPauseImmediate) ||
         ScanState.ltb (scanState_ s) ScanState.Coarse
      then goIdle s
      else s
    else s
  else s.

(** ** Runs of the algorithm

    One call of a public member function on an initialised algorithm. *)
Inductive step : Af -> Af -> Prop :=
| step_switchMode cm s : step s (switchMode cm s)
| step_prepare md s s' md' : prepare md s = Some (s', md') -> step s s'
| step_process st s s' : process st s = Some s' -> step s s'
| step_setRange r s : step s (setRange r s)
| step_setSpeed sp s : step s (setSpeed sp s)
| step_setMetering m s : step s (setMetering m s)
| step_setWindows ws s : step s (setWindows ws s)
| step_setLensPosition d s : step s (setLensPosition d s).1.1
| step_cancelScan s : step s (cancelScan s)
| step_triggerScan s : step s (triggerScan s)
| step_setMode m s : step s (setMode m s)
| step_pause p s : step s (pause p s).

(** The states that a run can reach from the constructed state. *)
Inductive reachable (cfg : CfgParams) : Af -> Prop :=
| reachable_new u : reachable cfg (Af_new cfg u)
| reachable_step s s' : reachable cfg s -> step s s' -> reachable cfg s'.

(** ** The default tuning *)

(** Modelled from the spec: the class [Pwl] of the map is declared
    outside this file.  This is the map that [CfgParams::initialise]
    installs when the tuning file has none, with [eval] a linear
    interpolation clipped to the end points and [domain().clip] a clamp
    to the domain: the line through (0.0, 445.0) and (15.0, 925.0). *)
Definition defaultMap_clip (x : double) : double := dclamp x 0 15.
Definition defaultMap_eval (x : double) : Z := to_int (445 + 32 * defaultMap_clip x)%Q.

(** [CfgParams::CfgParams] followed by [CfgParams::initialise]. *)
Definition CfgParams_default : CfgParams :=
  {| ranges := fun _ => RangeDependentParams_default;
     speeds := fun _ => SpeedDependentParams_default;
     confEpsilon := 8;
     confThresh := 16;
     confClip := 512;
     skipFrames := 5;
     map_eval := defaultMap_eval;
     map_domain_clip := defaultMap_clip |}.

Definition Unset_zero : Unset :=
  {| unset_scanMaxIndex := 0%nat;
     unset_last_mean := Some 0%Q;
     unset_last_agc_status := false;
     unset_trigger_when_stable := false;
     unset_stable_frame_count := 0 |}.

(** ** The tuning file *)

(** [CfgParams::read] takes the tuning from a node of the tuning file
    (class [YamlObject], declared outside this file).  The source uses
    three operations of a node, [contains(key)], [operator[](key)] and
    [get<T>()] with [T] one of [double] and [uint32_t], and [Pwl::read]
    for the map; they are the parameters of this section, so that
    nothing is assumed about them. *)
Section TuningFile.

Context {YamlObject : Type}.
Variable contains : YamlObject -> string -> bool.
Variable child : YamlObject -> string -> YamlObject.
Variable get_double : YamlObject -> option double.
Variable get_uint32 : YamlObject -> option Z.
Variable Pwl_read :
  YamlObject -> (double -> Z) * (double -> double) -> (double -> Z) * (double -> double).

(** [readNumber<T>(dest, params, name)]: the new value of [dest]. *)
Definition readNumber {T : Type} (get : YamlObject -> option T) (dest : T)
    (params : YamlObject) (name : string) : T :=
  match get (child params name) with
  | Some value => value
  | None => dest
  end.

(** [RangeDependentParams::read(params)] *)
Definition RangeDependentParams_read (params : YamlObject) (p : RangeDependentParams) :
    RangeDependentParams :=
  {| focusMin := readNumber get_double (focusMin p) params "min";
     focusMax := readNumber get_double (focusMax p) params "max";
     focusDefault := readNumber get_double (focusDefault p) params "default" |}.

(** [SpeedDependentParams::read(params)] *)
Definition SpeedDependentParams_read (params : YamlObject) (p : SpeedDependentParams) :
    SpeedDependentParams :=
  {| stepCoarse := readNumber get_double (stepCoarse p) params "step_coarse";
     stepFine := readNumber get_double (stepFine p) params "step_fine";
     contrastRatio := readNumber get_double (contrastRatio p) params "contrast_ratio";
     pdafGain := readNumber get_double (pdafGain p) params "pdaf_gain";
     pdafSquelch := readNumber get_double (pdafSquelch p) params "pdaf_squelch";
     maxSlew := readNumber get_double (maxSlew p) params "max_slew";
     pdafFrames := readNumber get_uint32 (pdafFrames p) params "pdaf_frames";
     dropoutFrames := readNumber get_uint32 (dropoutFrames p) params "dropout_frames";
     stepFrames := readNumber get_uint32 (stepFrames p) params "step_frames" |}.

(** [a[i] = v] for the arrays [ranges] and [speeds], indexed by the
    enumerations. *)
Definition assign {T : Type} (i : Z) (v : T) (a : Z -> T) : Z -> T :=
  fun j => if j =? i then v else a j.

(** The part of [CfgParams::read] for [ranges]. *)
Definition readRanges (params : YamlObject) (rg : AfRange -> RangeDependentParams) :
    AfRange -> RangeDependentParams :=
  if contains params "ranges" then
    let rr := child params "ranges" in
    let rg := if contains rr "normal"
              then assign AfRangeNormal
                     (RangeDependentParams_read (child rr "normal") (rg AfRangeNormal)) rg
              else rg in
    let rg := assign AfRangeMacro (rg AfRangeNormal) rg in
    let rg := if contains rr "macro"
              then assign AfRangeMacro
                     (RangeDependentParams_read (child rr "macro") (rg AfRangeMacro)) rg
              else rg in
    let rg := assign AfRangeFull
                {| focusMin := dmin (focusMin (rg AfRangeNormal)) (focusMin (rg AfRangeMacro));
                   focusMax := dmax (focusMax (rg AfRangeNormal)) (focusMax (rg AfRangeMacro));
                   focusDefault := focusDefault (rg AfRangeNormal) |} rg in
    if contains rr "full"
    then assign AfRangeFull
           (RangeDependentParams_read (child rr "full") (rg AfRangeFull)) rg
    else rg
  else rg.

(** The part of [CfgParams::read] for [speeds]. *)
Definition readSpeeds (params : YamlObject) (sp : AfSpeed -> SpeedDependentParams) :
    AfSpeed -> SpeedDependentParams :=
  if contains params "speeds" then
    let ss := child params "speeds" in
    let sp := if contains ss "normal"
              then assign AfSpeedNormal
                     (SpeedDependentParams_read (child ss "normal") (sp AfSpeedNormal)) sp
              else sp in
    let sp := assign AfSpeedFast (sp AfSpeedNormal) sp in
    if contains ss "fast"
    then assign AfSpeedFast
           (SpeedDependentParams_read (child ss "fast") (sp AfSpeedFast)) sp
    else sp
  else sp.

(** [CfgParams::read(params)]: the new tuning and the returned code. *)
Definition CfgParams_read (params : YamlObject) (cfg : CfgParams) : CfgParams * Z :=
  let map := if contains params "map"
             then Pwl_read (child params "map") (map_eval cfg, map_domain_clip cfg)
             else (map_eval cfg, map_domain_clip cfg) in
  ({| ranges := readRanges params (ranges cfg);
      speeds := readSpeeds params (speeds cfg);
      confEpsilon := readNumber get_uint32 (confEpsilon cfg) params "conf_epsilon";
      confThresh := readNumber get_uint32 (confThresh cfg) params "conf_thresh";
      confClip := readNumber get_uint32 (confClip cfg) params "conf_clip";
      skipFrames := readNumber get_uint32 (skipFrames cfg) params "skip_frames";
      map_eval := map.1;
      map_domain_clip := map.2 |}, 0).

End TuningFile.

(** * Predicates, runs and example states of the properties *)

(** ** Runs of frames *)

(** A number of frames with the same metadata. *)
Fixpoint frames (n : nat) (md : Metadata) (s : Af) : option Af :=
  match n with
  | O => Some s
  | S n' => '(s', _) ← prepare md s; frames n' md s'
  end.

(** Metadata without PDAF regions and without an AGC status. *)
Definition noMetadata : Metadata :=
  {| pdaf_regions := None; agc_prepare_status := None; af_status := None |}.

(** Continuous autofocus with the default tuning on a camera without
    PDAF: after the start-up frames and [dropoutFrames] frames without
    phase data, the algorithm is in the coarse scan. *)
Definition continuousScan : option Af :=
  frames 11 noMetadata (setMode AfModeContinuous (Af_new CfgParams_default Unset_zero)).

(** ** Early termination of a scan by the phase *)

(** The zero-phase extrapolation parameter for the record [rec]. *)
Definition etbpParam (ph : double) (rec : ScanRecord) : double :=
  (ph / (ph - sr_phase rec))%Q.

(** The conditions of the specification: [rec] is the last record of the
    scan, its confidence is at least [confEpsilon], the gradient has the
    expected sign and the extrapolation is well conditioned. *)
Definition etbpAccepts (ph : double) (s : Af) (rec : ScanRecord) : Prop :=
  list.last (scanData_ s) = Some rec /\
  (of_int (confEpsilon (cfg_ s)) <= sr_conf rec)%Q /\
  (0 < (ftarget_ s - focus rec) * (ph - sr_phase rec))%Q /\
  (-3 <= etbpParam ph rec)%Q /\
  (etbpParam ph rec <= 7 # 2)%Q.

(** A coarse scan that has recorded one step with a good phase. *)
Definition scanWithPhase : Af :=
  (Af_new CfgParams_default Unset_zero)
    <| scanState_ := ScanState.Coarse |>
    <| ftarget_ := 2%Q |>
    <| fsmooth_ := 2%Q |>
    <| initted_ := true |>
    <| scanData_ := [Build_ScanRecord 1 100 (-20) 64] |>.

(** ** The verdict at the end of a scan *)

(** The end of the settling time of a scan that has seen a peak. *)
Definition settledScan : Af :=
  (Af_new CfgParams_default Unset_zero)
    <| scanState_ := ScanState.Settle |>
    <| ftarget_ := 3%Q |>
    <| fsmooth_ := 3%Q |>
    <| initted_ := true |>
    <| prevContrast_ := 90%Q |>
    <| scanMaxContrast_ := 100%Q |>
    <| scanMinContrast_ := 40%Q |>.

(** ** Peak refinement *)

(** A scan of three samples that are symmetric about the focus 3. *)
Definition symmetricScan : Af :=
  (Af_new CfgParams_default Unset_zero)
    <| scanData_ := [Build_ScanRecord 2 80 0 0;
                     Build_ScanRecord 3 100 0 0;
                     Build_ScanRecord 4 80 0 0] |>.

(** ** The ramp of the triggered PDAF sequence *)

(** A triggered PDAF sequence with the default tuning ([stepFrames] is 4,
    [pdafGain] is -0.02) that has two steps left. *)
Definition triggeredPdaf : Af :=
  (Af_new CfgParams_default Unset_zero)
    <| mode_ := AfModeAuto |>
    <| scanState_ := ScanState.Pdaf |>
    <| initted_ := true |>
    <| ftarget_ := 1%Q |>
    <| fsmooth_ := 1%Q |>
    <| stepCount_ := 2 |>.

(** PDAF regions on a 2 x 2 grid with phase 10 and confidence 116: the
    fused phase is [10 * 108 / 112] with confidence 112. *)
Definition defocusedPdaf : Metadata :=
  {| pdaf_regions :=
       Some (RegionStats.mk (Size.mk 2 2)
               (replicate 4 (RegionStats.mkRegion {| conf := 116; phase := 10 |} 0)));
     agc_prepare_status := None;
     af_status := None |}.

(** A triggered scan from 6 dioptres with the default tuning, after [n]
    frames with these regions. *)
Definition triggeredRun (n : nat) : option Af :=
  frames n defocusedPdaf
    (triggerScan (setMode AfModeAuto
       (setLensPosition 6 (Af_new CfgParams_default Unset_zero)).1.1)).

(** ** The slew rate limit *)


(** *** The lens position across a frame *)

(** What the slew rate limit depends on: the tuning, the speed, whether
    the lens position is known, and the smoothed position. *)
Definition lensKey (s : Af) : CfgParams * AfSpeed * bool * double :=
  (cfg_ s, speed_ s, initted_ s, fsmooth_ s).

(** [s'] has the lens where [s] has it. *)
Definition lensFixed (s s' : Af) : Prop := lensKey s' = lensKey s.



(** ** The central window of [computeWeights] *)

(** The cells that the loops of [centralWindow] visit, in order. *)
Definition centralCells (rows cols : Z) : list Z :=
  r ← urange (rows / 3) (u32 (rows - rows / 3));
  (fun c => u32 (r * cols + c)) <$> urange (cols / 4) (u32 (cols - cols / 4)).

(** The cells of the central window of the source: rows from
    [rows / 3] below [rows - rows / 3], columns from [cols / 4] below
    [cols - cols / 4], with integer divisions. *)
Definition inCentralWindow (rows cols r c : Z) : bool :=
  (rows / 3 <=? r) && (r <? rows - rows / 3) &&
  (cols / 4 <=? c) && (c <? cols - cols / 4).

(** The ceiling of [a / b]. *)
Definition ceilDiv (a b : Z) : Z := (a + b - 1) / b.

(** The central window as the specification words it: rows from the
    ceiling of [rows / 3] and columns from the ceiling of [cols / 4]. *)
Definition specCentralWindow (rows cols r c : Z) : bool :=
  (ceilDiv rows 3 <=? r) && (r <? rows - rows / 3) &&
  (ceilDiv cols 4 <=? c) && (c <? cols - cols / 4).

(** ** The scan records are indexed within bounds *)

(** The invariant of [scanMaxIndex_]: it is the index of a record
    whenever there is a record. *)
Definition scanIndexOk (s : Af) : Prop :=
  scanData_ s = [] \/ (scanMaxIndex_ s < length (scanData_ s))%nat.

(** [s'] has the scan records and the index of [s]. *)
Definition scanFixed (s s' : Af) : Prop :=
  scanData_ s' = scanData_ s /\ scanMaxIndex_ s' = scanMaxIndex_ s.

(** [s'] has no scan record. *)
Definition scanCleared (s' : Af) : Prop := scanData_ s' = [].

(** ** Phase fusion *)

(** The two reduced confidences of the specification for a region with
    confidence [cnf]. *)
Definition c1 (cfg : CfgParams) (cnf : Z) : Z :=
  Z.min cnf (confClip cfg) - confThresh cfg / 4.
Definition c2 (cfg : CfgParams) (cnf : Z) : Z :=
  c1 cfg cnf - confThresh cfg / 4.

(** A region counts when its weight is not zero and its confidence is at
    least [confThresh]. *)
Definition counts (cfg : CfgParams) (w : Z) (d : PdafData) : bool :=
  negb (w =? 0) && (confThresh cfg <=? conf d).

(** The terms that a region adds to [sumWc] and to [sumWcp]; the product
    [w * c2] is an [unsigned] before it is widened to 64 bits. *)
Definition termWc (cfg : CfgParams) (wd : Z * PdafData) : Z :=
  if counts cfg wd.1 wd.2 then wd.1 * c1 cfg (conf wd.2) else 0.
Definition termWcp (cfg : CfgParams) (wd : Z * PdafData) : Z :=
  if counts cfg wd.1 wd.2 then u32 (wd.1 * c2 cfg (conf wd.2)) * phase wd.2 else 0.

Definition sumZ (l : list Z) : Z := foldr Z.add 0 l.

(** The two accumulators of the specification, as sums over the grid. *)
Definition specSumWc (cfg : CfgParams) (W : list Z) (cells : list PdafData) : Z :=
  sumZ (termWc cfg <$> zip W cells).
Definition specSumWcp (cfg : CfgParams) (W : list Z) (cells : list PdafData) : Z :=
  sumZ (termWcp cfg <$> zip W cells).

(** The sum of the specification for [sumWcp], in its words: the plain
    products [w * c2 * phase]. *)
Definition plainTermWcp (cfg : CfgParams) (wd : Z * PdafData) : Z :=
  if counts cfg wd.1 wd.2 then wd.1 * c2 cfg (conf wd.2) * phase wd.2 else 0.
Definition plainSumWcp (cfg : CfgParams) (W : list Z) (cells : list PdafData) : Z :=
  sumZ (plainTermWcp cfg <$> zip W cells).

(** Nothing leaves the range of its type: no product [w * c2] that of
    [unsigned], and neither sum that of its accumulator. *)
Definition noWrap (cfg : CfgParams) (W : list Z) (cells : list PdafData) : Prop :=
  Forall (fun wd => counts cfg wd.1 wd.2 = true -> 0 <= wd.1 * c2 cfg (conf wd.2) < 2 ^ 32)
         (zip W cells) /\
  0 <= specSumWc cfg W cells < 2 ^ 32 /\
  - 2 ^ 63 <= plainSumWcp cfg W cells < 2 ^ 63.

(** A grid of regions has [height * width] regions. *)
Definition wfGrid {T : Type} (regions : RegionStats.t T) : Prop :=
  let size := RegionStats.size regions in
  0 <= Size.height size /\ 0 <= Size.width size /\
  Size.height size * Size.width size < 2 ^ 32 /\
  RegionStats.numRegions regions = Z.to_nat (Size.height size * Size.width size).

(** A grid of weights has [rows * cols] cells. *)
Definition wfWeights (wg : RegionWeights.t) : Prop :=
  length (RegionWeights.w wg) =
  Z.to_nat (u32 (RegionWeights.rows wg * RegionWeights.cols wg)).

(** A grid of 2 x 2 regions with the same phase and confidence. *)
Definition uniformPdaf : PdafRegions :=
  RegionStats.mk (Size.mk 2 2)
    (replicate 4 (RegionStats.mkRegion {| conf := 100; phase := 5 |} 0)).

(** A tuning that clips the confidence below half of [confThresh], and
    a grid of one region with a negative phase. *)
Definition lowClip : CfgParams :=
  {| ranges := ranges CfgParams_default;
     speeds := speeds CfgParams_default;
     confEpsilon := 8;
     confThresh := 16;
     confClip := 5;
     skipFrames := 5;
     map_eval := defaultMap_eval;
     map_domain_clip := defaultMap_clip |}.

Definition negativePdaf : PdafRegions :=
  RegionStats.mk (Size.mk 1 1) [RegionStats.mkRegion {| conf := 20; phase := -2 |} 0].

(** ** The scenarios of the specification *)

(** A statistics region of 400 x 400 pixels with one window over all of
    it. *)
Definition fullWindow : Af :=
  (Af_new CfgParams_default Unset_zero)
    <| statsRegion_ := Rectangle.mk 0 0 400 400 |>
    <| windows_ := [Rectangle.mk 0 0 400 400] |>
    <| useWindows_ := true |>.

(** A contrast curve with its peak at 3 dioptres, measured by a focus
    grid of one region. *)
Definition peakContrast (x : double) : Z :=
  Z.max 0 (to_int (1000 - 100 * Qabs (x - 3))%Q).

Definition statsAt (x : double) : Statistics :=
  {| focusRegions := RegionStats.mk (Size.mk 1 1) [RegionStats.mkRegion (peakContrast x) 0];
     awbRegions := RegionStats.mk (Size.mk 0 0) [] |}.

(** Frames of a camera without PDAF whose contrast follows the lens:
    [prepare], then [process] with the statistics of the new position. *)
Fixpoint scanFrames (n : nat) (s : Af) : option Af :=
  match n with
  | O => Some s
  | S n' =>
      '(s1, _) ← prepare noMetadata s;
      s2 ← process (statsAt (fsmooth_ s1)) s1;
      scanFrames n' s2
  end.

(** ** The weight grids keep their shape *)

(** Both weight grids have [rows * cols] cells. *)
Definition weightsOk (s : Af) : Prop :=
  wfWeights (phaseWeights_ s) /\ wfWeights (contrastWeights_ s).

(** [s'] has the weight grids of [s]. *)
Definition weightsFixed (s s' : Af) : Prop :=
  phaseWeights_ s' = phaseWeights_ s /\ contrastWeights_ s' = contrastWeights_ s.

(** ** Invariants of the scan state *)

(** What every run keeps: in manual mode no scan is pending; a fine scan
    holds at most four records between two steps; the pause flag is set
    only in continuous mode and never while the algorithm is triggered
    or in the PDAF loop; and from the PDAF state on the lens position is
    known. *)
Definition scanInv (s : Af) : Prop :=
  (mode_ s = AfModeManual -> scanState_ s = ScanState.Idle) /\
  (scanState_ s = ScanState.Fine -> (length (scanData_ s) <= 4)%nat) /\
  (pauseFlag_ s = true ->
   mode_ s = AfModeContinuous /\
   scanState_ s <> ScanState.Trigger /\ scanState_ s <> ScanState.Pdaf) /\
  (ScanState.geb (scanState_ s) ScanState.Pdaf = true -> initted_ s = true).

(** [s'] has the mode, the pause flag, the scan state and the scan
    records of [s], and knows the lens position if [s] does. *)
Definition ctlFixed (s s' : Af) : Prop :=
  mode_ s' = mode_ s /\ pauseFlag_ s' = pauseFlag_ s /\
  scanState_ s' = scanState_ s /\ scanData_ s' = scanData_ s /\
  (initted_ s = true -> initted_ s' = true).

(** ** The scene monitor and the PDAF loop *)

(** [agc_prepare_status.locked] as [doAF] reads it: not locked when the
    metadata has no such status. *)
Definition agcLocked (s : Af) : bool :=
  match imageMetadata_ s with
  | Some md => match agc_prepare_status md with
               | Some st => negb (locked st =? 0)
               | None => false
               end
  | None => false
  end.

(** A run of [doAF] over the frames [(contrast, phase, conf)]. *)
Fixpoint doAFs (fs : list (double * double * double)) (s : Af) : option Af :=
  match fs with
  | [] => Some s
  | (c, p, cf) :: fs' => s1 ← doAF c p cf s; doAFs fs' s1
  end.

(** Frames that the PDAF loop drops from the state [s] on: the
    confidence is at most [confEpsilon], and at most a quarter of it on
    the first frame when no frame has been dropped yet. *)
Definition lowConfidence (s : Af) (fs : list (double * double * double)) : Prop :=
  let eps := of_int (confEpsilon (cfg_ s)) in
  Forall (fun f => (f.2 <= eps)%Q) fs /\
  (dropCount_ s = 0 ->
   match fs with
   | f :: _ => (f.2 <= (1 # 4) * eps)%Q
   | [] => True
   end).

(** ** The cached weights *)

(** [s'] has what [computeWeights] reads where [s] has it: the region of
    the statistics, the metering mode and the windows. *)
Definition gridFixed (s s' : Af) : Prop :=
  statsRegion_ s' = statsRegion_ s /\ useWindows_ s' = useWindows_ s /\
  windows_ s' = windows_ s.

(** A grid of weights that is not invalidated is the one that
    [computeWeights] yields for its size in the state [s]. *)
Definition cachedGrid (s : Af) (wg : RegionWeights.t) : Prop :=
  RegionWeights.sum wg <> 0 ->
  wg = computeWeights s (RegionWeights.rows wg) (RegionWeights.cols wg).

Definition cacheOk (s : Af) : Prop :=
  cachedGrid s (phaseWeights_ s) /\ cachedGrid s (contrastWeights_ s).

(** ** The indices of the tuning arrays *)

(** [cfg_.ranges] has [AfRangeMax] and [cfg_.speeds] has [AfSpeedMax]
    elements; the model reads them as functions of the index, so that a
    read with [range_] or [speed_] outside of the array is not told
    apart from one inside.  [setRange] and [setSpeed] test their argument
    against the upper limit only. *)
Definition indexOk (s : Af) : Prop :=
  0 <= range_ s < AfRangeMax /\ 0 <= speed_ s < AfSpeedMax.

(** [s'] has the range and the speed of [s]. *)
Definition indexFixed (s s' : Af) : Prop :=
  range_ s' = range_ s /\ speed_ s' = speed_ s.

(** ** The statistics of the scene monitor *)

(** The scene monitor of [doAF] runs in continuous mode, without PDAF,
    when no scan is active; it reads the statistics that [process] has
    stored. *)
Definition monitorReady (s : Af) : Prop :=
  mode_ s = AfModeContinuous -> scanState_ s = ScanState.Idle ->
  isPdafEnabled_ s = false -> is_Some (stats_ s).

(** ** An example of a tuning file *)

(** A node is a number or a dictionary; a key that is missing yields an
    empty dictionary, and a dictionary is not a number. *)
#[warnings="-register-all"] Inductive Yaml :=
| YamlNumber (x : double)
| YamlMap (entries : list (string * Yaml)).

Definition yaml_contains (y : Yaml) (key : string) : bool :=
  match y with
  | YamlMap entries => existsb (fun e => String.eqb e.1 key) entries
  | YamlNumber _ => false
  end.

Definition yaml_child (y : Yaml) (key : string) : Yaml :=
  match y with
  | YamlMap entries =>
      match find (fun e => String.eqb e.1 key) entries with
      | Some e => e.2
      | None => YamlMap []
      end
  | YamlNumber _ => YamlMap []
  end.

Definition yaml_double (y : Yaml) : option double :=
  match y with YamlNumber x => Some x | YamlMap _ => None end.

Definition yaml_uint32 (y : Yaml) : option Z :=
  match y with
  | YamlNumber x => if (Z.pos (Qden x) =? 1) && (0 <=? Qnum x) && (Qnum x <? 2 ^ 32)
                    then Some (Qnum x) else None
  | YamlMap _ => None
  end.

(** The map is left as it is. *)
Definition yaml_map (y : Yaml) (m : (double -> Z) * (double -> double)) :
    (double -> Z) * (double -> double) := m.

(** A tuning file with a normal and a macro range, and no full one. *)
Definition tuningExample : Yaml :=
  YamlMap [("ranges"%string,
            YamlMap [("normal"%string,
                      YamlMap [("min"%string, YamlNumber 0); ("max"%string, YamlNumber 12);
                               ("default"%string, YamlNumber 1)]);
                     ("macro"%string,
                      YamlMap [("min"%string, YamlNumber 3); ("max"%string, YamlNumber 15);
                               ("default"%string, YamlNumber 4)])]);
           ("skip_frames"%string, YamlNumber 2)].

(** * Properties *)

(** Projections of assignments. *)
Ltac af_simpl :=
  cbn [set cfg_ range_ speed_ mode_ pauseFlag_ statsRegion_ windows_
       useWindows_ phaseWeights_ contrastWeights_ scanState_ initted_
       ftarget_ fsmooth_ prevContrast_ skipCount_ stepCount_ dropCount_
       scanMaxIndex_ scanMaxContrast_ scanMinContrast_ scanData_
       reportState_ isPdafEnabled_ imageMetadata_ stats_ last_mean
       last_agc_status trigger_when_stable stable_frame_count set_cfg_
       set_range_ set_speed_ set_mode_ set_pauseFlag_ set_statsRegion_
       set_windows_ set_useWindows_ set_phaseWeights_ set_contrastWeights_
       set_scanState_ set_initted_ set_ftarget_ set_fsmooth_
       set_prevContrast_ set_skipCount_ set_stepCount_ set_dropCount_
       set_scanMaxIndex_ set_scanMaxContrast_ set_scanMinContrast_
       set_scanData_ set_reportState_ set_isPdafEnabled_ set_imageMetadata_
       set_stats_ set_last_mean set_last_agc_status set_trigger_when_stable
       set_stable_frame_count] in *.

(** Case analysis on the conditions of the source. *)
Ltac break_if :=
  match goal with
  | |- context [if ?b then _ else _] => destruct b eqn:?
  | |- context [match ?x with Some _ => _ | None => _ end] => destruct x eqn:?
  | |- context [let '(_, _) := ?x in _] => destruct x eqn:?
  end.

(** Closes a goal [scanFixed s e \/ scanCleared e] for an expression [e]
    without conditions. *)
Ltac scan_done := first [left; split; reflexivity | right; reflexivity].

(** ** Comparisons of doubles *)

Lemma dlt_true (a b : double) : dlt a b = true <-> (a < b)%Q.
Proof.
  unfold dlt. rewrite negb_true_iff, <- not_true_iff_false, Qle_bool_iff.
  split; [apply Qnot_le_lt | apply Qlt_not_le].
Qed.

Lemma dlt_false (a b : double) : dlt a b = false <-> (b <= a)%Q.
Proof.
  unfold dlt. rewrite negb_false_iff. apply Qle_bool_iff.
Qed.

Lemma dle_true (a b : double) : dle a b = true <-> (a <= b)%Q.
Proof. apply Qle_bool_iff. Qed.

Lemma dle_false (a b : double) : dle a b = false <-> (b < a)%Q.
Proof.
  unfold dle. rewrite <- not_true_iff_false, Qle_bool_iff.
  split; [apply Qnot_le_lt | apply Qlt_not_le].
Qed.

Lemma deq_true (a b : double) : deq a b = true <-> (a == b)%Q.
Proof. apply Qeq_bool_iff. Qed.

Lemma dlt_irrefl_eq (a b : double) : (a == b)%Q -> dlt a b = false.
Proof. intros H. apply dlt_false. rewrite H. apply Qle_refl. Qed.

(** ** Controls: [setRange] and [setSpeed] *)

(** C10.  A call of [setRange] with an argument that is not below
    [AfRangeMax], and a call of [setSpeed] with an argument that is not
    below [AfSpeedMax], return the state they were given: no member
    variable changes. *)
Theorem setRange_setSpeed_out_of_range (s : Af) (r : AfRange) (sp : AfSpeed) :
  AfRangeMax <= r -> AfSpeedMax <= sp ->
  setRange r s = s /\ setSpeed sp s = s.
Proof.
  intros Hr Hsp. unfold setRange, setSpeed.
  destruct (Z.ltb_spec r AfRangeMax) as [Hlt | _]; [lia |].
  destruct (Z.ltb_spec sp AfSpeedMax) as [Hlt | _]; [lia |].
  split; reflexivity.
Qed.

Lemma setRange_setSpeed_out_of_range_witness :
  setRange 3 (Af_new CfgParams_default Unset_zero) = Af_new CfgParams_default Unset_zero /\
  setSpeed 7 (Af_new CfgParams_default Unset_zero) = Af_new CfgParams_default Unset_zero.
Proof.
  apply (setRange_setSpeed_out_of_range (Af_new CfgParams_default Unset_zero) 3 7);
    unfold AfRangeMax, AfSpeedMax; lia.
Defined.

(** In-range arguments do take effect. *)
Lemma setRange_in_range (s : Af) (r : AfRange) :
  r < AfRangeMax -> range_ (setRange r s) = r.
Proof.
  intros Hr. unfold setRange.
  destruct (Z.ltb_spec r AfRangeMax); [reflexivity | lia].
Qed.

Lemma setSpeed_in_range (s : Af) (sp : AfSpeed) :
  sp < AfSpeedMax -> speed_ (setSpeed sp s) = sp.
Proof.
  intros Hsp. unfold setSpeed.
  destruct (Z.ltb_spec sp AfSpeedMax); [| lia].
  destruct (_ && _); reflexivity.
Qed.

(** ** Controls: [pause] *)

Example continuousScan_state :
  (s ← continuousScan; Some (mode_ s, pauseFlag_ s, scanState_ s)) =
  Some (AfModeContinuous, false, ScanState.Coarse).
Proof. vm_compute. reflexivity. Qed.

(** C7, as stated, fails: when the pause flag is already set, for example
    by [pause(Deferred)] during a scan, [pause(Immediate)] changes
    nothing and the scan goes on; and [pause(Deferred)] in the [Pdaf]
    state stops the closed loop at once. *)
Lemma pause_immediate_counterexample :
  match continuousScan with
  | Some s =>
      let s1 := pause AfPauseDeferred s in
      mode_ s1 = AfModeContinuous /\
      scanState_ (pause AfPauseImmediate s1) = ScanState.Coarse /\
      scanState_ (pause AfPauseImmediate s1) <> ScanState.Idle
  | None => False
  end.
Proof. vm_compute. repeat split; discriminate. Qed.

(** C7, amended.  [pause] changes nothing unless the mode is Continuous.
    In Continuous mode, [pause(Immediate)] and [pause(Deferred)] change
    nothing when the pause flag is already set; otherwise they set it,
    and [Immediate] goes idle ([goIdle]) from every scan state, while
    [Deferred] goes idle from [Idle], [Trigger] and [Pdaf] and leaves
    the scan state unchanged from [Coarse] on.  [pause(Resume)] changes
    nothing when the flag is clear; otherwise it clears it and sets the
    scan state to [Trigger] when it is below [Coarse], and leaves the
    scan state unchanged from [Coarse] on. *)
Theorem pause_behaviour (p : AfPause) (s : Af) :
  (mode_ s <> AfModeContinuous -> pause p s = s) /\
  (mode_ s = AfModeContinuous ->
   match p with
   | AfPauseImmediate =>
       if pauseFlag_ s then pause p s = s
       else pause p s = goIdle (s <| pauseFlag_ := true |>)
   | AfPauseDeferred =>
       if pauseFlag_ s then pause p s = s
       else if ScanState.rank (scanState_ s) <? ScanState.rank ScanState.Coarse
            then pause p s = goIdle (s <| pauseFlag_ := true |>)
            else pause p s = s <| pauseFlag_ := true |>
   | AfPauseResume =>
       if pauseFlag_ s then
         if ScanState.rank (scanState_ s) <? ScanState.rank ScanState.Coarse
         then pause p s = s <| pauseFlag_ := false |> <| scanState_ := ScanState.Trigger |>
         else pause p s = s <| pauseFlag_ := false |>
       else pause p s = s
   end).
Proof.
  unfold pause. split; intros Hm.
  - destruct (decide (mode_ s = AfModeContinuous)); [contradiction | reflexivity].
  - destruct (decide (mode_ s = AfModeContinuous)); [| contradiction].
    destruct p, (pauseFlag_ s) eqn:Hf; cbn; try reflexivity;
      unfold ScanState.ltb; destruct (_ <? _); reflexivity.
Qed.

Lemma pause_behaviour_witness :
  pause AfPauseImmediate (Af_new CfgParams_default Unset_zero) =
  Af_new CfgParams_default Unset_zero.
Proof.
  apply (proj1 (pause_behaviour AfPauseImmediate (Af_new CfgParams_default Unset_zero))).
  simpl. discriminate.
Defined.

(** The fields of the state after a pause request in Continuous mode. *)
Lemma pause_fields (p : AfPause) (s : Af) :
  mode_ s = AfModeContinuous ->
  pauseFlag_ (pause p s) = negb (bool_decide (p = AfPauseResume)) /\
  (p = AfPauseImmediate -> pauseFlag_ s = false -> scanState_ (pause p s) = ScanState.Idle) /\
  (p = AfPauseDeferred ->
   ScanState.rank ScanState.Coarse <= ScanState.rank (scanState_ s) ->
   scanState_ (pause p s) = scanState_ s).
Proof.
  intros Hm. unfold pause.
  destruct (decide (mode_ s = AfModeContinuous)); [| contradiction].
  split; [| split].
  - destruct p, (pauseFlag_ s) eqn:Hf; unfold ScanState.ltb;
      try destruct (_ <? _); simpl; rewrite ?Hf; reflexivity.
  - intros -> Hf. rewrite Hf. reflexivity.
  - intros -> Hr. destruct (pauseFlag_ s); cbn; [reflexivity |].
    unfold ScanState.ltb. destruct (Z.ltb_spec (ScanState.rank (scanState_ s))
      (ScanState.rank ScanState.Coarse)); [lia | reflexivity].
Qed.

(** ** Early termination of a scan by the phase *)

(** C6.  [earlyTerminationByPhase(phase)] returns true and moves
    [ftarget] to [ftarget + param * (oldFocus - ftarget)] exactly when
    the scan data are not empty, the last record has a confidence of at
    least [confEpsilon], [(ftarget - oldFocus) * (phase - oldPhase) > 0]
    and [-3.0 <= param <= 3.5]; in every other case it returns false and
    the state, [ftarget] included, is the one it was given. *)
Theorem earlyTerminationByPhase_spec (ph : double) (s : Af) :
  (forall rec, etbpAccepts ph s rec ->
     earlyTerminationByPhase ph s =
     (s <| ftarget_ := (ftarget_ s + etbpParam ph rec * (focus rec - ftarget_ s))%Q |>, true)) /\
  ((~ exists rec, etbpAccepts ph s rec) -> earlyTerminationByPhase ph s = (s, false)).
Proof.
  unfold earlyTerminationByPhase, etbpAccepts. split.
  - intros rec (Hlast & Hconf & Hgrad & Hlo & Hhi). rewrite Hlast.
    apply dle_true in Hconf, Hlo, Hhi. apply dlt_true in Hgrad.
    unfold etbpParam in *. rewrite Hconf, Hgrad, Hlo, Hhi. reflexivity.
  - intros Hno. destruct (list.last (scanData_ s)) as [rec |] eqn:Hlast; [| reflexivity].
    destruct (dle _ (sr_conf rec)) eqn:Hconf; [| reflexivity].
    destruct (dlt 0 _) eqn:Hgrad; [| reflexivity].
    destruct (dle (-3) _ && dle _ (7 # 2)) eqn:Hpar; [| reflexivity].
    exfalso. apply Hno. exists rec.
    apply andb_true_iff in Hpar as [Hlo Hhi].
    apply dle_true in Hconf, Hlo, Hhi. apply dlt_true in Hgrad.
    unfold etbpParam. auto.
Qed.

Lemma earlyTerminationByPhase_spec_witness :
  earlyTerminationByPhase (-10) scanWithPhase =
  (scanWithPhase <| ftarget_ := (2 + etbpParam (-10) (Build_ScanRecord 1 100 (-20) 64)
                                     * (1 - 2))%Q |>, true).
Proof.
  apply (proj1 (earlyTerminationByPhase_spec (-10) scanWithPhase)
               (Build_ScanRecord 1 100 (-20) 64)).
  unfold etbpAccepts. repeat split; vm_compute; congruence.
Defined.

(** ** The verdict at the end of a scan *)

(** C5.  When [doAF] runs in the [Settle] state with [fsmooth == ftarget],
    [skipCount == 0] and [stepCount == 0], the published [reportState] is
    [Focused] if and only if [prevContrast >= contrastRatio *
    scanMaxContrast] and [scanMinContrast <= contrastRatio *
    scanMaxContrast]; otherwise it is [Failed]. *)
Theorem doAF_settle_verdict (c p cf : double) (s : Af) :
  scanState_ s = ScanState.Settle ->
  (fsmooth_ s == ftarget_ s)%Q ->
  skipCount_ s = 0 ->
  stepCount_ s = 0 ->
  let limit := (contrastRatio (speedParams s) * scanMaxContrast_ s)%Q in
  exists s', doAF c p cf s = Some s' /\
    (reportState_ s' = AfState.Focused <->
     (limit <= prevContrast_ s)%Q /\ (scanMinContrast_ s <= limit)%Q) /\
    (reportState_ s' = AfState.Focused \/ reportState_ s' = AfState.Failed).
Proof.
  intros Hst Heq Hskip Hstep limit. unfold doAF.
  rewrite Hskip, Hstep, Hst. apply deq_true in Heq. rewrite Heq.
  cbn [Z.ltb Z.compare]. rewrite andb_false_r. cbn.
  eexists. split; [reflexivity |].
  unfold settle. fold limit.
  destruct (dle limit (prevContrast_ s)) eqn:H1, (dle (scanMinContrast_ s) limit) eqn:H2;
    cbn [andb];
    repeat match goal with |- context [if ?b then _ else _] => destruct b end;
    cbn; (split; [split; [intros H | intros [H3 H4]] | auto]);
    try discriminate; try (split; apply dle_true; assumption);
    try reflexivity;
    apply dle_true in H3, H4; congruence.
Qed.

Lemma doAF_settle_verdict_witness :
  exists s', doAF 90 0 0 settledScan = Some s' /\
    (reportState_ s' = AfState.Focused <->
     ((3 # 4) * 100 <= 90)%Q /\ (40 <= (3 # 4) * 100)%Q) /\
    (reportState_ s' = AfState.Focused \/ reportState_ s' = AfState.Failed).
Proof.
  apply (doAF_settle_verdict 90 0 0 settledScan); reflexivity.
Defined.

(** ** Peak refinement *)

(** When the two neighbours of record [i] have the same contrast, or
    record [i] has no two neighbours, no correction is applied. *)
Lemma findPeak_equal_drops (s : Af) (i : nat) (ri : ScanRecord) :
  scanData_ s !! i = Some ri ->
  (forall rlo rhi,
     scanData_ s !! (i - 1)%nat = Some rlo -> scanData_ s !! (i + 1)%nat = Some rhi ->
     (contrast rlo == contrast rhi)%Q) ->
  findPeak i s = Some (focus ri).
Proof.
  intros Hi Heq. unfold findPeak. rewrite Hi. cbn [mbind option_bind].
  destruct ((0 <? i)%nat && (i + 1 <? length (scanData_ s))%nat) eqn:Hguard;
    [| reflexivity].
  apply andb_true_iff in Hguard as [Hpos Hnext].
  apply Nat.ltb_lt in Hpos, Hnext.
  destruct (lookup_lt_is_Some_2 (scanData_ s) (i - 1)%nat) as [rlo Hlo]; [lia |].
  destruct (lookup_lt_is_Some_2 (scanData_ s) (i + 1)%nat) as [rhi Hhi]; [lia |].
  rewrite Hlo, Hhi. cbn [mbind option_bind].
  specialize (Heq rlo rhi Hlo Hhi).
  assert (Hd : (contrast ri - contrast rlo == contrast ri - contrast rhi)%Q)
    by (rewrite Heq; reflexivity).
  rewrite (dlt_irrefl_eq _ _ Hd).
  rewrite (dlt_irrefl_eq _ _ (Qeq_sym _ _ Hd)).
  rewrite !andb_false_r. reflexivity.
Qed.

(** C8.  [findPeak(i)] returns the recorded focus of record [i] when all
    the contrast values of the scan are equal, and when [i] is an
    interior index whose three samples are [(f - st, c - D)], [(f, c)]
    and [(f + st, c - D)] with [D >= 0]. *)
Theorem findPeak_flat_symmetric (s : Af) (i : nat) (ri : ScanRecord) :
  scanData_ s !! i = Some ri ->
  ((forall j k rj rk,
      scanData_ s !! j = Some rj -> scanData_ s !! k = Some rk ->
      (contrast rj == contrast rk)%Q) ->
   findPeak i s = Some (focus ri)) /\
  (forall (rlo rhi : ScanRecord) (st c D : double),
      (0 < i)%nat ->
      scanData_ s !! (i - 1)%nat = Some rlo ->
      scanData_ s !! (i + 1)%nat = Some rhi ->
      (0 <= D)%Q ->
      (focus rlo == focus ri - st)%Q /\ (contrast rlo == c - D)%Q ->
      (contrast ri == c)%Q ->
      (focus rhi == focus ri + st)%Q /\ (contrast rhi == c - D)%Q ->
      findPeak i s = Some (focus ri)).
Proof.
  intros Hi. split.
  - intros Hflat. apply (findPeak_equal_drops s i ri Hi).
    intros rlo rhi Hlo Hhi. exact (Hflat _ _ _ _ Hlo Hhi).
  - intros rlo rhi st c D Hpos Hlo Hhi HD [_ Hclo] _ [_ Hchi].
    apply (findPeak_equal_drops s i ri Hi).
    intros rlo' rhi' Hlo' Hhi'.
    rewrite Hlo in Hlo'. rewrite Hhi in Hhi'.
    injection Hlo' as <-. injection Hhi' as <-.
    rewrite Hclo, Hchi. reflexivity.
Qed.

Lemma findPeak_flat_symmetric_witness : findPeak 1 symmetricScan = Some 3%Q.
Proof.
  apply (proj2 (findPeak_flat_symmetric symmetricScan 1 (Build_ScanRecord 3 100 0 0)
                  eq_refl)
               (Build_ScanRecord 2 80 0 0) (Build_ScanRecord 4 80 0 0) 1%Q 100%Q 20%Q);
    try reflexivity; try (split; reflexivity); try lia.
  vm_compute. discriminate.
Defined.

(** ** The ramp of the triggered PDAF sequence *)

(** The first half of C1: at or above [stepFrames] remaining steps, a
    gain-scaled phase below the squelch level latches [stepCount] to
    [stepFrames]. *)
Lemma doPDAF_triggered_latch (ph cf : double) (s : Af) :
  mode_ s <> AfModeContinuous ->
  stepFrames (speedParams s) <= stepCount_ s ->
  (Qabs (ph * pdafGain (speedParams s)) < pdafSquelch (speedParams s))%Q ->
  stepCount_ (doPDAF ph cf s) = stepFrames (speedParams s).
Proof.
  intros Hm Hstep Hsq. unfold doPDAF.
  destruct (decide (mode_ s = AfModeContinuous)); [contradiction |].
  destruct (Z.leb_spec (stepFrames (speedParams s)) (stepCount_ s)); [| lia].
  apply dlt_true in Hsq. rewrite Hsq.
  repeat match goal with |- context [if ?b then _ else _] => destruct b end; reflexivity.
Qed.

(** C1, what the source does.  [stepCount_] and [stepFrames] are unsigned
    integers, so [stepCount_ / stepFrames] is an integer division: below
    [stepFrames] remaining steps the quotient is zero, the correction is
    multiplied by zero and the lens target stays at the smoothed
    position, whatever the phase is.  The ramp [phase * stepCount /
    stepFrames] of the specification is never applied. *)
Theorem doPDAF_triggered_ramp_is_zero (ph cf : double) (s : Af) :
  mode_ s = AfModeAuto ->
  0 <= stepCount_ s < stepFrames (speedParams s) ->
  (0 <= maxSlew (speedParams s))%Q ->
  (ftarget_ (doPDAF ph cf s) == fsmooth_ s)%Q /\
  reportState_ (doPDAF ph cf s) = AfState.Focused.
Proof.
  intros Hm Hstep Hslew. unfold doPDAF.
  destruct (decide (mode_ s = AfModeContinuous)) as [Hc | _]; [congruence |].
  destruct (Z.leb_spec (stepFrames (speedParams s)) (stepCount_ s)); [lia |].
  rewrite Z.div_small by lia.
  set (corr := (ph * pdafGain (speedParams s) * of_int 0)%Q).
  assert (Hcorr : (corr == 0)%Q) by (unfold corr, of_int; ring).
  assert (Hlo : dlt corr (- maxSlew (speedParams s)) = false)
    by (apply dlt_false; rewrite Hcorr; lra).
  assert (Hhi : dlt (maxSlew (speedParams s)) corr = false)
    by (apply dlt_false; rewrite Hcorr; lra).
  rewrite Hlo, Hhi. cbn. split; [rewrite Hcorr; ring | reflexivity].
Qed.

Lemma doPDAF_triggered_ramp_is_zero_witness :
  (ftarget_ (doPDAF 10 100 triggeredPdaf) == 1)%Q /\
  reportState_ (doPDAF 10 100 triggeredPdaf) = AfState.Focused.
Proof.
  apply (doPDAF_triggered_ramp_is_zero 10 100 triggeredPdaf);
    first [reflexivity | (vm_compute; split; congruence) | (vm_compute; congruence)].
Defined.

(** The same in a run: with a constant phase the lens moves by 27/140
    dioptres in every frame while [stepCount_] is at least [stepFrames],
    and not at all in the frames that follow. *)
Example triggered_run_stops :
  (s ← triggeredRun 20; Some (stepCount_ s, Qred (fsmooth_ s))) = Some (5, (87 # 28)%Q) /\
  (s ← triggeredRun 21; Some (stepCount_ s, Qred (fsmooth_ s))) = Some (4, (102 # 35)%Q) /\
  (s ← triggeredRun 22; Some (stepCount_ s, Qred (fsmooth_ s))) = Some (3, (381 # 140)%Q) /\
  (s ← triggeredRun 23; Some (stepCount_ s, Qred (fsmooth_ s))) = Some (2, (381 # 140)%Q) /\
  (s ← triggeredRun 24; Some (stepCount_ s, Qred (fsmooth_ s))) = Some (1, (381 # 140)%Q) /\
  (s ← triggeredRun 25; Some (stepCount_ s, Qred (fsmooth_ s))) = Some (0, (381 # 140)%Q).
Proof. vm_compute. repeat split; reflexivity. Qed.

(** At this input the specification asks for the correction
    [10 * (-0.02) * 2 / 4 = -0.1]; the source applies none. *)
Example doPDAF_ramp_failing_input :
  (ftarget_ (doPDAF 10 100 triggeredPdaf) == 1)%Q /\
  ~ (ftarget_ (doPDAF 10 100 triggeredPdaf) == 1 + 10 * - (2 # 100) * (2 # 4))%Q.
Proof. split; vm_compute; congruence. Qed.

(** ** The slew rate limit *)

Lemma dclamp_bounds (v lo hi : double) :
  (lo <= hi)%Q -> (lo <= dclamp v lo hi)%Q /\ (dclamp v lo hi <= hi)%Q.
Proof.
  intros Hle. unfold dclamp.
  destruct (dlt v lo) eqn:H1; [split; [apply Qle_refl | exact Hle] |].
  apply dlt_false in H1.
  destruct (dlt hi v) eqn:H2; [split; [exact Hle | apply Qle_refl] |].
  apply dlt_false in H2. split; assumption.
Qed.



(** *** The lens position across a frame *)

Lemma lensFixed_refl (s : Af) : lensFixed s s.
Proof. reflexivity. Qed.












Lemma doPDAF_scanState (ph cf : double) (s : Af) :
  scanState_ (doPDAF ph cf s) = scanState_ s.
Proof. unfold doPDAF. repeat break_if; reflexivity. Qed.















(** ** The central window of [computeWeights] *)

Lemma u32_small (z : Z) : 0 <= z < 2 ^ 32 -> u32 z = z.
Proof. intros H. unfold u32. apply Z.mod_small. exact H. Qed.

Lemma u32_add_l (a b : Z) : u32 (u32 a + b) = u32 (a + b).
Proof. unfold u32. apply Zplus_mod_idemp_l. Qed.

Lemma elem_of_urange (lo hi x : Z) :
  0 <= lo -> x ∈ urange lo hi <-> lo <= x < hi.
Proof.
  intros Hlo. unfold urange. rewrite list_elem_of_fmap. split.
  - intros (n & -> & Hn). apply elem_of_seq in Hn. lia.
  - intros Hx. exists (Z.to_nat x). split; [lia |]. apply elem_of_seq. lia.
Qed.

Lemma length_urange (lo hi : Z) :
  0 <= lo <= hi -> Z.of_nat (length (urange lo hi)) = hi - lo.
Proof. intros H. unfold urange. rewrite length_fmap, length_seq. lia. Qed.

Lemma centralWindow_foldl (rows cols : Z) (wg : RegionWeights.t) :
  centralWindow rows cols wg = foldl (fun wg i => setWeightOne i wg) wg (centralCells rows cols).
Proof.
  unfold centralWindow, centralCells.
  generalize (urange (cols / 4) (u32 (cols - cols / 4))) as cs.
  generalize (urange (rows / 3) (u32 (rows - rows / 3))) as rs.
  intros rs cs. revert wg.
  induction rs as [| r rs IH]; intros wg; [reflexivity |].
  cbn [foldl mbind list_bind]. rewrite foldl_app, foldl_fmap. apply IH.
Qed.

Lemma u32_range (z : Z) : 0 <= u32 z < 2 ^ 32.
Proof. unfold u32. apply Z.mod_pos_bound. lia. Qed.

Lemma foldl_setWeightOne (idxs : list Z) (wg : RegionWeights.t) :
  0 <= RegionWeights.sum wg < 2 ^ 32 ->
  let wg' := foldl (fun wg i => setWeightOne i wg) wg idxs in
  RegionWeights.sum wg' = u32 (RegionWeights.sum wg + Z.of_nat (length idxs)) /\
  forall j : nat,
    RegionWeights.w wg' !! j =
    if bool_decide (j ∈ Z.to_nat <$> idxs)
    then (fun _ => 1) <$> RegionWeights.w wg !! j
    else RegionWeights.w wg !! j.
Proof.
  revert wg. induction idxs as [| i idxs IH]; intros wg Hsum; cbn [foldl].
  - split; [| intros j; reflexivity].
    cbn [length]. rewrite Z.add_0_r, u32_small; [reflexivity | exact Hsum].
  - destruct (IH (setWeightOne i wg)) as [IHsum IHw]; [apply u32_range |].
    cbn zeta in *. split.
    + rewrite IHsum. cbn [setWeightOne RegionWeights.sum length].
      rewrite u32_add_l. f_equal. lia.
    + intros j. rewrite IHw. cbn [setWeightOne RegionWeights.w].
      rewrite fmap_cons.
      destruct (decide (j = Z.to_nat i)) as [-> | Hne].
      * rewrite (bool_decide_eq_true_2 (_ ∈ _ :: _)) by (left).
        destruct (decide (Z.to_nat i < length (RegionWeights.w wg))%nat) as [Hlt | Hge].
        -- rewrite list_lookup_insert_eq by exact Hlt.
           destruct (lookup_lt_is_Some_2 _ _ Hlt) as [v ->].
           destruct (bool_decide _); reflexivity.
        -- rewrite list_insert_ge by lia.
           rewrite (lookup_ge_None_2 (RegionWeights.w wg)) by lia.
           destruct (bool_decide _); reflexivity.
      * rewrite list_lookup_insert_ne by congruence.
        destruct (bool_decide (j ∈ Z.to_nat <$> idxs)) eqn:Hin.
        -- apply bool_decide_eq_true in Hin.
           rewrite bool_decide_eq_true_2 by (right; exact Hin). reflexivity.
        -- apply bool_decide_eq_false in Hin.
           rewrite bool_decide_eq_false_2; [reflexivity |].
           intros [Heq | Hin']%elem_of_cons; [congruence | contradiction].
Qed.

Lemma cell_index_bound (rows cols r c : Z) :
  0 <= r < rows -> 0 <= c < cols -> 0 <= r * cols + c < rows * cols.
Proof. intros Hr Hc. nia. Qed.

Lemma cell_index_inj (cols r c r' c' : Z) :
  0 <= c < cols -> 0 <= c' < cols ->
  r * cols + c = r' * cols + c' -> r = r' /\ c = c'.
Proof.
  intros Hc Hc' Heq.
  assert (r = r') by nia. subst r'. split; [reflexivity | lia].
Qed.

Lemma elem_of_centralCells (rows cols r c : Z) :
  0 <= rows -> 0 <= cols -> rows * cols < 2 ^ 32 ->
  0 <= r < rows -> 0 <= c < cols ->
  Z.to_nat (r * cols + c) ∈ Z.to_nat <$> centralCells rows cols <->
  inCentralWindow rows cols r c = true.
Proof.
  intros Hrows Hcols Hsize Hr Hc. unfold centralCells, inCentralWindow.
  assert (Hr3 : 0 <= rows / 3 <= rows) by (split; [apply Z.div_pos | apply Z.div_le_upper_bound]; lia).
  assert (Hc4 : 0 <= cols / 4 <= cols) by (split; [apply Z.div_pos | apply Z.div_le_upper_bound]; lia).
  assert (Hrb : rows < 2 ^ 32) by nia.
  assert (Hcb : cols < 2 ^ 32) by nia.
  rewrite !u32_small by lia.
  rewrite !andb_true_iff, !Z.leb_le, !Z.ltb_lt.
  pose proof (cell_index_bound rows cols r c Hr Hc) as Hidx.
  split.
  - intros (i & Hi & Hin)%list_elem_of_fmap.
    apply list_elem_of_bind in Hin as (r' & Hin & Hr').
    apply list_elem_of_fmap in Hin as (c' & -> & Hc').
    apply elem_of_urange in Hr'; [| lia]. apply elem_of_urange in Hc'; [| lia].
    pose proof (cell_index_bound rows cols r' c' ltac:(lia) ltac:(lia)) as Hidx'.
    rewrite u32_small in Hi by lia.
    destruct (cell_index_inj cols r c r' c') as [Hr1 Hc1]; [lia | lia | lia |].
    subst r' c'. lia.
  - intros Hin. apply list_elem_of_fmap. exists (r * cols + c). split; [reflexivity |].
    apply list_elem_of_bind. exists r. split; [| apply elem_of_urange; lia].
    apply list_elem_of_fmap. exists c. split; [| apply elem_of_urange; lia].
    rewrite u32_small; [reflexivity | lia].
Qed.

Lemma length_centralCells (rows cols : Z) :
  0 <= rows < 2 ^ 32 -> 0 <= cols < 2 ^ 32 ->
  Z.of_nat (length (centralCells rows cols)) =
  (rows - 2 * (rows / 3)) * (cols - 2 * (cols / 4)).
Proof.
  intros Hrows Hcols. unfold centralCells.
  pose proof (Z.div_pos rows 3 ltac:(lia) ltac:(lia)) as Hr0.
  pose proof (Z.mul_div_le rows 3 ltac:(lia)) as Hr3.
  pose proof (Z.div_pos cols 4 ltac:(lia) ltac:(lia)) as Hc0.
  pose proof (Z.mul_div_le cols 4 ltac:(lia)) as Hc4.
  rewrite !u32_small by lia.
  assert (Hlen : forall (rs cs : list Z) (g : Z -> Z -> Z),
            (Z.of_nat (length (r ← rs; g r <$> cs)) =
             Z.of_nat (length rs) * Z.of_nat (length cs))%Z).
  { intros rs cs g. induction rs as [| r rs IH]; [reflexivity |].
    rewrite bind_cons, length_app, length_fmap. cbn [length]. lia. }
  rewrite (Hlen _ _ (fun r c => u32 (r * cols + c))), !length_urange by lia. ring.
Qed.

(** The grid keeps its [rows * cols] cells while the windows are merged. *)
Lemma foldl_invariant {A B : Type} (P : A -> Prop) (f : A -> B -> A) (l : list B) (a : A) :
  (forall a b, P a -> P (f a b)) -> P a -> P (foldl f a l).
Proof.
  intros Hf. revert a. induction l as [| b l IH]; intros a Ha; [exact Ha |].
  cbn [foldl]. apply IH, Hf, Ha.
Qed.

Lemma windowWeights_length (s : Af) (rows cols : Z) :
  length (RegionWeights.w (windowWeights s rows cols)) = Z.to_nat (u32 (rows * cols)).
Proof.
  unfold windowWeights.
  set (P := fun wg : RegionWeights.t =>
              length (RegionWeights.w wg) = Z.to_nat (u32 (rows * cols))).
  assert (H0 : P (RegionWeights.mk rows cols 0 (replicate (Z.to_nat (u32 (rows * cols))) 0)))
    by apply length_replicate.
  destruct (_ && _); [| exact H0].
  apply (foldl_invariant P); [| exact H0].
  intros wg win Hwg. apply (foldl_invariant P); [| exact Hwg].
  intros wg' r Hwg'. unfold windowRow.
  destruct (_ <=? _); [exact Hwg' |].
  apply (foldl_invariant P); [| exact Hwg'].
  intros wg'' c Hwg''. unfold windowCell.
  destruct (_ <=? _); [exact Hwg'' |].
  unfold P, addWeight. cbn [RegionWeights.w]. rewrite length_alter. exact Hwg''.
Qed.

(** Without window metering the first part of [computeWeights] leaves a
    grid of zeros. *)
Lemma windowWeights_off (s : Af) (rows cols : Z) :
  useWindows_ s = false ->
  windowWeights s rows cols =
  RegionWeights.mk rows cols 0 (replicate (Z.to_nat (u32 (rows * cols))) 0).
Proof.
  intros Hoff. unfold windowWeights. rewrite Hoff.
  rewrite andb_false_r. reflexivity.
Qed.

(** C3, as stated, fails on a 4 x 4 grid: the cell of row 1 and column 1
    gets weight 1 although row 1 is below the ceiling of 4 / 3, and the
    sum is 4 while the window of the specification has 2 cells (6 if its
    last row and column are counted in). *)
Lemma centralWindow_counterexample :
  let s := Af_new CfgParams_default Unset_zero in
  let wg := computeWeights s 4 4 in
  RegionWeights.sum (windowWeights s 4 4) = 0 /\
  RegionWeights.w wg !! Z.to_nat (1 * 4 + 1) = Some 1 /\
  specCentralWindow 4 4 1 1 = false /\
  ~ (ceilDiv 4 3 <= 1) /\
  RegionWeights.sum wg = 4 /\
  RegionWeights.sum wg <> (4 - 4 / 3 - ceilDiv 4 3) * (4 - 4 / 4 - ceilDiv 4 4) /\
  RegionWeights.sum wg <> (4 - 4 / 3 - ceilDiv 4 3 + 1) * (4 - 4 / 4 - ceilDiv 4 4 + 1).
Proof. vm_compute. repeat split; congruence. Qed.

(** C3, amended.  When [computeWeights(rows, cols)] takes the
    central-window fallback, the cells that get weight 1 are exactly the
    cells of the rows [rows / 3 <= r < rows - rows / 3] and the columns
    [cols / 4 <= c < cols - cols / 4], with integer (floor) divisions;
    every other cell is left as it was (zero when window metering is
    off), and the sum is the number of the cells of the window,
    [(rows - 2 * (rows / 3)) * (cols - 2 * (cols / 4))]. *)
Theorem computeWeights_central_window (s : Af) (rows cols : Z) :
  0 <= rows -> 0 <= cols -> rows * cols < 2 ^ 32 ->
  RegionWeights.sum (windowWeights s rows cols) = 0 ->
  let wg := computeWeights s rows cols in
  (forall r c, 0 <= r < rows -> 0 <= c < cols ->
     RegionWeights.w wg !! Z.to_nat (r * cols + c) =
     if inCentralWindow rows cols r c then Some 1
     else RegionWeights.w (windowWeights s rows cols) !! Z.to_nat (r * cols + c)) /\
  RegionWeights.sum wg = (rows - 2 * (rows / 3)) * (cols - 2 * (cols / 4)) /\
  (useWindows_ s = false ->
   forall r c, 0 <= r < rows -> 0 <= c < cols ->
     RegionWeights.w wg !! Z.to_nat (r * cols + c) =
     Some (if inCentralWindow rows cols r c then 1 else 0)).
Proof.
  intros Hrows Hcols Hsize Hsum wg.
  assert (Hrb : rows = 0 \/ cols = 0 \/ (rows < 2 ^ 32 /\ cols < 2 ^ 32)) by nia.
  assert (Hlen : forall r c, 0 <= r < rows -> 0 <= c < cols ->
            (Z.to_nat (r * cols + c) <
             length (RegionWeights.w (windowWeights s rows cols)))%nat).
  { intros r c Hr Hc. rewrite windowWeights_length.
    pose proof (cell_index_bound rows cols r c Hr Hc).
    rewrite u32_small by lia. lia. }
  assert (Hcells : forall r c, 0 <= r < rows -> 0 <= c < cols ->
     RegionWeights.w wg !! Z.to_nat (r * cols + c) =
     if inCentralWindow rows cols r c then Some 1
     else RegionWeights.w (windowWeights s rows cols) !! Z.to_nat (r * cols + c)).
  { intros r c Hr Hc. unfold wg, computeWeights. rewrite Hsum. cbn [Z.eqb].
    rewrite centralWindow_foldl.
    destruct (foldl_setWeightOne (centralCells rows cols) (windowWeights s rows cols))
      as [_ Hw]; [rewrite Hsum; lia |].
    cbn zeta in Hw. rewrite Hw.
    destruct (lookup_lt_is_Some_2 _ _ (Hlen r c Hr Hc)) as [v Hv]. rewrite Hv.
    destruct (inCentralWindow rows cols r c) eqn:Hin.
    - rewrite bool_decide_eq_true_2; [reflexivity |].
      apply elem_of_centralCells; assumption.
    - rewrite bool_decide_eq_false_2; [reflexivity |].
      rewrite elem_of_centralCells by assumption. congruence. }
  split; [exact Hcells | split].
  - unfold wg, computeWeights. rewrite Hsum. cbn [Z.eqb].
    rewrite centralWindow_foldl.
    destruct (foldl_setWeightOne (centralCells rows cols) (windowWeights s rows cols))
      as [Hs _]; [rewrite Hsum; lia |].
    cbn zeta in Hs. rewrite Hs, Hsum, Z.add_0_l.
    destruct Hrb as [-> | [-> | [Hr Hc]]]; [reflexivity | |].
    + rewrite Z.mul_0_r. unfold centralCells.
      replace (urange (0 / 4) (u32 (0 - 0 / 4))) with (@nil Z) by reflexivity.
      induction (urange _ _) as [| r rs IH]; [reflexivity |].
      rewrite bind_cons. exact IH.
    + rewrite length_centralCells by lia.
      pose proof (Z.div_pos rows 3 ltac:(lia) ltac:(lia)).
      pose proof (Z.mul_div_le rows 3 ltac:(lia)).
      pose proof (Z.div_pos cols 4 ltac:(lia) ltac:(lia)).
      pose proof (Z.mul_div_le cols 4 ltac:(lia)).
      apply u32_small. nia.
  - intros Hoff r c Hr Hc. rewrite (Hcells r c Hr Hc).
    destruct (inCentralWindow rows cols r c); [reflexivity |].
    pose proof (Hlen r c Hr Hc) as Hl.
    rewrite windowWeights_off in * by exact Hoff. cbn [RegionWeights.w] in *.
    rewrite length_replicate in Hl.
    apply lookup_replicate_2. exact Hl.
Qed.

Lemma computeWeights_central_window_witness :
  let s := Af_new CfgParams_default Unset_zero in
  let wg := computeWeights s 4 4 in
  (forall r c, 0 <= r < 4 -> 0 <= c < 4 ->
     RegionWeights.w wg !! Z.to_nat (r * 4 + c) =
     if inCentralWindow 4 4 r c then Some 1
     else RegionWeights.w (windowWeights s 4 4) !! Z.to_nat (r * 4 + c)) /\
  RegionWeights.sum wg = (4 - 2 * (4 / 3)) * (4 - 2 * (4 / 4)) /\
  (useWindows_ s = false ->
   forall r c, 0 <= r < 4 -> 0 <= c < 4 ->
     RegionWeights.w wg !! Z.to_nat (r * 4 + c) =
     Some (if inCentralWindow 4 4 r c then 1 else 0)).
Proof.
  apply (computeWeights_central_window (Af_new CfgParams_default Unset_zero) 4 4);
    [lia | lia | reflexivity | reflexivity].
Defined.

(** ** The scan records are indexed within bounds *)

Lemma scanIndexOk_fixed (s s' : Af) : scanIndexOk s -> scanFixed s s' -> scanIndexOk s'.
Proof. unfold scanIndexOk. intros H [-> ->]. exact H. Qed.

Lemma scanIndexOk_cleared (s' : Af) : scanCleared s' -> scanIndexOk s'.
Proof. intros H. left. exact H. Qed.

Lemma scanIndexOk_either (s s' : Af) :
  scanIndexOk s -> scanFixed s s' \/ scanCleared s' -> scanIndexOk s'.
Proof.
  intros H [Hf | Hc]; [eapply scanIndexOk_fixed; eassumption | apply scanIndexOk_cleared, Hc].
Qed.

Lemma scanFixed_trans (s1 s2 s3 : Af) : scanFixed s1 s2 -> scanFixed s2 s3 -> scanFixed s1 s3.
Proof. unfold scanFixed. intros [H1 H2] [H3 H4]. split; congruence. Qed.

Lemma updateLensPosition_scan (s : Af) : scanFixed s (updateLensPosition s).
Proof. unfold updateLensPosition. repeat break_if; split; reflexivity. Qed.

Lemma invalidateWeights_scan (s : Af) : scanFixed s (invalidateWeights s).
Proof. split; reflexivity. Qed.

Lemma startProgrammedScan_scan (s : Af) : scanCleared (startProgrammedScan s).
Proof. reflexivity. Qed.

Lemma startAF_scan (s : Af) : scanCleared (startAF s).
Proof. unfold startAF. repeat break_if; reflexivity. Qed.

Lemma goIdle_scan (s : Af) : scanCleared (goIdle s).
Proof. reflexivity. Qed.

Lemma doPDAF_scan (ph cf : double) (s : Af) : scanFixed s (doPDAF ph cf s).
Proof. unfold doPDAF. repeat break_if; split; reflexivity. Qed.

Lemma pdafStep_scan (ph cf : double) (s : Af) :
  scanFixed s (pdafStep ph cf s) \/ scanCleared (pdafStep ph cf s).
Proof.
  unfold pdafStep. destruct (dlt _ cf).
  - left. apply scanFixed_trans with (s2 := doPDAF ph cf s); [apply doPDAF_scan |].
    repeat break_if; split; reflexivity.
  - cbv zeta. break_if; scan_done.
Qed.

Lemma sceneMonitor_scan (s s' : Af) :
  sceneMonitor s = Some s' -> scanFixed s s' \/ scanCleared s'.
Proof.
  unfold sceneMonitor.
  destruct (imageMetadata_ s) as [md |]; [| discriminate].
  destruct (stats_ s) as [st |]; [| discriminate].
  cbn [mbind option_bind]. intros [= <-].
  repeat break_if; scan_done.
Qed.

Lemma settle_scan (s : Af) : scanCleared (settle s).
Proof. reflexivity. Qed.

Lemma earlyTerminationByPhase_scan (ph : double) (s : Af) :
  scanFixed s (earlyTerminationByPhase ph s).1.
Proof. unfold earlyTerminationByPhase. repeat break_if; split; reflexivity. Qed.

(** [findPeak(i)] reads record [i], and its neighbours only under the
    guard [i > 0 && i + 1 < scanData_.size()]: it faults exactly when
    [i] itself is out of bounds. *)
Lemma findPeak_in_bounds (i : nat) (s : Af) :
  is_Some (findPeak i s) <-> (i < length (scanData_ s))%nat.
Proof.
  unfold findPeak. split.
  - intros [f Hf]. apply lookup_lt_is_Some.
    destruct (scanData_ s !! i); [eauto | discriminate].
  - intros Hi. destruct (lookup_lt_is_Some_2 _ _ Hi) as [ri ->].
    cbn [mbind option_bind].
    destruct ((0 <? i)%nat && (i + 1 <? length (scanData_ s))%nat) eqn:Hguard; [| eauto].
    apply andb_true_iff in Hguard as [Hpos Hnext].
    apply Nat.ltb_lt in Hpos, Hnext.
    destruct (lookup_lt_is_Some_2 (scanData_ s) (i - 1)%nat) as [rlo ->]; [lia |].
    destruct (lookup_lt_is_Some_2 (scanData_ s) (i + 1)%nat) as [rhi ->]; [lia |].
    cbn [mbind option_bind]. repeat break_if; eauto.
Qed.

(** After the current step is recorded, [scanMaxIndex_] is the index of
    a record. *)
Lemma recordScan_index (c p cf : double) (s : Af) :
  scanIndexOk s ->
  (scanMaxIndex_ (recordScan c p cf s) < length (scanData_ (recordScan c p cf s)))%nat.
Proof.
  intros Hok. unfold recordScan.
  destruct (isEmpty (scanData_ s) || dlt (scanMaxContrast_ s) c) eqn:Hnew.
  - destruct (dlt c _); af_simpl; rewrite length_app; cbn [length]; lia.
  - assert (Hlt : (scanMaxIndex_ s < length (scanData_ s))%nat).
    { destruct Hok as [Hnil | Hlt]; [| exact Hlt].
      rewrite Hnil in Hnew. discriminate. }
    destruct (dlt c _); af_simpl; rewrite length_app; cbn [length]; lia.
Qed.

Lemma doScan_scan (c p cf : double) (s : Af) :
  scanIndexOk s -> exists s', doScan c p cf s = Some s' /\ scanIndexOk s'.
Proof.
  intros Hok. unfold doScan.
  pose proof (recordScan_index c p cf s Hok) as Hidx.
  set (s1 := recordScan c p cf s) in *. clearbody s1.
  destruct (proj2 (findPeak_in_bounds (scanMaxIndex_ s1) s1) Hidx) as [pk Hpk].
  cbv zeta. rewrite Hpk.
  destruct (decide (scanState_ s1 = ScanState.Coarse)); destruct (_ || _);
    cbn [mbind option_bind]; eexists; (split; [reflexivity |]);
    first [left; reflexivity | right; exact Hidx].
Qed.

Lemma doAF_scan (c p cf : double) (s s' : Af) :
  scanIndexOk s -> doAF c p cf s = Some s' -> scanIndexOk s'.
Proof.
  intros Hok. unfold doAF.
  destruct (0 <? skipCount_ s); [intros [= <-]; exact Hok |].
  destruct (_ && bool_decide (scanState_ s = ScanState.Idle)).
  { intros H. eapply scanIndexOk_either; [exact Hok | eapply sceneMonitor_scan, H]. }
  destruct (decide (scanState_ s = ScanState.Pdaf)).
  { intros [= <-]. eapply scanIndexOk_either; [exact Hok | apply pdafStep_scan]. }
  destruct (_ && deq _ _); [| intros [= <-]; exact Hok].
  destruct (0 <? stepCount_ s); [intros [= <-]; exact Hok |].
  destruct (decide (scanState_ s = ScanState.Settle)); [intros [= <-]; left; reflexivity |].
  assert (HdoScan : forall s1, scanIndexOk s1 -> doScan c p cf s1 = Some s' -> scanIndexOk s').
  { intros s1 H1 H. destruct (doScan_scan c p cf s1 H1) as (s2 & H2 & Hok2). congruence. }
  destruct (dle _ cf); [| apply HdoScan, Hok].
  pose proof (earlyTerminationByPhase_scan p s) as Het.
  destruct (earlyTerminationByPhase p s) as [s1 ok]. cbn [fst] in Het.
  pose proof (scanIndexOk_fixed _ _ Hok Het) as Hok1.
  destruct ok; [intros [= <-]; exact Hok1 | apply HdoScan, Hok1].
Qed.

Lemma getPhase_scan (regions : PdafRegions) (s s' : Af) (ok : bool) (ph cf : double) :
  getPhase regions s = Some (s', ok, ph, cf) -> scanFixed s s'.
Proof.
  unfold getPhase.
  set (s1 := if staleWeights _ _ then _ else s).
  assert (H1 : scanFixed s s1) by (unfold s1; destruct (staleWeights _ _); split; reflexivity).
  destruct (phaseLoop _ _ _ _ _ _) as [[sumWc sumWcp] |]; [| discriminate].
  cbn [mbind option_bind]. destruct (_ && _); intros [= <- _ _ _]; exact H1.
Qed.

Lemma getContrast_scan (focusStats : FocusRegions) (s s' : Af) (c : double) :
  getContrast focusStats s = Some (s', c) -> scanFixed s s'.
Proof.
  unfold getContrast.
  set (s1 := if staleWeights _ _ then _ else s).
  assert (H1 : scanFixed s s1) by (unfold s1; destruct (staleWeights _ _); split; reflexivity).
  destruct (contrastLoop _ _ _ _ _) as [sumWc |]; [| discriminate].
  cbn [mbind option_bind]. intros [= <- _]. exact H1.
Qed.

Lemma prepare_scan (md md' : Metadata) (s s' : Af) :
  scanIndexOk s -> prepare md s = Some (s', md') -> scanIndexOk s'.
Proof.
  intros Hok. unfold prepare.
  set (s0 := if decide (scanState_ s = ScanState.Trigger) then startAF s else s).
  assert (Hok0 : scanIndexOk s0).
  { unfold s0. destruct (decide _); [left; apply startAF_scan | exact Hok]. }
  clearbody s0.
  destruct (initted_ s0); [| cbn [mbind option_bind]; intros [= <- _]; exact Hok0].
  set (sm := s0 <| imageMetadata_ := Some md |>).
  assert (Hokm : scanIndexOk sm) by exact Hok0.
  clearbody sm.
  destruct (pdaf_regions md) as [regions |]; cbn [mbind option_bind].
  - destruct (getPhase regions sm) as [[[[s1 ok] ph] cf] |] eqn:Hget; [| discriminate].
    cbn [mbind option_bind].
    apply getPhase_scan in Hget.
    destruct (doAF _ ph cf _) as [s2 |] eqn:HdoAF; [| discriminate].
    cbn [mbind option_bind]. intros [= <- _].
    apply doAF_scan in HdoAF;
      [| eapply scanIndexOk_fixed; [exact Hokm |];
         eapply scanFixed_trans; [exact Hget | split; reflexivity]].
    eapply scanIndexOk_fixed; [exact HdoAF | apply updateLensPosition_scan].
  - destruct (doAF _ 0 0 sm) as [s2 |] eqn:HdoAF; [| discriminate].
    cbn [mbind option_bind]. intros [= <- _].
    apply doAF_scan in HdoAF; [| exact Hokm].
    eapply scanIndexOk_fixed; [exact HdoAF | apply updateLensPosition_scan].
Qed.

Lemma step_scan (s s' : Af) : step s s' -> scanIndexOk s -> scanIndexOk s'.
Proof.
  intros Hstep Hok. destruct Hstep.
  - unfold switchMode. eapply scanIndexOk_either; [exact Hok |].
    repeat break_if; scan_done.
  - eapply prepare_scan; eassumption.
  - unfold process in H.
    destruct (getContrast _ s) as [[s1 c] |] eqn:Hc; [| discriminate].
    cbn [mbind option_bind] in H. injection H as <-.
    eapply scanIndexOk_fixed; [exact Hok |].
    eapply scanFixed_trans; [eapply getContrast_scan; exact Hc | split; reflexivity].
  - unfold setRange. break_if; exact Hok.
  - unfold setSpeed. repeat break_if; exact Hok.
  - unfold setMetering. break_if; exact Hok.
  - unfold setWindows. cbv zeta. break_if; exact Hok.
  - unfold setLensPosition. destruct (decide _); cbn [fst]; [| exact Hok].
    eapply scanIndexOk_fixed; [exact Hok |].
    eapply scanFixed_trans; [| apply updateLensPosition_scan]. split; reflexivity.
  - unfold cancelScan. break_if; [left; reflexivity | exact Hok].
  - unfold triggerScan. break_if; exact Hok.
  - unfold setMode. eapply scanIndexOk_either; [exact Hok |].
    repeat break_if; scan_done.
  - unfold pause. eapply scanIndexOk_either; [exact Hok |].
    repeat break_if; scan_done.
Qed.

Lemma reachable_scan (cfg : CfgParams) (s : Af) : reachable cfg s -> scanIndexOk s.
Proof.
  induction 1 as [u | s s' _ IH Hstep]; [left; reflexivity |].
  eapply step_scan; eassumption.
Qed.

(** C9.  In every reachable state, when [doScan] calls
    [findPeak(scanMaxIndex_)] (after it has recorded the current step),
    [scanMaxIndex_] is below [scanData_.size()], so that [findPeak] and
    [doScan] complete without an access out of bounds; [findPeak(i)]
    reads the neighbours [i - 1] and [i + 1] only under its guard and
    faults exactly when [i] itself is out of bounds. *)
Theorem doScan_findPeak_in_bounds (cfg : CfgParams) (s : Af) (c p cf : double) :
  reachable cfg s ->
  let s1 := recordScan c p cf s in
  (scanMaxIndex_ s1 < length (scanData_ s1))%nat /\
  is_Some (findPeak (scanMaxIndex_ s1) s1) /\
  is_Some (doScan c p cf s) /\
  (forall i s0, is_Some (findPeak i s0) <-> (i < length (scanData_ s0))%nat).
Proof.
  intros Hreach s1. pose proof (reachable_scan cfg s Hreach) as Hok.
  pose proof (recordScan_index c p cf s Hok) as Hidx.
  split; [exact Hidx | split; [| split]].
  - apply findPeak_in_bounds, Hidx.
  - destruct (doScan_scan c p cf s Hok) as (s' & Hs' & _). rewrite Hs'. eauto.
  - intros i s0. apply findPeak_in_bounds.
Qed.

Lemma doScan_findPeak_in_bounds_witness :
  let s := setMode AfModeContinuous (Af_new CfgParams_default Unset_zero) in
  let s1 := recordScan 50 0 0 s in
  (scanMaxIndex_ s1 < length (scanData_ s1))%nat /\
  is_Some (findPeak (scanMaxIndex_ s1) s1) /\
  is_Some (doScan 50 0 0 s) /\
  (forall i s0, is_Some (findPeak i s0) <-> (i < length (scanData_ s0))%nat).
Proof.
  apply (doScan_findPeak_in_bounds CfgParams_default
           (setMode AfModeContinuous (Af_new CfgParams_default Unset_zero)) 50 0 0).
  apply (reachable_step _ (Af_new CfgParams_default Unset_zero));
    [apply reachable_new | apply step_setMode].
Defined.

(** ** Phase fusion *)

Lemma u32_add_r (a b : Z) : u32 (a + u32 b) = u32 (a + b).
Proof. unfold u32. apply Zplus_mod_idemp_r. Qed.

Lemma u32_mul_r (a b : Z) : u32 (a * u32 b) = u32 (a * b).
Proof. unfold u32. apply Zmult_mod_idemp_r. Qed.

Lemma u32_sub_l (a b : Z) : u32 (u32 a - b) = u32 (a - b).
Proof. unfold u32. apply Zminus_mod_idemp_l. Qed.

Lemma s64_add (a b : Z) : s64 (s64 a + s64 b) = s64 (a + b).
Proof.
  unfold s64. f_equal.
  rewrite (Z.mod_eq (a + 2 ^ 63) (2 ^ 64)), (Z.mod_eq (b + 2 ^ 63) (2 ^ 64)) by lia.
  replace (a + 2 ^ 63 - 2 ^ 64 * ((a + 2 ^ 63) / 2 ^ 64) - 2 ^ 63 +
           (b + 2 ^ 63 - 2 ^ 64 * ((b + 2 ^ 63) / 2 ^ 64) - 2 ^ 63) + 2 ^ 63)
    with (a + b + 2 ^ 63 + (- ((a + 2 ^ 63) / 2 ^ 64) - (b + 2 ^ 63) / 2 ^ 64) * 2 ^ 64)
    by ring.
  apply Z_mod_plus_full.
Qed.

Lemma s64_small (z : Z) : - 2 ^ 63 <= z < 2 ^ 63 -> s64 z = z.
Proof. intros H. unfold s64. rewrite Z.mod_small; lia. Qed.

(** One iteration of the loop adds the terms of its region. *)
Lemma phaseCell_terms (cfg : CfgParams) (w : Z) (d : PdafData) (a b : Z) :
  (if w =? 0 then (u32 a, s64 b) else phaseCell cfg w d (u32 a, s64 b)) =
  (u32 (a + termWc cfg (w, d)), s64 (b + termWcp cfg (w, d))).
Proof.
  unfold termWc, termWcp, counts, phaseCell. cbn [fst snd].
  destruct (w =? 0); cbn [negb andb].
  - rewrite !Z.add_0_r. reflexivity.
  - destruct (confThresh cfg <=? conf d); [| rewrite !Z.add_0_r; reflexivity].
    assert (Hmin : (if confClip cfg <? conf d then confClip cfg else conf d) =
                   Z.min (conf d) (confClip cfg)).
    { destruct (Z.ltb_spec (confClip cfg) (conf d)); lia. }
    rewrite Hmin, !Z.shiftr_div_pow2 by lia. change (2 ^ 2) with 4.
    unfold c2, c1. f_equal.
    + rewrite u32_mul_r, u32_add_l, u32_add_r. reflexivity.
    + rewrite u32_sub_l, u32_mul_r.
      rewrite <- (s64_add b). reflexivity.
Qed.

(** On a grid with as many weights as regions the loop of [getPhase]
    reads within bounds and computes the two sums, reduced to the types
    of the accumulators. *)
Lemma phaseLoop_sums (cfg : CfgParams) (W : list Z) (regions : PdafRegions) (n i : nat) (a b : Z) :
  (i + n)%nat = length W ->
  (i + n)%nat = RegionStats.numRegions regions ->
  phaseLoop cfg W regions i n (u32 a, s64 b) =
  Some (u32 (a + specSumWc cfg (drop i W) (RegionStats.val <$> drop i (RegionStats.regions regions))),
        s64 (b + specSumWcp cfg (drop i W) (RegionStats.val <$> drop i (RegionStats.regions regions)))).
Proof.
  unfold RegionStats.numRegions, RegionStats.get.
  revert i a b. induction n as [| n IH]; intros i a b HW HR.
  - cbn [phaseLoop]. rewrite !drop_ge by lia.
    unfold specSumWc, specSumWcp. cbn. rewrite !Z.add_0_r. reflexivity.
  - cbn [phaseLoop].
    destruct (lookup_lt_is_Some_2 W i) as [w Hw]; [lia |].
    destruct (lookup_lt_is_Some_2 (RegionStats.regions regions) i) as [r Hr]; [lia |].
    unfold RegionStats.get. rewrite Hw, Hr. cbn [mbind option_bind].
    rewrite (drop_S _ _ _ Hw), (drop_S _ _ _ Hr).
    assert (Hstep : (if w =? 0 then Some (u32 a, s64 b)
                     else Some (phaseCell cfg w (RegionStats.val r) (u32 a, s64 b))) =
                    Some (u32 (a + termWc cfg (w, RegionStats.val r)),
                          s64 (b + termWcp cfg (w, RegionStats.val r)))).
    { rewrite <- phaseCell_terms. destruct (w =? 0); reflexivity. }
    rewrite Hstep. cbn [mbind option_bind].
    rewrite IH by lia.
    unfold specSumWc, specSumWcp. rewrite fmap_cons. cbn [zip zip_with fmap list_fmap sumZ foldr].
    rewrite !Z.add_assoc. reflexivity.
Qed.

Lemma windowWeights_dims (s : Af) (rows cols : Z) :
  RegionWeights.rows (windowWeights s rows cols) = rows /\
  RegionWeights.cols (windowWeights s rows cols) = cols.
Proof.
  unfold windowWeights.
  set (P := fun wg : RegionWeights.t =>
              RegionWeights.rows wg = rows /\ RegionWeights.cols wg = cols).
  assert (H0 : P (RegionWeights.mk rows cols 0 (replicate (Z.to_nat (u32 (rows * cols))) 0)))
    by (split; reflexivity).
  destruct (_ && _); [| exact H0].
  apply (foldl_invariant P); [| exact H0].
  intros wg win Hwg. apply (foldl_invariant P); [| exact Hwg].
  intros wg' r Hwg'. unfold windowRow.
  destruct (_ <=? _); [exact Hwg' |].
  apply (foldl_invariant P); [| exact Hwg'].
  intros wg'' c Hwg''. unfold windowCell.
  destruct (_ <=? _); exact Hwg''.
Qed.

Lemma computeWeights_wf (s : Af) (rows cols : Z) :
  RegionWeights.rows (computeWeights s rows cols) = rows /\
  RegionWeights.cols (computeWeights s rows cols) = cols /\
  wfWeights (computeWeights s rows cols).
Proof.
  set (P := fun wg : RegionWeights.t =>
              RegionWeights.rows wg = rows /\ RegionWeights.cols wg = cols /\
              length (RegionWeights.w wg) = Z.to_nat (u32 (rows * cols))).
  assert (H0 : P (windowWeights s rows cols)).
  { destruct (windowWeights_dims s rows cols) as [Hr Hc].
    split; [exact Hr | split; [exact Hc | apply windowWeights_length]]. }
  assert (H1 : P (computeWeights s rows cols)).
  { unfold computeWeights. destruct (_ =? 0); [| exact H0].
    rewrite centralWindow_foldl. apply (foldl_invariant P); [| exact H0].
    intros wg i (Hr & Hc & Hl). unfold P, setWeightOne. cbn.
    rewrite length_insert. auto. }
  destruct H1 as (Hr & Hc & Hl). unfold wfWeights. rewrite Hr, Hc. auto.
Qed.

Lemma specSumWcp_plain (cfg : CfgParams) (l : list (Z * PdafData)) :
  Forall (fun wd => counts cfg wd.1 wd.2 = true -> 0 <= wd.1 * c2 cfg (conf wd.2) < 2 ^ 32) l ->
  sumZ (termWcp cfg <$> l) = sumZ (plainTermWcp cfg <$> l).
Proof.
  induction 1 as [| wd l Hwd _ IH]; [reflexivity |].
  rewrite !fmap_cons. cbn [sumZ foldr]. fold (sumZ (termWcp cfg <$> l)).
  fold (sumZ (plainTermWcp cfg <$> l)). rewrite IH. f_equal.
  unfold termWcp, plainTermWcp. destruct (counts cfg wd.1 wd.2); [| reflexivity].
  rewrite u32_small by (apply Hwd; reflexivity). reflexivity.
Qed.

(** C4, as stated, fails when a product [w * c2] is negative: the source
    computes it as an [unsigned].  With [confClip = 5] below half of
    [confThresh = 16], a region of weight 1, confidence 20 and phase -2
    has [c1 = 1] and [c2 = -3]; the source adds [4294967293 * -2] to
    [sumWcp] and returns the phase -8589934586, where the sum of the
    specification is [1 * -3 * -2] and its phase is 6. *)
Lemma getPhase_unsigned_counterexample :
  let s := Af_new lowClip Unset_zero in
  let W := RegionWeights.w (computeWeights s 1 1) in
  let cells := RegionStats.val <$> RegionStats.regions negativePdaf in
  W = [1] /\ c1 lowClip 20 = 1 /\ c2 lowClip 20 = -3 /\
  specSumWc lowClip W cells = 1 /\ plainSumWcp lowClip W cells = 6 /\
  exists s' ph cf,
    getPhase negativePdaf s = Some (s', true, ph, cf) /\
    (ph == -8589934586)%Q /\ (cf == 1)%Q /\
    ~ (ph == of_int (plainSumWcp lowClip W cells) / of_int (specSumWc lowClip W cells))%Q.
Proof.
  vm_compute. repeat split; try congruence.
  eexists _, _, _. repeat split; congruence.
Qed.

(** C4, amended.  On a grid of [height * width] regions, [getPhase]
    accumulates, over the regions with a non-zero weight [w] and [conf
    >= confThresh], [w * c1] in the 32-bit unsigned [sumWc] and, with
    the product [w * c2] an [unsigned], [(w * c2) * phase] in the 64-bit
    signed [sumWcp], where [c1 = min(conf, confClip) - confThresh / 4]
    and [c2 = c1 - confThresh / 4].  It returns true if and only if [0 <
    gridSum <= sumWc], with [phase = sumWcp / sumWc] and [conf = sumWc /
    gridSum]; otherwise it returns false with [phase = 0] and [conf =
    0].  When no product [w * c2] and neither sum leaves the range of
    its type, [sumWc] and [sumWcp] are the plain sums of [w * c1] and of
    [w * c2 * phase] of the specification.  The weights are those of
    the state, recomputed first when they are stale. *)
Theorem getPhase_spec (regions : PdafRegions) (s : Af) :
  wfGrid regions ->
  wfWeights (phaseWeights_ s) ->
  let size := RegionStats.size regions in
  let s' := if staleWeights size (phaseWeights_ s)
            then s <| phaseWeights_ := computeWeights s (Size.height size) (Size.width size) |>
            else s in
  let W := RegionWeights.w (phaseWeights_ s') in
  let gridSum := RegionWeights.sum (phaseWeights_ s') in
  let cells := RegionStats.val <$> RegionStats.regions regions in
  let sumWc := u32 (specSumWc (cfg_ s) W cells) in
  let sumWcp := s64 (specSumWcp (cfg_ s) W cells) in
  (0 < gridSum <= sumWc ->
   getPhase regions s =
   Some (s', true, (of_int sumWcp / of_int sumWc)%Q, (of_int sumWc / of_int gridSum)%Q)) /\
  (~ (0 < gridSum <= sumWc) ->
   getPhase regions s = Some (s', false, 0%Q, 0%Q)) /\
  (noWrap (cfg_ s) W cells ->
   sumWc = specSumWc (cfg_ s) W cells /\ sumWcp = plainSumWcp (cfg_ s) W cells).
Proof.
  intros (Hh & Hw & Hsize & Hnum) Hwf size s' W gridSum cells sumWc sumWcp.
  subst size.
  assert (Hplain : noWrap (cfg_ s) W cells ->
            sumWc = specSumWc (cfg_ s) W cells /\ sumWcp = plainSumWcp (cfg_ s) W cells).
  { intros (Hprod & Hc & Hcp). unfold sumWc, sumWcp, specSumWcp.
    rewrite (specSumWcp_plain _ _ Hprod). fold (plainSumWcp (cfg_ s) W cells).
    split; [apply u32_small | apply s64_small]; assumption. }
  assert (Hcfg : cfg_ s' = cfg_ s) by (unfold s'; destruct (staleWeights _ _); reflexivity).
  assert (HlenW : length W = RegionStats.numRegions regions).
  { rewrite Hnum. unfold W, s'.
    rewrite <- (u32_small (Size.height _ * Size.width _)) by nia.
    destruct (staleWeights _ (phaseWeights_ s)) eqn:Hstale.
    - af_simpl.
      destruct (computeWeights_wf s (Size.height (RegionStats.size regions))
                  (Size.width (RegionStats.size regions))) as (Hr & Hc & Hl).
      unfold wfWeights in Hl. rewrite Hr, Hc in Hl. exact Hl.
    - unfold staleWeights in Hstale.
      apply orb_false_iff in Hstale as [Hstale _].
      apply orb_false_iff in Hstale as [Hrows Hcols].
      apply negb_false_iff, Z.eqb_eq in Hrows, Hcols.
      rewrite Hrows, Hcols. exact Hwf. }
  assert (Hloop : phaseLoop (cfg_ s') W regions 0 (RegionStats.numRegions regions) (0, 0) =
                  Some (sumWc, sumWcp)).
  { change (0, 0) with (u32 0, s64 0).
    rewrite phaseLoop_sums by (cbn; lia).
    rewrite !drop_0, !Z.add_0_l, Hcfg. reflexivity. }
  unfold getPhase. cbv zeta. fold s'. fold W. rewrite Hloop. cbn [mbind option_bind].
  fold gridSum.
  destruct (Z.ltb_spec 0 gridSum), (Z.leb_spec gridSum sumWc); cbn [andb];
    (split; [| split; [| exact Hplain]]); intros Hvalid;
    first [reflexivity | lia | exfalso; apply Hvalid; lia].
Qed.

(** When no product leaves the range of [unsigned], the terms of
    [sumWcp] are the plain products [w * c2 * phase]. *)
Lemma termWcp_exact (cfg : CfgParams) (w : Z) (d : PdafData) :
  0 <= w * c2 cfg (conf d) < 2 ^ 32 ->
  termWcp cfg (w, d) = if counts cfg w d then w * c2 cfg (conf d) * phase d else 0.
Proof. intros H. unfold termWcp. cbn [fst snd]. rewrite u32_small by exact H. reflexivity. Qed.

Lemma getPhase_spec_witness :
  getPhase uniformPdaf (Af_new CfgParams_default Unset_zero) =
  Some ((Af_new CfgParams_default Unset_zero)
          <| phaseWeights_ := computeWeights (Af_new CfgParams_default Unset_zero) 2 2 |>,
        true, (of_int (s64 1840) / of_int (u32 384))%Q, (of_int (u32 384) / of_int 4)%Q).
Proof.
  apply (proj1 (getPhase_spec uniformPdaf (Af_new CfgParams_default Unset_zero)
                  ltac:(vm_compute; repeat split; congruence) eq_refl)).
  vm_compute. split; congruence.
Defined.

(** ** The scenarios of the specification *)

(** S1: in manual mode with the default map, [setLensPosition(5.0)] moves
    the lens to 5 dioptres, hardware position 605. *)
Example manual_set_and_read :
  let '(s, changed, hwpos) := setLensPosition 5 (Af_new CfgParams_default Unset_zero) in
  changed = true /\ hwpos = 605 /\ (fsmooth_ s == 5)%Q /\ reportState_ s = AfState.Idle.
Proof. vm_compute. repeat split; congruence. Qed.

(** S6: on a 4 x 4 grid every cell gets the weight 46080 / (10 * 16). *)
Example window_projection :
  computeWeights fullWindow 4 4 = RegionWeights.mk 4 4 4608 (replicate 16 288).
Proof. vm_compute. reflexivity. Qed.

(** S3: a triggered scan on a contrast curve with its peak at 3 dioptres
    goes through the coarse and the fine scan, settles on the peak and
    reports [Focused]. *)
Example programmed_scan_peak :
  let s0 := triggerScan (setMode AfModeAuto (Af_new CfgParams_default Unset_zero)) in
  (s ← scanFrames 40 s0; Some (scanState_ s, Qred (fsmooth_ s))) =
    Some (ScanState.Coarse, 5%Q) /\
  (s ← scanFrames 60 s0; Some (scanState_ s, Qred (fsmooth_ s))) =
    Some (ScanState.Fine, 3%Q) /\
  (s ← scanFrames 75 s0; Some (scanState_ s, Qred (fsmooth_ s))) =
    Some (ScanState.Settle, 3%Q) /\
  (s ← scanFrames 80 s0; Some (scanState_ s, reportState_ s, Qred (fsmooth_ s))) =
    Some (ScanState.Idle, AfState.Focused, 3%Q).
Proof. vm_compute. repeat split; reflexivity. Qed.

(** S2: in continuous mode the first correction for a phase of 50 with
    confidence 100 is [-0.02 * 50 * 100 / 108]. *)
Example continuous_first_step :
  let s := (Af_new CfgParams_default Unset_zero)
             <| mode_ := AfModeContinuous |> <| scanState_ := ScanState.Pdaf |>
             <| initted_ := true |> <| ftarget_ := 1%Q |> <| fsmooth_ := 1%Q |> in
  (ftarget_ (doPDAF 50 100 s) == fsmooth_ s - (2 # 100) * 50 * (100 # 108))%Q /\
  reportState_ (doPDAF 50 100 s) = AfState.Focused.
Proof. vm_compute. split; reflexivity. Qed.

(** S4: in a triggered scan, [dropoutFrames] frames without a usable
    phase send the algorithm to the coarse scan, on the sixth frame and
    not before. *)
Example dropout_fallback :
  let s0 := triggerScan (setMode AfModeAuto
              (setLensPosition 1 (Af_new CfgParams_default Unset_zero)).1.1) in
  (s ← frames 10 noMetadata s0; Some (scanState_ s, dropCount_ s)) =
    Some (ScanState.Pdaf, 5) /\
  (s ← frames 11 noMetadata s0; Some (scanState_ s, dropCount_ s)) =
    Some (ScanState.Coarse, 6).
Proof. vm_compute. split; reflexivity. Qed.

(** ** The weight grids keep their shape *)

Lemma weightsOk_fixed (s s' : Af) : weightsOk s -> weightsFixed s s' -> weightsOk s'.
Proof. unfold weightsOk. intros H [-> ->]. exact H. Qed.

Lemma weightsFixed_trans (s1 s2 s3 : Af) :
  weightsFixed s1 s2 -> weightsFixed s2 s3 -> weightsFixed s1 s3.
Proof. unfold weightsFixed. intros [H1 H2] [H3 H4]. split; congruence. Qed.

Lemma updateLensPosition_weights (s : Af) : weightsFixed s (updateLensPosition s).
Proof. unfold updateLensPosition. repeat break_if; split; reflexivity. Qed.

Lemma startProgrammedScan_weights (s : Af) : weightsFixed s (startProgrammedScan s).
Proof.
  unfold startProgrammedScan.
  apply weightsFixed_trans with
    (s2 := updateLensPosition (s <| ftarget_ := focusMin (rangeParams s) |>));
    [| split; reflexivity].
  apply weightsFixed_trans with (s2 := s <| ftarget_ := focusMin (rangeParams s) |>);
    [split; reflexivity | apply updateLensPosition_weights].
Qed.

Lemma startAF_weights (s : Af) : weightsFixed s (startAF s).
Proof.
  unfold startAF. destruct (_ && _); [| apply startProgrammedScan_weights].
  destruct (initted_ s); [split; reflexivity |].
  eapply weightsFixed_trans; [| split; reflexivity].
  eapply weightsFixed_trans; [| apply updateLensPosition_weights].
  split; reflexivity.
Qed.

Lemma doPDAF_weights (ph cf : double) (s : Af) : weightsFixed s (doPDAF ph cf s).
Proof. unfold doPDAF. repeat break_if; split; reflexivity. Qed.

Lemma pdafStep_weights (ph cf : double) (s : Af) : weightsFixed s (pdafStep ph cf s).
Proof.
  unfold pdafStep. destruct (dlt _ cf).
  - apply weightsFixed_trans with (s2 := doPDAF ph cf s); [apply doPDAF_weights |].
    repeat break_if; split; reflexivity.
  - cbv zeta. break_if; [| split; reflexivity].
    eapply weightsFixed_trans; [| apply startProgrammedScan_weights]. split; reflexivity.
Qed.

Lemma sceneMonitor_weights (s s' : Af) : sceneMonitor s = Some s' -> weightsFixed s s'.
Proof.
  unfold sceneMonitor.
  destruct (imageMetadata_ s) as [md |]; [| discriminate].
  destruct (stats_ s) as [st |]; [| discriminate].
  cbn [mbind option_bind]. intros [= <-].
  match goal with
  | |- weightsFixed s (?X <| _ := _ |> <| _ := _ |>) =>
      apply weightsFixed_trans with (s2 := X); [| split; reflexivity]
  end.
  repeat break_if;
    match goal with
    | |- weightsFixed _ (startProgrammedScan ?x) =>
        apply weightsFixed_trans with (s2 := x);
          [split; reflexivity | apply startProgrammedScan_weights]
    | |- _ => split; reflexivity
    end.
Qed.

Lemma doScan_weights (c p cf : double) (s s' : Af) :
  doScan c p cf s = Some s' -> weightsFixed s s'.
Proof.
  unfold doScan.
  assert (Hrec : weightsFixed s (recordScan c p cf s))
    by (unfold recordScan; repeat break_if; split; reflexivity).
  set (s1 := recordScan c p cf s) in *. clearbody s1.
  cbv zeta.
  destruct (decide (scanState_ s1 = ScanState.Coarse));
    destruct (_ || _); try destruct (findPeak _ s1);
    cbn [mbind option_bind]; intros H; try discriminate; injection H as <-;
    (eapply weightsFixed_trans; [exact Hrec | split; reflexivity]).
Qed.

Lemma doAF_weights (c p cf : double) (s s' : Af) :
  doAF c p cf s = Some s' -> weightsFixed s s'.
Proof.
  unfold doAF.
  destruct (0 <? skipCount_ s); [intros [= <-]; split; reflexivity |].
  destruct (_ && bool_decide (scanState_ s = ScanState.Idle));
    [apply sceneMonitor_weights |].
  destruct (decide (scanState_ s = ScanState.Pdaf));
    [intros [= <-]; apply pdafStep_weights |].
  destruct (_ && deq _ _); [| intros [= <-]; split; reflexivity].
  destruct (0 <? stepCount_ s); [intros [= <-]; split; reflexivity |].
  destruct (decide (scanState_ s = ScanState.Settle)).
  { intros [= <-]. unfold settle. repeat break_if; split; reflexivity. }
  destruct (dle _ cf); [| apply doScan_weights].
  assert (Het : weightsFixed s (earlyTerminationByPhase p s).1)
    by (unfold earlyTerminationByPhase; repeat break_if; split; reflexivity).
  destruct (earlyTerminationByPhase p s) as [s1 ok]. cbn [fst] in Het.
  destruct ok.
  - intros [= <-]. eapply weightsFixed_trans; [exact Het | split; reflexivity].
  - intros H. eapply weightsFixed_trans; [exact Het | eapply doScan_weights, H].
Qed.

Lemma invalidateWeights_ok (s : Af) : weightsOk s -> weightsOk (invalidateWeights s).
Proof. intros [Hp Hc]. split; [exact Hp | exact Hc]. Qed.

Lemma getPhase_weights (regions : PdafRegions) (s s' : Af) (ok : bool) (ph cf : double) :
  weightsOk s -> getPhase regions s = Some (s', ok, ph, cf) -> weightsOk s'.
Proof.
  intros Hok. unfold getPhase.
  set (s1 := if staleWeights _ _ then _ else s).
  assert (H1 : weightsOk s1).
  { unfold s1. destruct (staleWeights _ _); [| exact Hok].
    split; [apply computeWeights_wf | apply Hok]. }
  destruct (phaseLoop _ _ _ _ _ _) as [[sumWc sumWcp] |]; [| discriminate].
  cbn [mbind option_bind]. destruct (_ && _); intros [= <- _ _ _]; exact H1.
Qed.

Lemma getContrast_weights (focusStats : FocusRegions) (s s' : Af) (c : double) :
  weightsOk s -> getContrast focusStats s = Some (s', c) -> weightsOk s'.
Proof.
  intros Hok. unfold getContrast.
  set (s1 := if staleWeights _ _ then _ else s).
  assert (H1 : weightsOk s1).
  { unfold s1. destruct (staleWeights _ _); [| exact Hok].
    split; [apply Hok | apply computeWeights_wf]. }
  destruct (contrastLoop _ _ _ _ _) as [sumWc |]; [| discriminate].
  cbn [mbind option_bind]. intros [= <- _]. exact H1.
Qed.

Lemma prepare_weights (md md' : Metadata) (s s' : Af) :
  weightsOk s -> prepare md s = Some (s', md') -> weightsOk s'.
Proof.
  intros Hok. unfold prepare.
  set (s0 := if decide (scanState_ s = ScanState.Trigger) then startAF s else s).
  assert (Hok0 : weightsOk s0).
  { unfold s0. destruct (decide _); [| exact Hok].
    eapply weightsOk_fixed; [exact Hok | apply startAF_weights]. }
  clearbody s0.
  destruct (initted_ s0); [| cbn [mbind option_bind]; intros [= <- _]; exact Hok0].
  set (sm := s0 <| imageMetadata_ := Some md |>).
  assert (Hokm : weightsOk sm) by exact Hok0.
  clearbody sm.
  destruct (pdaf_regions md) as [regions |]; cbn [mbind option_bind].
  - destruct (getPhase regions sm) as [[[[s1 ok] ph] cf] |] eqn:Hget; [| discriminate].
    cbn [mbind option_bind].
    apply (getPhase_weights _ _ _ _ _ _ Hokm) in Hget.
    destruct (doAF _ ph cf _) as [s2 |] eqn:HdoAF; [| discriminate].
    cbn [mbind option_bind]. intros [= <- _].
    apply doAF_weights in HdoAF.
    eapply weightsOk_fixed; [exact Hget |].
    eapply weightsFixed_trans; [| apply updateLensPosition_weights].
    eapply weightsFixed_trans; [| exact HdoAF]. split; reflexivity.
  - destruct (doAF _ 0 0 sm) as [s2 |] eqn:HdoAF; [| discriminate].
    cbn [mbind option_bind]. intros [= <- _].
    apply doAF_weights in HdoAF.
    eapply weightsOk_fixed; [exact Hokm |].
    eapply weightsFixed_trans; [exact HdoAF | apply updateLensPosition_weights].
Qed.

Lemma step_weights (s s' : Af) : step s s' -> weightsOk s -> weightsOk s'.
Proof.
  intros Hstep Hok. destruct Hstep.
  - unfold switchMode.
    set (s1 := invalidateWeights _).
    assert (H1 : weightsOk s1) by (apply invalidateWeights_ok; exact Hok).
    clearbody s1. cbv zeta.
    eapply weightsOk_fixed; [exact H1 |].
    match goal with
    | |- weightsFixed s1 (?X <| _ := _ |>) =>
        apply weightsFixed_trans with (s2 := X); [| split; reflexivity]
    end.
    break_if; [apply startProgrammedScan_weights | split; reflexivity].
  - eapply prepare_weights; eassumption.
  - unfold process in H.
    destruct (getContrast _ s) as [[s1 c] |] eqn:Hc; [| discriminate].
    cbn [mbind option_bind] in H. injection H as <-.
    eapply getContrast_weights in Hc; [| exact Hok]. exact Hc.
  - unfold setRange. break_if; exact Hok.
  - unfold setSpeed. repeat break_if; exact Hok.
  - unfold setMetering. break_if; [exact Hok |].
    apply invalidateWeights_ok. exact Hok.
  - unfold setWindows. cbv zeta. break_if; [apply invalidateWeights_ok |]; exact Hok.
  - unfold setLensPosition. destruct (decide _); cbn [fst]; [| exact Hok].
    eapply weightsOk_fixed; [exact Hok |].
    eapply weightsFixed_trans; [| apply updateLensPosition_weights]. split; reflexivity.
  - unfold cancelScan. break_if; exact Hok.
  - unfold triggerScan. break_if; exact Hok.
  - unfold setMode. repeat break_if; exact Hok.
  - unfold pause. repeat break_if; exact Hok.
Qed.

(** Both weight grids have their [rows * cols] cells in every reachable
    state. *)
Lemma reachable_weights (cfg : CfgParams) (s : Af) : reachable cfg s -> weightsOk s.
Proof.
  induction 1 as [u | s s' _ IH Hstep]; [split; reflexivity |].
  eapply step_weights; eassumption.
Qed.

(** * Further properties of the code *)


(** ** Invariants of the scan state *)

Lemma ctlFixed_refl (s : Af) : ctlFixed s s.
Proof. unfold ctlFixed. auto. Qed.

Lemma ctlFixed_trans (s1 s2 s3 : Af) : ctlFixed s1 s2 -> ctlFixed s2 s3 -> ctlFixed s1 s3.
Proof.
  unfold ctlFixed. intros (A1 & A2 & A3 & A4 & A5) (B1 & B2 & B3 & B4 & B5).
  repeat split; try congruence. auto.
Qed.

Lemma scanInv_fixed (s s' : Af) : scanInv s -> ctlFixed s s' -> scanInv s'.
Proof.
  unfold scanInv, ctlFixed. intros (I1 & I2 & I3 & I4) (-> & -> & -> & -> & Hi).
  repeat split; auto; apply I3; assumption.
Qed.

(** Closes a goal [ctlFixed s e] for an expression [e] without
    conditions. *)
Ltac ctl_done := unfold ctlFixed; repeat split; try reflexivity; auto.

(** Closes the conjuncts of [scanInv] once the fields are known. *)
Ltac inv_finish :=
  intuition (auto; try congruence; try discriminate; try (cbn [length]; lia)).

Lemma updateLensPosition_ctl (s : Af) :
  ctlFixed s (updateLensPosition s) /\ initted_ (updateLensPosition s) = true.
Proof.
  unfold updateLensPosition.
  destruct (ScanState.geb _ _); destruct (initted_ s) eqn:Hi;
    af_simpl; rewrite ?Hi; split; ctl_done.
Qed.

Lemma getPhase_ctl (regions : PdafRegions) (s s' : Af) (ok : bool) (ph cf : double) :
  getPhase regions s = Some (s', ok, ph, cf) -> ctlFixed s s'.
Proof.
  unfold getPhase.
  set (s1 := if staleWeights _ _ then _ else s).
  assert (H1 : ctlFixed s s1) by (unfold s1; destruct (staleWeights _ _); ctl_done).
  destruct (phaseLoop _ _ _ _ _ _) as [[sumWc sumWcp] |]; [| discriminate].
  cbn [mbind option_bind]. destruct (_ && _); intros [= <- _ _ _]; exact H1.
Qed.

Lemma getContrast_ctl (focusStats : FocusRegions) (s s' : Af) (c : double) :
  getContrast focusStats s = Some (s', c) -> ctlFixed s s'.
Proof.
  unfold getContrast.
  set (s1 := if staleWeights _ _ then _ else s).
  assert (H1 : ctlFixed s s1) by (unfold s1; destruct (staleWeights _ _); ctl_done).
  destruct (contrastLoop _ _ _ _ _) as [sumWc |]; [| discriminate].
  cbn [mbind option_bind]. intros [= <- _]. exact H1.
Qed.

Lemma startProgrammedScan_inv (s : Af) :
  scanInv s -> mode_ s <> AfModeManual -> scanInv (startProgrammedScan s).
Proof.
  intros (I1 & I2 & I3 & I4) Hm. unfold startProgrammedScan.
  destruct (updateLensPosition_ctl (s <| ftarget_ := focusMin (rangeParams s) |>))
    as [(Hmode & Hp & Hst & Hd & _) Hi].
  unfold scanInv. af_simpl. rewrite Hmode, Hp, Hi. af_simpl.
  inv_finish.
Qed.

Lemma startAF_inv (s : Af) :
  scanInv s -> mode_ s <> AfModeManual -> pauseFlag_ s = false -> scanInv (startAF s).
Proof.
  intros Hinv Hm Hp. unfold startAF.
  destruct (_ && _); [| apply startProgrammedScan_inv; assumption].
  set (s1 := if initted_ s then s else _).
  assert (H1 : ctlFixed s s1 /\ initted_ s1 = true).
  { unfold s1. destruct (initted_ s) eqn:Hi; [split; [apply ctlFixed_refl | exact Hi] |].
    destruct (updateLensPosition_ctl (s <| ftarget_ := focusDefault (rangeParams s) |>))
      as [Hc Hi']. split; [| exact Hi'].
    eapply ctlFixed_trans; [| exact Hc]. ctl_done. }
  destruct H1 as [(Hmode & Hpf & _) Hi1]. clearbody s1.
  destruct Hinv as (I1 & I2 & I3 & I4).
  unfold scanInv. af_simpl. rewrite Hmode, Hpf, Hi1. inv_finish.
Qed.

Lemma doPDAF_ctl (ph cf : double) (s : Af) : ctlFixed s (doPDAF ph cf s).
Proof. unfold doPDAF. repeat break_if; ctl_done. Qed.

Lemma pdafStep_inv (ph cf : double) (s : Af) :
  scanInv s -> scanState_ s = ScanState.Pdaf -> scanInv (pdafStep ph cf s).
Proof.
  intros Hinv Hst. unfold pdafStep.
  assert (Hm : mode_ s <> AfModeManual).
  { intros Hm. apply Hinv in Hm. congruence. }
  destruct (dlt _ cf).
  - pose proof (doPDAF_ctl ph cf s) as Hc.
    pose proof (scanInv_fixed _ _ Hinv Hc) as (I1 & I2 & I3 & I4).
    destruct Hc as (Hmode & Hp & Hst' & Hd & Hi). rewrite Hst in Hst'.
    set (s1 := doPDAF ph cf s) in *. clearbody s1.
    unfold scanInv.
    destruct (0 <? stepCount_ s1); [| destruct (decide (mode_ s1 <> AfModeContinuous))];
      af_simpl; rewrite ?Hst' in *; inv_finish.
  - cbv zeta. af_simpl.
    assert (Hinv' : scanInv (s <| dropCount_ := u32 (dropCount_ s + 1) |>))
      by (eapply scanInv_fixed; [exact Hinv | ctl_done]).
    destruct (_ =? _); [| exact Hinv'].
    apply startProgrammedScan_inv; assumption.
Qed.

Lemma sceneMonitor_inv (s s' : Af) :
  scanInv s -> mode_ s = AfModeContinuous -> sceneMonitor s = Some s' -> scanInv s'.
Proof.
  intros Hinv Hm. unfold sceneMonitor.
  destruct (imageMetadata_ s) as [md |]; [| discriminate].
  destruct (stats_ s) as [st |]; [| discriminate].
  cbn [mbind option_bind]. intros [= <-].
  match goal with
  | |- scanInv (?X <| _ := _ |> <| _ := _ |>) =>
      assert (HX : scanInv X); [| eapply scanInv_fixed; [exact HX | ctl_done]]
  end.
  assert (Htrig : forall t, scanInv (startProgrammedScan (s <| trigger_when_stable := t |>))).
  { intros t. apply startProgrammedScan_inv.
    - eapply scanInv_fixed; [exact Hinv | ctl_done].
    - af_simpl. congruence. }
  assert (Hsps : scanInv (startProgrammedScan s))
    by (apply startProgrammedScan_inv; [exact Hinv | congruence]).
  repeat break_if;
    match goal with
    | |- scanInv (startProgrammedScan s) => exact Hsps
    | |- scanInv (startProgrammedScan _) => apply Htrig
    | |- scanInv s => exact Hinv
    | |- _ => eapply scanInv_fixed; [exact Hinv | ctl_done]
    end.
Qed.

Lemma settle_inv (s : Af) :
  scanInv s -> scanState_ s = ScanState.Settle -> scanInv (settle s).
Proof.
  intros (I1 & I2 & I3 & I4) Hst. unfold settle. rewrite Hst in *.
  unfold scanInv.
  destruct (dle _ _ && dle _ _);
    destruct (bool_decide (_ = AfModeContinuous)) eqn:Hc;
    destruct (pauseFlag_ s) eqn:Hp; af_simpl; rewrite ?Hp;
    cbn [negb andb]; repeat break_if; af_simpl;
    try (apply bool_decide_eq_true in Hc); rewrite ?Hp; inv_finish.
Qed.

Lemma earlyTerminationByPhase_ctl (ph : double) (s : Af) :
  ctlFixed s (earlyTerminationByPhase ph s).1.
Proof. unfold earlyTerminationByPhase. repeat break_if; ctl_done. Qed.

Lemma recordScan_ctl (c p cf : double) (s : Af) :
  mode_ (recordScan c p cf s) = mode_ s /\
  pauseFlag_ (recordScan c p cf s) = pauseFlag_ s /\
  scanState_ (recordScan c p cf s) = scanState_ s /\
  initted_ (recordScan c p cf s) = initted_ s /\
  length (scanData_ (recordScan c p cf s)) = S (length (scanData_ s)).
Proof.
  unfold recordScan. repeat break_if; af_simpl; rewrite length_app; cbn [length];
    repeat split; lia.
Qed.

Lemma doScan_inv (c p cf : double) (s s' : Af) :
  scanInv s ->
  scanState_ s = ScanState.Coarse \/ scanState_ s = ScanState.Fine ->
  doScan c p cf s = Some s' -> scanInv s'.
Proof.
  intros (I1 & I2 & I3 & I4) Hst. unfold doScan.
  destruct (recordScan_ctl c p cf s) as (Hm & Hp & Hs & Hi & Hl).
  set (s1 := recordScan c p cf s) in *. clearbody s1. cbv zeta.
  unfold scanInv.
  destruct (decide (scanState_ s1 = ScanState.Coarse)) as [Hc | Hc].
  - destruct (_ || _); try destruct (findPeak _ s1);
      cbn [mbind option_bind]; intros H; try discriminate; injection H as <-;
      af_simpl; rewrite ?Hm, ?Hp, ?Hi, ?Hc; rewrite Hc in Hs; rewrite <- Hs in *;
      inv_finish.
  - assert (Hfine : scanState_ s = ScanState.Fine) by (destruct Hst; congruence).
    rewrite Hfine in *.
    destruct (dle _ _ || (5 <=? length (scanData_ s1))%nat || _) eqn:Hend;
      try destruct (findPeak _ s1);
      cbn [mbind option_bind]; intros H; try discriminate; injection H as <-;
      af_simpl; rewrite ?Hm, ?Hp, ?Hi, ?Hs; try solve [inv_finish].
    apply orb_false_iff in Hend as [Hend _]. apply orb_false_iff in Hend as [_ Hend].
    apply Nat.leb_gt in Hend. inv_finish.
Qed.

Lemma doAF_inv (c p cf : double) (s s' : Af) :
  scanInv s -> doAF c p cf s = Some s' -> scanInv s'.
Proof.
  intros Hinv. unfold doAF.
  destruct (0 <? skipCount_ s);
    [intros [= <-]; eapply scanInv_fixed; [exact Hinv | ctl_done] |].
  destruct (_ && bool_decide (scanState_ s = ScanState.Idle)) eqn:Hmon.
  { apply andb_true_iff in Hmon as [Hmon _]. apply andb_true_iff in Hmon as [Hmon _].
    apply bool_decide_eq_true in Hmon. apply sceneMonitor_inv; assumption. }
  destruct (decide (scanState_ s = ScanState.Pdaf));
    [intros [= <-]; apply pdafStep_inv; assumption |].
  destruct (ScanState.geb (scanState_ s) ScanState.Coarse && deq _ _) eqn:Hscan;
    [| intros [= <-]; exact Hinv].
  apply andb_true_iff in Hscan as [Hscan _].
  destruct (0 <? stepCount_ s);
    [intros [= <-]; eapply scanInv_fixed; [exact Hinv | ctl_done] |].
  destruct (decide (scanState_ s = ScanState.Settle));
    [intros [= <-]; apply settle_inv; assumption |].
  assert (Hst : scanState_ s = ScanState.Coarse \/ scanState_ s = ScanState.Fine)
    by (destruct (scanState_ s); try discriminate; try congruence; auto).
  destruct (dle _ cf); [| apply doScan_inv; assumption].
  pose proof (earlyTerminationByPhase_ctl p s) as Het.
  destruct (earlyTerminationByPhase p s) as [s1 ok]. cbn [fst] in Het.
  pose proof (scanInv_fixed _ _ Hinv Het) as Hinv1.
  assert (Hst1 : scanState_ s1 = ScanState.Coarse \/ scanState_ s1 = ScanState.Fine)
    by (destruct Het as (_ & _ & -> & _); exact Hst).
  destruct ok; [| apply doScan_inv; assumption].
  intros [= <-]. destruct Hinv1 as (I1 & I2 & I3 & I4).
  destruct Het as (Hm & Hp & Hs & Hd & Hi).
  unfold scanInv. af_simpl.
  assert (Hinit : initted_ s1 = true).
  { apply I4. destruct Hst1 as [-> | ->]; reflexivity. }
  assert (Hnm : mode_ s1 <> AfModeManual).
  { intros Hman. apply I1 in Hman. destruct Hst1; congruence. }
  inv_finish.
Qed.

Lemma prepare_inv (md md' : Metadata) (s s' : Af) :
  scanInv s -> prepare md s = Some (s', md') -> scanInv s'.
Proof.
  intros Hinv. unfold prepare.
  set (s0 := if decide (scanState_ s = ScanState.Trigger) then startAF s else s).
  assert (Hinv0 : scanInv s0).
  { unfold s0. destruct (decide _) as [Ht |]; [| exact Hinv].
    pose proof Hinv as (I1 & I2 & I3 & I4). apply startAF_inv.
    - exact Hinv.
    - intros Hm. apply I1 in Hm. congruence.
    - destruct (pauseFlag_ s); [| reflexivity].
      destruct I3 as (_ & Hnt & _); [reflexivity | contradiction]. }
  clearbody s0.
  destruct (initted_ s0); [| cbn [mbind option_bind]; intros [= <- _]; exact Hinv0].
  set (sm := s0 <| imageMetadata_ := Some md |>).
  assert (Hinvm : scanInv sm) by (eapply scanInv_fixed; [exact Hinv0 | ctl_done]).
  clearbody sm.
  assert (Hend : forall ph cf s1 s2,
            scanInv s1 -> doAF (prevContrast_ s1) ph cf s1 = Some s2 ->
            scanInv (updateLensPosition s2)).
  { intros ph cf s1 s2 H1 HdoAF. apply doAF_inv in HdoAF; [| exact H1].
    eapply scanInv_fixed; [exact HdoAF | apply updateLensPosition_ctl]. }
  destruct (pdaf_regions md) as [regions |]; cbn [mbind option_bind].
  - destruct (getPhase regions sm) as [[[[s1 ok] ph] cf] |] eqn:Hget; [| discriminate].
    cbn [mbind option_bind]. apply getPhase_ctl in Hget.
    destruct (doAF _ ph cf _) as [s2 |] eqn:HdoAF; [| discriminate].
    cbn [mbind option_bind]. intros [= <- _].
    eapply Hend; [| exact HdoAF].
    eapply scanInv_fixed; [exact Hinvm |].
    eapply ctlFixed_trans; [exact Hget | ctl_done].
  - destruct (doAF _ 0 0 sm) as [s2 |] eqn:HdoAF; [| discriminate].
    cbn [mbind option_bind]. intros [= <- _].
    eapply Hend; [exact Hinvm | exact HdoAF].
Qed.

Lemma invalidateWeights_ctl (s : Af) : ctlFixed s (invalidateWeights s).
Proof. ctl_done. Qed.

Lemma goIdle_inv (s : Af) :
  (pauseFlag_ s = true -> mode_ s = AfModeContinuous) -> scanInv (goIdle s).
Proof. intros Hp. unfold scanInv, goIdle. af_simpl. inv_finish. Qed.

Lemma step_inv (s s' : Af) : step s s' -> scanInv s -> scanInv s'.
Proof.
  intros Hstep Hinv. destruct Hstep.
  - unfold switchMode.
    set (s1 := invalidateWeights _).
    assert (H1 : scanInv s1) by (eapply scanInv_fixed; [exact Hinv | ctl_done]).
    clearbody s1. cbv zeta.
    match goal with
    | |- scanInv (?X <| _ := _ |>) =>
        assert (HX : scanInv X); [| eapply scanInv_fixed; [exact HX | ctl_done]]
    end.
    destruct (ScanState.geb (scanState_ s1) ScanState.Coarse && _) eqn:Hscan; [| exact H1].
    apply startProgrammedScan_inv; [exact H1 |].
    intros Hm. apply H1 in Hm. rewrite Hm in Hscan. discriminate.
  - eapply prepare_inv; eassumption.
  - unfold process in H.
    destruct (getContrast _ s) as [[s1 c] |] eqn:Hc; [| discriminate].
    cbn [mbind option_bind] in H. injection H as <-.
    eapply scanInv_fixed; [exact Hinv |].
    eapply ctlFixed_trans; [eapply getContrast_ctl; exact Hc | ctl_done].
  - unfold setRange. break_if; [| exact Hinv].
    eapply scanInv_fixed; [exact Hinv | ctl_done].
  - unfold setSpeed. repeat break_if; try exact Hinv;
      (eapply scanInv_fixed; [exact Hinv | ctl_done]).
  - unfold setMetering. break_if; [exact Hinv |].
    eapply scanInv_fixed; [exact Hinv | ctl_done].
  - unfold setWindows. cbv zeta. break_if;
      (eapply scanInv_fixed; [exact Hinv | ctl_done]).
  - unfold setLensPosition. destruct (decide _); cbn [fst]; [| exact Hinv].
    eapply scanInv_fixed; [exact Hinv |].
    eapply ctlFixed_trans; [| apply updateLensPosition_ctl]. ctl_done.
  - unfold cancelScan. break_if; [| exact Hinv].
    apply goIdle_inv. apply Hinv.
  - unfold triggerScan. destruct (_ && _) eqn:Hc; [| exact Hinv].
    apply andb_true_iff in Hc as [Hauto Hidle].
    apply bool_decide_eq_true in Hauto, Hidle.
    destruct Hinv as (I1 & I2 & I3 & I4). unfold scanInv. af_simpl. inv_finish.
  - unfold setMode. destruct (decide (mode_ s <> m)); [| exact Hinv].
    destruct Hinv as (I1 & I2 & I3 & I4).
    destruct (decide (m = AfModeContinuous)) as [-> |].
    + unfold scanInv. af_simpl. inv_finish.
    + destruct (negb _ || _) eqn:Hc.
      * apply goIdle_inv. af_simpl. discriminate.
      * apply orb_false_iff in Hc as [Hauto Hscan].
        apply negb_false_iff, bool_decide_eq_true in Hauto. subst m.
        af_simpl. unfold scanInv. af_simpl.
        unfold ScanState.ltb in Hscan. apply Z.ltb_ge in Hscan.
        repeat split; try discriminate; auto.
  - unfold pause. destruct (decide (mode_ s = AfModeContinuous)) as [Hm |]; [| exact Hinv].
    destruct Hinv as (I1 & I2 & I3 & I4).
    destruct (bool_decide (p = AfPauseResume) && pauseFlag_ s) eqn:Hres.
    + apply andb_true_iff in Hres as [_ Hp]. destruct (I3 Hp) as (_ & Hnt & Hnp).
      af_simpl. unfold ScanState.ltb.
      destruct (scanState_ s) eqn:Hst; cbn; unfold scanInv; af_simpl;
        rewrite ?Hst; inv_finish.
    + destruct (negb _ && negb (pauseFlag_ s)) eqn:Hset; [| unfold scanInv; auto].
      af_simpl. unfold ScanState.ltb.
      destruct (bool_decide (p = AfPauseImmediate)); cbn [orb].
      * apply goIdle_inv. af_simpl. auto.
      * destruct (scanState_ s) eqn:Hst; cbn;
          try (apply goIdle_inv; af_simpl; auto);
          unfold scanInv; af_simpl; rewrite ?Hst; inv_finish.
Qed.

(** The invariants hold in every reachable state. *)
Lemma reachable_inv (cfg : CfgParams) (s : Af) : reachable cfg s -> scanInv s.
Proof.
  induction 1 as [u | s s' _ IH Hstep].
  - unfold scanInv. cbn. inv_finish.
  - eapply step_inv; eassumption.
Qed.

(** Runs of frames stay within the reachable states. *)
Lemma frames_reachable (cfg : CfgParams) (n : nat) (md : Metadata) (s s' : Af) :
  reachable cfg s -> frames n md s = Some s' -> reachable cfg s'.
Proof.
  revert s. induction n as [| n IH]; intros s Hr; cbn [frames].
  - intros [= <-]. exact Hr.
  - destruct (prepare md s) as [[s1 md1] |] eqn:Hp; [| discriminate].
    cbn [mbind option_bind]. apply IH.
    eapply reachable_step; [exact Hr | eapply step_prepare; exact Hp].
Qed.

Lemma scanFrames_reachable (cfg : CfgParams) (n : nat) (s s' : Af) :
  reachable cfg s -> scanFrames n s = Some s' -> reachable cfg s'.
Proof.
  revert s. induction n as [| n IH]; intros s Hr; cbn [scanFrames].
  - intros [= <-]. exact Hr.
  - destruct (prepare noMetadata s) as [[s1 md1] |] eqn:Hp; [| discriminate].
    cbn [mbind option_bind].
    destruct (process _ s1) as [s2 |] eqn:Hq; [| discriminate].
    cbn [mbind option_bind]. apply IH.
    eapply reachable_step; [| eapply step_process; exact Hq].
    eapply reachable_step; [exact Hr | eapply step_prepare; exact Hp].
Qed.

(** X1.  In manual mode no scan is ever pending: every reachable state
    in mode Manual has the scan state [Idle]. *)
Theorem manual_mode_is_idle (cfg : CfgParams) (s : Af) :
  reachable cfg s -> mode_ s = AfModeManual -> scanState_ s = ScanState.Idle.
Proof. intros Hr. apply (reachable_inv cfg s Hr). Qed.

Lemma manual_mode_is_idle_witness :
  scanState_ (setMode AfModeManual (triggerScan (setMode AfModeAuto
                (Af_new CfgParams_default Unset_zero)))) = ScanState.Idle.
Proof.
  apply (manual_mode_is_idle CfgParams_default); [| reflexivity].
  repeat (eapply reachable_step; [| constructor]). apply reachable_new.
Defined.

(** X2.  A fine scan never holds more than four records between two
    steps, so that it ends at the latest with its fifth record. *)
Theorem fine_scan_is_short (cfg : CfgParams) (s : Af) :
  reachable cfg s -> scanState_ s = ScanState.Fine -> (length (scanData_ s) <= 4)%nat.
Proof. intros Hr. apply (reachable_inv cfg s Hr). Qed.

Lemma fine_scan_is_short_witness :
  exists s, scanFrames 70 (triggerScan (setMode AfModeAuto
                             (Af_new CfgParams_default Unset_zero))) = Some s /\
            scanState_ s = ScanState.Fine /\ (length (scanData_ s) <= 4)%nat.
Proof.
  destruct (scanFrames 70 _) as [s |] eqn:Hrun; [| vm_compute in Hrun; discriminate].
  exists s. split; [reflexivity |].
  assert (Hfine : scanState_ s = ScanState.Fine)
    by (vm_compute in Hrun; injection Hrun as <-; reflexivity).
  split; [exact Hfine |].
  apply (fine_scan_is_short CfgParams_default s); [| exact Hfine].
  eapply scanFrames_reachable; [| exact Hrun].
  repeat (eapply reachable_step; [| constructor]). apply reachable_new.
Defined.

(** X3.  The pause flag is set only in continuous mode, and a paused
    algorithm is never triggered nor in the PDAF loop: it is idle or
    finishing a programmed scan. *)
Theorem paused_is_idle_or_scanning (cfg : CfgParams) (s : Af) :
  reachable cfg s -> pauseFlag_ s = true ->
  mode_ s = AfModeContinuous /\
  scanState_ s <> ScanState.Trigger /\ scanState_ s <> ScanState.Pdaf.
Proof. intros Hr. apply (reachable_inv cfg s Hr). Qed.

Lemma paused_is_idle_or_scanning_witness :
  let s := pause AfPauseDeferred (setMode AfModeContinuous
             (Af_new CfgParams_default Unset_zero)) in
  mode_ s = AfModeContinuous /\
  scanState_ s <> ScanState.Trigger /\ scanState_ s <> ScanState.Pdaf.
Proof.
  apply (paused_is_idle_or_scanning CfgParams_default); [| reflexivity].
  repeat (eapply reachable_step; [| constructor]). apply reachable_new.
Defined.

(** X4.  From the PDAF state on the lens position is known: in every
    reachable state with a scan state of [Pdaf] or later, [initted_] is
    set, [getLensPosition] returns the smoothed position and the status
    of the frame carries a lens setting. *)
Theorem scanning_knows_lens (cfg : CfgParams) (s : Af) :
  reachable cfg s ->
  ScanState.geb (scanState_ s) ScanState.Pdaf = true ->
  initted_ s = true /\ getLensPosition s = Some (fsmooth_ s).
Proof.
  intros Hr Hst. assert (Hi : initted_ s = true) by (apply (reachable_inv cfg s Hr), Hst).
  split; [exact Hi |]. unfold getLensPosition. rewrite Hi. reflexivity.
Qed.

Lemma scanning_knows_lens_witness :
  exists s, frames 1 noMetadata (setMode AfModeContinuous
                                   (Af_new CfgParams_default Unset_zero)) = Some s /\
            initted_ s = true /\ getLensPosition s = Some (fsmooth_ s).
Proof.
  destruct (frames 1 _ _) as [s |] eqn:Hrun; [| vm_compute in Hrun; discriminate].
  exists s. split; [reflexivity |].
  apply (scanning_knows_lens CfgParams_default s).
  - eapply frames_reachable; [| exact Hrun].
    repeat (eapply reachable_step; [| constructor]). apply reachable_new.
  - vm_compute in Hrun. injection Hrun as <-. reflexivity.
Defined.

(** ** Controls *)

Lemma copyWindows_take (acc wins : list Rectangle.t) :
  (length acc < 10)%nat -> copyWindows acc wins = take 10 (acc ++ wins).
Proof.
  revert acc. induction wins as [| w wins IH]; intros acc Hacc; cbn [copyWindows].
  - rewrite app_nil_r, take_ge by lia. reflexivity.
  - unfold MaxWindows. rewrite length_app. cbn [length].
    destruct (Z.leb_spec 10 (Z.of_nat (length acc + 1))) as [Hfull | Hroom].
    + rewrite (cons_middle w acc wins), app_assoc, take_app_le
        by (rewrite length_app; cbn [length]; lia).
      rewrite take_ge by (rewrite length_app; cbn [length]; lia). reflexivity.
    + rewrite IH by (rewrite length_app; cbn [length]; lia).
      rewrite <- app_assoc. reflexivity.
Qed.

(** X5.  [setWindows] keeps the first [MaxWindows] (ten) windows of its
    argument, in their order, and drops the rest; the windows set before
    are forgotten. *)
Theorem setWindows_keeps_first_ten (wins : list Rectangle.t) (s : Af) :
  windows_ (setWindows wins s) = take 10 wins /\
  (length (windows_ (setWindows wins s)) <= 10)%nat.
Proof.
  assert (Hw : windows_ (setWindows wins s) = take 10 wins).
  { unfold setWindows. cbv zeta. af_simpl.
    destruct (useWindows_ s); cbn; apply (copyWindows_take [] wins); cbn; lia. }
  split; [exact Hw |]. rewrite Hw, length_take. lia.
Qed.

(** X6.  [setMode] is idempotent, it always leaves the algorithm in the
    requested mode, and a change of mode clears the pause flag. *)
Theorem setMode_idempotent (m : AfMode) (s : Af) :
  setMode m (setMode m s) = setMode m s /\
  mode_ (setMode m s) = m /\
  (mode_ s <> m -> pauseFlag_ (setMode m s) = false).
Proof.
  assert (Hm : mode_ (setMode m s) = m).
  { unfold setMode. destruct (decide (mode_ s <> m)) as [Hne | Heq].
    - repeat break_if; reflexivity.
    - destruct (decide (mode_ s = m)); [assumption | contradiction]. }
  split; [| split; [exact Hm |]].
  - unfold setMode at 1. rewrite Hm.
    destruct (decide (m <> m)); [contradiction | reflexivity].
  - intros Hne. unfold setMode.
    destruct (decide (mode_ s <> m)); [| contradiction].
    repeat break_if; reflexivity.
Qed.

Lemma setMode_idempotent_witness :
  pauseFlag_ (setMode AfModeAuto
    (pause AfPauseImmediate (setMode AfModeContinuous
       (Af_new CfgParams_default Unset_zero)))) = false.
Proof.
  apply (setMode_idempotent AfModeAuto
           (pause AfPauseImmediate (setMode AfModeContinuous
              (Af_new CfgParams_default Unset_zero)))).
  vm_compute. discriminate.
Defined.




(** X8.  [setLensPosition] is honoured only in manual mode.  There (with
    no scan pending, as always in manual mode) the first call, from an
    unknown lens position, moves the lens straight to the position
    clipped to the domain of the map, reports a change, returns the
    hardware code of that position and starts the start-up delay; a call
    that reports no change leaves the smoothed position where it is. *)
Theorem setLensPosition_manual (d : double) (s : Af) :
  let '(s', changed, hwpos) := setLensPosition d s in
  let target := map_domain_clip (cfg_ s) d in
  (mode_ s <> AfModeManual -> s' = s /\ changed = false) /\
  (mode_ s = AfModeManual -> scanState_ s = ScanState.Idle ->
   hwpos = map_eval (cfg_ s) (fsmooth_ s') /\
   (initted_ s = false ->
    changed = true /\ fsmooth_ s' = target /\ getLensPosition s' = Some target /\
    skipCount_ s' = skipFrames (cfg_ s)) /\
   (changed = false -> (0 <= maxSlew (speedParams s))%Q ->
    (fsmooth_ s' == fsmooth_ s)%Q)).
Proof.
  unfold setLensPosition.
  destruct (decide (mode_ s = AfModeManual)) as [Hm | Hm]; cbv zeta.
  - split; [contradiction |]. intros _ Hidle.
    unfold updateLensPosition, getLensPosition. af_simpl. rewrite Hidle.
    cbn [ScanState.geb ScanState.rank Z.leb Z.compare]. af_simpl.
    destruct (initted_ s) eqn:Hi; af_simpl.
    + split; [reflexivity |]. split; [discriminate |].
      cbn [andb]. intros Hsame Hslew.
      apply negb_false_iff, deq_true in Hsame.
      unfold speedParams. af_simpl. fold (speedParams s).
      unfold dclamp.
      destruct (dlt _ (fsmooth_ s - _)) eqn:Hlo; [apply dlt_true in Hlo; lra |].
      destruct (dlt (fsmooth_ s + _) _) eqn:Hhi; [apply dlt_true in Hhi; lra |].
      symmetry. exact Hsame.
    + split; [reflexivity |]. split; [| discriminate].
      intros _. repeat split; reflexivity.
  - split; [intros _; split; reflexivity | contradiction].
Qed.

Lemma setLensPosition_manual_witness :
  let r := setLensPosition 20 (Af_new CfgParams_default Unset_zero) in
  r.1.2 = true /\ fsmooth_ r.1.1 = defaultMap_clip 20 /\
  getLensPosition r.1.1 = Some (defaultMap_clip 20) /\ skipCount_ r.1.1 = 5.
Proof.
  intros r.
  pose proof (setLensPosition_manual 20 (Af_new CfgParams_default Unset_zero)) as H.
  fold r in H. clearbody r. destruct r as [[s' changed] hwpos]. cbn [fst snd].
  destruct H as [_ H]. destruct (H eq_refl eq_refl) as (_ & Hfirst & _).
  exact (Hfirst eq_refl).
Defined.

Lemma staleWeights_sum0 (size : Size.t) (wg : RegionWeights.t) :
  RegionWeights.sum wg = 0 -> staleWeights size wg = true.
Proof.
  intros H. unfold staleWeights. rewrite H. cbn [Z.eqb].
  rewrite !orb_true_r. reflexivity.
Qed.

Lemma invalidateWeights_sum (s : Af) :
  RegionWeights.sum (phaseWeights_ (invalidateWeights s)) = 0 /\
  RegionWeights.sum (contrastWeights_ (invalidateWeights s)) = 0.
Proof. split; reflexivity. Qed.

Lemma invalidateWeights_stale (s : Af) (size : Size.t) :
  staleWeights size (phaseWeights_ (invalidateWeights s)) = true /\
  staleWeights size (contrastWeights_ (invalidateWeights s)) = true.
Proof.
  destruct (invalidateWeights_sum s) as [Hp Hc].
  split; apply staleWeights_sum0; assumption.
Qed.

Lemma switchMode_weights (cm : CameraMode) (s : Af) :
  exists s1, weightsFixed (invalidateWeights s1) (switchMode cm s).
Proof.
  unfold switchMode. cbv zeta.
  match goal with
  | |- context [invalidateWeights ?X] => exists X; generalize (invalidateWeights X)
  end.
  intros a. destruct (_ && _).
  - destruct (startProgrammedScan_weights a) as [Hp Hc].
    generalize dependent (startProgrammedScan a). intros b Hp Hc.
    split; [rewrite <- Hp | rewrite <- Hc]; reflexivity.
  - split; reflexivity.
Qed.

(** X9.  A switch of the camera mode, a change of the metering mode and
    new windows under window metering invalidate both weight grids: they
    are stale for every grid size, so that the next fusion recomputes
    them.  [setMetering] with the current mode changes nothing. *)
Theorem weights_are_invalidated (s : Af) (size : Size.t) :
  (forall cm, staleWeights size (phaseWeights_ (switchMode cm s)) = true /\
              staleWeights size (contrastWeights_ (switchMode cm s)) = true) /\
  (forall m, if eqb (useWindows_ s) m then setMetering m s = s
             else staleWeights size (phaseWeights_ (setMetering m s)) = true /\
                  staleWeights size (contrastWeights_ (setMetering m s)) = true) /\
  (forall wins, useWindows_ s = true ->
     staleWeights size (phaseWeights_ (setWindows wins s)) = true /\
     staleWeights size (contrastWeights_ (setWindows wins s)) = true).
Proof.
  split; [| split].
  - intros cm. destruct (switchMode_weights cm s) as (s1 & Hp & Hc).
    rewrite Hp, Hc. apply invalidateWeights_stale.
  - intros m. unfold setMetering. destruct (eqb (useWindows_ s) m); [reflexivity |].
    apply invalidateWeights_stale.
  - intros wins Hon. unfold setWindows. cbv zeta.
    change (useWindows_ (s <| windows_ := copyWindows [] wins |>)) with (useWindows_ s).
    rewrite Hon. apply invalidateWeights_stale.
Qed.

Lemma weights_are_invalidated_witness :
  let s := (Af_new CfgParams_default Unset_zero) <| useWindows_ := true |> in
  staleWeights (Size.mk 4 3) (phaseWeights_ (setWindows [] s)) = true /\
  staleWeights (Size.mk 4 3) (contrastWeights_ (setWindows [] s)) = true.
Proof.
  intros s.
  exact (proj2 (proj2 (weights_are_invalidated s (Size.mk 4 3))) [] eq_refl).
Defined.

(** ** The closed-loop step of [doPDAF] *)


(** ** The interpolation of [findPeak] *)




(** ** The target of a scan stays in the active range *)

Lemma updateLensPosition_range (s : Af) :
  let s' := updateLensPosition s in
  rangeParams s' = rangeParams s /\ scanState_ s' = scanState_ s /\
  ((focusMin (rangeParams s) <= focusMax (rangeParams s))%Q ->
   ScanState.geb (scanState_ s) ScanState.Pdaf = true ->
   (focusMin (rangeParams s) <= ftarget_ s')%Q /\
   (ftarget_ s' <= focusMax (rangeParams s))%Q).
Proof.
  cbv zeta. unfold updateLensPosition.
  destruct (ScanState.geb (scanState_ s) ScanState.Pdaf) eqn:Hge.
  - assert (H : forall s1 : Af,
              initted_ s1 = initted_ s -> rangeParams s1 = rangeParams s ->
              scanState_ s1 = scanState_ s ->
              let s' := if initted_ s1
                        then s1 <| fsmooth_ := dclamp (ftarget_ s1)
                                    (fsmooth_ s1 - maxSlew (speedParams s1))%Q
                                    (fsmooth_ s1 + maxSlew (speedParams s1))%Q |>
                        else s1 <| fsmooth_ := ftarget_ s1 |> <| initted_ := true |>
                                <| skipCount_ := skipFrames (cfg_ s1) |> in
              rangeParams s' = rangeParams s /\ scanState_ s' = scanState_ s /\
              ftarget_ s' = ftarget_ s1).
    { intros s1 _ Hr Hs. cbv zeta. destruct (initted_ s1); repeat split; assumption. }
    match goal with
    | |- context [initted_ ?X] =>
        destruct (H X eq_refl eq_refl eq_refl) as (Hr & Hs & Ht)
    end.
    split; [exact Hr | split; [exact Hs |]].
    intros Hle _. rewrite Ht. af_simpl. apply dclamp_bounds. exact Hle.
  - destruct (initted_ s); (split; [reflexivity | split; [reflexivity | discriminate]]).
Qed.

(** X12.  After [prepare], from every reachable state, the target of a
    running scan or of the closed loop lies within the active range
    (whose limits are ordered); the lens follows that target. *)
Theorem prepare_target_in_range (cfg : CfgParams) (md md' : Metadata) (s s' : Af) :
  reachable cfg s ->
  prepare md s = Some (s', md') ->
  (focusMin (rangeParams s') <= focusMax (rangeParams s'))%Q ->
  ScanState.geb (scanState_ s') ScanState.Pdaf = true ->
  (focusMin (rangeParams s') <= ftarget_ s')%Q /\
  (ftarget_ s' <= focusMax (rangeParams s'))%Q.
Proof.
  intros Hreach Hprep Hle Hge.
  pose proof (prepare_inv md md' s s' (reachable_inv cfg s Hreach) Hprep)
    as (_ & _ & _ & I4).
  specialize (I4 Hge). revert Hprep. unfold prepare.
  set (s0 := if decide (scanState_ s = ScanState.Trigger) then startAF s else s).
  clearbody s0.
  destruct (initted_ s0) eqn:Hi0;
    [| cbn [mbind option_bind]; intros [= <- _]; congruence].
  assert (Hend : forall s2, s' = updateLensPosition s2 ->
            (focusMin (rangeParams s') <= ftarget_ s')%Q /\
            (ftarget_ s' <= focusMax (rangeParams s'))%Q).
  { intros s2 ->. destruct (updateLensPosition_range s2) as (Hr & Hs & Hin).
    rewrite Hr in *. rewrite Hs in Hge. apply Hin; assumption. }
  destruct (pdaf_regions md) as [regions |]; cbn [mbind option_bind].
  - destruct (getPhase regions _) as [[[[s1 ok] ph] cf] |]; [| discriminate].
    cbn [mbind option_bind].
    destruct (doAF _ ph cf _) as [s2 |]; [| discriminate].
    cbn [mbind option_bind]. intros [= <- _]. eapply Hend. reflexivity.
  - destruct (doAF _ 0 0 _) as [s2 |]; [| discriminate].
    cbn [mbind option_bind]. intros [= <- _]. eapply Hend. reflexivity.
Qed.

Lemma prepare_target_in_range_witness :
  exists s' md',
    prepare noMetadata (setMode AfModeContinuous (Af_new CfgParams_default Unset_zero)) =
      Some (s', md') /\
    (focusMin (rangeParams s') <= ftarget_ s')%Q /\
    (ftarget_ s' <= focusMax (rangeParams s'))%Q.
Proof.
  destruct (prepare noMetadata _) as [[s' md'] |] eqn:Hp; [| vm_compute in Hp; discriminate].
  exists s', md'. split; [reflexivity |].
  apply (prepare_target_in_range CfgParams_default noMetadata md'
           (setMode AfModeContinuous (Af_new CfgParams_default Unset_zero)) s');
    [| exact Hp | |].
  - repeat (eapply reachable_step; [| constructor]). apply reachable_new.
  - vm_compute in Hp. injection Hp as <- _. vm_compute. discriminate.
  - vm_compute in Hp. injection Hp as <- _. reflexivity.
Defined.

(** ** The scene monitor of continuous autofocus without PDAF *)

Lemma generate_stats_zones (stats : RgbyRegions) (min_pixels min_G : double) :
  Forall (fun z => (min_G <= z)%Q) (generate_stats stats min_pixels min_G) /\
  (length (generate_stats stats min_pixels min_G) <= RegionStats.numRegions stats)%nat.
Proof.
  unfold generate_stats, RegionStats.numRegions.
  generalize (RegionStats.regions stats). intros l.
  set (f := fun (zones : list double) (iter : RegionStats.Region RgbySums) =>
              let counted := of_int (RegionStats.counted iter) in
              if dle min_pixels counted then
                let zone := (of_int (gSum (RegionStats.val iter)) / counted)%Q in
                if dle min_G zone then zones ++ [zone] else zones
              else zones).
  assert (H : forall acc : list double,
            Forall (fun z => (min_G <= z)%Q) acc ->
            Forall (fun z => (min_G <= z)%Q) (foldl f acc l) /\
            (length (foldl f acc l) <= length acc + length l)%nat).
  { induction l as [| iter l IH]; intros acc Hacc; cbn [foldl length].
    - split; [exact Hacc | lia].
    - unfold f at 2 4. cbv zeta. destruct (dle min_pixels _).
      + destruct (dle min_G _) eqn:Hz.
        * edestruct IH as [H1 H2]; [| split; [exact H1 |]].
          -- apply Forall_app. split; [exact Hacc |].
             constructor; [apply dle_true; exact Hz | constructor].
          -- rewrite length_app in H2. cbn [length] in H2. lia.
        * destruct (IH acc Hacc) as [H1 H2]. split; [exact H1 | lia].
      + destruct (IH acc Hacc) as [H1 H2]. split; [exact H1 | lia]. }
  destruct (H [] ltac:(constructor)) as [H1 H2]. split; [exact H1 | exact H2].
Qed.

Lemma foldl_Qplus_ge (g : Q) (zones : list double) (a : Q) :
  Forall (fun z => (g <= z)%Q) zones ->
  (a + g * of_int (Z.of_nat (length zones)) <= foldl Qplus a zones)%Q.
Proof.
  intros H. revert a. induction H as [| z zones Hz _ IH]; intros a.
  - cbn [foldl length]. unfold of_int. change (inject_Z (Z.of_nat 0)) with 0%Q. lra.
  - cbn [foldl length]. specialize (IH (a + z)%Q).
    unfold of_int in *. rewrite Nat2Z.inj_succ. unfold Z.succ.
    rewrite inject_Z_plus. change (inject_Z 1) with 1%Q. lra.
Qed.

Lemma meanOf_ge (g : Q) (zones : list double) (m : Q) :
  Forall (fun z => (g <= z)%Q) zones -> meanOf zones = Some m -> (g <= m)%Q.
Proof.
  intros H. unfold meanOf. destruct zones as [| z zones]; [discriminate |].
  cbn [isEmpty]. intros [= <-].
  pose proof (foldl_Qplus_ge g (z :: zones) 0 H) as Hsum.
  cbn [foldl length] in Hsum |- *.
  set (n := of_int (Z.of_nat (S (length zones)))) in *.
  assert (Hn : (0 < n)%Q).
  { unfold n, of_int. rewrite <- (Zlt_Qlt 0). lia. }
  apply Qle_shift_div_l; [exact Hn | lra].
Qed.

(** X13.  A frame of the scene monitor stores the mean green level of
    the zones that [generate_stats] accepts, which is a NaN or at least
    32 and hence never the zero that blocks the monitor.  It starts no
    scan, and leaves target and lens alone, when the exposure is not
    locked or when [last_mean] is zero, as it is on the first frame after
    a scan; when it does start a scan, the scan is the programmed one. *)
Theorem sceneMonitor_guard (s s' : Af) :
  sceneMonitor s = Some s' ->
  (exists st, stats_ s = Some st /\
     last_mean s' = meanOf (generate_stats (awbRegions st) 16 32)) /\
  (forall m, last_mean s' = Some m -> (32 <= m)%Q) /\
  nne (last_mean s') 0 = true /\
  last_agc_status s' = agcLocked s /\
  (agcLocked s = false \/ nne (last_mean s) 0 = false ->
   scanState_ s' = scanState_ s /\ ftarget_ s' = ftarget_ s /\
   fsmooth_ s' = fsmooth_ s /\ scanData_ s' = scanData_ s) /\
  (scanState_ s' <> scanState_ s -> scanState_ s' = ScanState.Coarse).
Proof.
  unfold sceneMonitor, agcLocked.
  destruct (imageMetadata_ s) as [md |]; [| discriminate].
  destruct (stats_ s) as [st |]; [| discriminate].
  cbn [mbind option_bind].
  set (lk := match agc_prepare_status md with
             | Some st0 => negb (locked st0 =? 0)
             | None => false
             end).
  set (mean := meanOf (generate_stats (awbRegions st) 16 32)).
  intros [= <-].
  assert (Hmean : forall m, mean = Some m -> (32 <= m)%Q).
  { intros m. apply meanOf_ge. apply generate_stats_zones. }
  split; [exists st; split; reflexivity |].
  split; [exact Hmean |].
  split.
  { change (nne mean 0 = true). destruct mean as [m |] eqn:Hm; [| reflexivity].
    cbn [nne]. apply negb_true_iff, not_true_iff_false. intros H0.
    apply deq_true in H0. specialize (Hmean m eq_refl). lra. }
  split; [reflexivity |].
  match goal with
  | |- context [scanState_ (?X <| last_agc_status := _ |> <| last_mean := _ |>)] =>
      change (scanState_ (X <| last_agc_status := lk |> <| last_mean := mean |>))
        with (scanState_ X);
      change (ftarget_ (X <| last_agc_status := lk |> <| last_mean := mean |>))
        with (ftarget_ X);
      change (fsmooth_ (X <| last_agc_status := lk |> <| last_mean := mean |>))
        with (fsmooth_ X);
      change (scanData_ (X <| last_agc_status := lk |> <| last_mean := mean |>))
        with (scanData_ X)
  end.
  assert (Hscan : forall x, scanState_ (startProgrammedScan x) = ScanState.Coarse)
    by reflexivity.
  split.
  - intros [Hl | Hz]; rewrite ?Hl, ?Hz, ?andb_false_r; cbn [andb];
      repeat split; reflexivity.
  - destruct (lk && nne (last_mean s) 0); [| intros H; contradiction H; reflexivity].
    cbv zeta.
    destruct (trigger_when_stable _ && _); [intros _; apply Hscan |].
    destruct (negb _ && lk); [intros _; apply Hscan |].
    destruct (ngt _ _); intros H; contradiction H; reflexivity.
Qed.

Lemma sceneMonitor_guard_witness :
  let st := {| focusRegions := RegionStats.mk (Size.mk 0 0) [];
               awbRegions := RegionStats.mk (Size.mk 1 1)
                 [RegionStats.mkRegion {| rSum := 0; gSum := 6400; bSum := 0; ySum := 0 |}
                    100] |} in
  let s := (Af_new CfgParams_default Unset_zero)
             <| imageMetadata_ := Some noMetadata |> <| stats_ := Some st |> in
  exists s', sceneMonitor s = Some s' /\
    nne (last_mean s') 0 = true /\ last_agc_status s' = agcLocked s /\
    scanState_ s' = scanState_ s.
Proof.
  intros st s. destruct (sceneMonitor s) as [s' |] eqn:H; [| vm_compute in H; discriminate].
  exists s'. split; [reflexivity |].
  destruct (sceneMonitor_guard s s' H) as (_ & _ & Hne & Hagc & Hidle & _).
  split; [exact Hne | split; [exact Hagc |]].
  apply Hidle. left. reflexivity.
Defined.

(** ** The fall-back from the PDAF loop to a scan *)

Lemma doAF_pdaf_drop (c p cf : double) (s : Af) :
  scanState_ s = ScanState.Pdaf -> skipCount_ s = 0 ->
  0 <= dropCount_ s < 2 ^ 32 - 1 ->
  (cf <= (if dropCount_ s =? 0 then 1 # 4 else 1) * of_int (confEpsilon (cfg_ s)))%Q ->
  doAF c p cf s =
    Some (let s1 := s <| dropCount_ := dropCount_ s + 1 |> in
          if dropCount_ s + 1 =? dropoutFrames (speedParams s)
          then startProgrammedScan s1 else s1).
Proof.
  intros Hst Hskip Hd Hcf. unfold doAF. rewrite Hskip, Hst. cbn [Z.ltb Z.compare].
  rewrite (bool_decide_eq_false_2 (ScanState.Pdaf = ScanState.Idle)) by discriminate.
  rewrite andb_false_r.
  destruct (decide (ScanState.Pdaf = ScanState.Pdaf)) as [_ |]; [| congruence].
  unfold pdafStep. apply dlt_false in Hcf. rewrite Hcf. cbv zeta.
  rewrite u32_small by lia. reflexivity.
Qed.

Lemma startProgrammedScan_fields (s : Af) :
  let s' := startProgrammedScan s in
  scanState_ s' = ScanState.Coarse /\ scanData_ s' = [] /\
  reportState_ s' = AfState.Scanning /\
  stepCount_ s' = stepFrames (speedParams s) /\
  ((focusMin (rangeParams s) <= focusMax (rangeParams s))%Q ->
   ftarget_ s' = focusMin (rangeParams s)).
Proof.
  cbv zeta. unfold startProgrammedScan. cbv zeta. af_simpl.
  split; [reflexivity | split; [reflexivity | split; [reflexivity |]]].
  unfold updateLensPosition. cbv zeta. af_simpl.
  assert (Hc : (focusMin (rangeParams s) <= focusMax (rangeParams s))%Q ->
               dclamp (focusMin (rangeParams s)) (focusMin (rangeParams s))
                 (focusMax (rangeParams s)) = focusMin (rangeParams s)).
  { intros Hle. unfold dclamp. rewrite dlt_irrefl_eq by reflexivity.
    destruct (dlt _ _) eqn:Hx; [| reflexivity]. apply dlt_true in Hx. lra. }
  unfold rangeParams, speedParams in *.
  destruct (ScanState.geb (scanState_ s) ScanState.Pdaf); af_simpl;
    destruct (initted_ s); af_simpl; (split; [reflexivity |]); auto.
Qed.

(** X14.  In the PDAF loop, frames of low confidence are counted and
    otherwise ignored until [dropoutFrames] of them have come in a row;
    the frame that completes the count starts a programmed scan from the
    near end of the range.  Once a frame has been dropped, a confidence
    of up to [confEpsilon] no longer resumes the loop, where a quarter
    of it would have sufficed before. *)
Theorem doAF_dropout (fs : list (double * double * double)) (s : Af) :
  scanState_ s = ScanState.Pdaf -> skipCount_ s = 0 ->
  0 <= dropCount_ s ->
  dropCount_ s + Z.of_nat (length fs) <= dropoutFrames (speedParams s) < 2 ^ 32 ->
  lowConfidence s fs ->
  exists s', doAFs fs s = Some s' /\
    if (dropCount_ s + Z.of_nat (length fs) <? dropoutFrames (speedParams s)) || isEmpty fs
    then scanState_ s' = ScanState.Pdaf /\
         dropCount_ s' = dropCount_ s + Z.of_nat (length fs) /\
         ftarget_ s' = ftarget_ s /\ fsmooth_ s' = fsmooth_ s /\
         reportState_ s' = reportState_ s
    else scanState_ s' = ScanState.Coarse /\ scanData_ s' = [] /\
         reportState_ s' = AfState.Scanning /\
         stepCount_ s' = stepFrames (speedParams s) /\
         ((focusMin (rangeParams s) <= focusMax (rangeParams s))%Q ->
          ftarget_ s' = focusMin (rangeParams s)).
Proof.
  revert s. induction fs as [| [[c p] cf] fs IH]; intros s Hst Hskip Hd0 Hn [Hall Hfirst].
  - exists s. split; [reflexivity |]. rewrite orb_true_r. cbn [length Z.of_nat].
    repeat split; try reflexivity; try assumption. lia.
  - cbn [doAFs length isEmpty] in Hn |- *. rewrite orb_false_r.
    rewrite Nat2Z.inj_succ in *. unfold Z.succ in *.
    inversion Hall as [| f fs' Hcf Hrest]; subst. cbn [snd] in Hcf.
    rewrite doAF_pdaf_drop; [| assumption | assumption | lia |].
    2:{ destruct (dropCount_ s =? 0) eqn:Hz.
        - apply Z.eqb_eq in Hz. exact (Hfirst Hz).
        - lra. }
    cbn [mbind option_bind]. cbv zeta.
    destruct (dropCount_ s + 1 =? dropoutFrames (speedParams s)) eqn:Hend.
    + apply Z.eqb_eq in Hend.
      assert (fs = []) by (destruct fs; [reflexivity | cbn [length] in Hn; lia]).
      subst fs. cbn [doAFs length]. change (Z.of_nat 0) with 0.
      replace (dropCount_ s + (0 + 1) <? dropoutFrames (speedParams s)) with false
        by (symmetry; apply Z.ltb_ge; lia).
      eexists. split; [reflexivity |]. cbn [orb].
      exact (startProgrammedScan_fields (s <| dropCount_ := dropCount_ s + 1 |>)).
    + apply Z.eqb_neq in Hend.
      set (s1 := s <| dropCount_ := dropCount_ s + 1 |>).
      destruct (IH s1) as (s' & Hrun & Hres).
      * exact Hst.
      * exact Hskip.
      * cbn. lia.
      * change (dropCount_ s1) with (dropCount_ s + 1).
        change (speedParams s1) with (speedParams s). lia.
      * split; [exact Hrest |]. change (dropCount_ s1) with (dropCount_ s + 1). lia.
      * exists s'. split; [exact Hrun |].
        change (dropCount_ s1) with (dropCount_ s + 1) in Hres.
        change (speedParams s1) with (speedParams s) in Hres.
        change (rangeParams s1) with (rangeParams s) in Hres.
        change (ftarget_ s1) with (ftarget_ s) in Hres.
        change (fsmooth_ s1) with (fsmooth_ s) in Hres.
        change (reportState_ s1) with (reportState_ s) in Hres.
        replace (dropCount_ s + (Z.of_nat (length fs) + 1))
          with (dropCount_ s + 1 + Z.of_nat (length fs)) by lia.
        destruct (dropCount_ s + 1 + Z.of_nat (length fs) <? dropoutFrames (speedParams s))
          eqn:Hlt.
        -- cbn [orb] in Hres |- *. exact Hres.
        -- destruct fs as [| f0 fs0].
           ++ cbn [length Z.of_nat] in *. apply Z.ltb_ge in Hlt. lia.
           ++ cbn [isEmpty orb] in Hres |- *. exact Hres.
Qed.

Lemma doAF_dropout_witness :
  let s := (Af_new CfgParams_default Unset_zero) <| scanState_ := ScanState.Pdaf |> in
  let fs := replicate 6 (0%Q, 0%Q, 0%Q) in
  exists s', doAFs fs s = Some s' /\
    scanState_ s' = ScanState.Coarse /\ scanData_ s' = [] /\
    reportState_ s' = AfState.Scanning.
Proof.
  intros s fs.
  assert (Hlow : lowConfidence s fs).
  { split; [repeat constructor; vm_compute; discriminate |].
    intros _. vm_compute. discriminate. }
  destruct (doAF_dropout fs s eq_refl eq_refl) as (s' & Hrun & Hres);
    [vm_compute; discriminate | vm_compute; split; [discriminate | reflexivity] | exact Hlow |].
  exists s'. split; [exact Hrun |].
  change ((dropCount_ s + Z.of_nat (length fs) <? dropoutFrames (speedParams s))
          || isEmpty fs) with false in Hres.
  destruct Hres as (H1 & H2 & H3 & _). auto.
Defined.

(** ** The cached weights are current *)

Lemma gridFixed_refl (s : Af) : gridFixed s s.
Proof. unfold gridFixed. auto. Qed.

Lemma gridFixed_trans (s1 s2 s3 : Af) :
  gridFixed s1 s2 -> gridFixed s2 s3 -> gridFixed s1 s3.
Proof.
  unfold gridFixed. intros (A1 & A2 & A3) (B1 & B2 & B3). repeat split; congruence.
Qed.

(** Closes a goal [gridFixed s e] for an expression [e] without
    conditions. *)
Ltac grid_done := unfold gridFixed; repeat split; reflexivity.

Lemma computeWeights_grid (s s' : Af) (rows cols : Z) :
  statsRegion_ s' = statsRegion_ s -> useWindows_ s' = useWindows_ s ->
  (useWindows_ s = true -> windows_ s' = windows_ s) ->
  computeWeights s' rows cols = computeWeights s rows cols.
Proof.
  intros Hr Hu Hw. unfold computeWeights, windowWeights. rewrite Hr, Hu.
  destruct (useWindows_ s).
  - rewrite (Hw eq_refl). reflexivity.
  - rewrite !andb_false_r. cbn [andb]. reflexivity.
Qed.

Lemma cacheOk_fixed (s s' : Af) :
  cacheOk s -> gridFixed s s' -> weightsFixed s s' -> cacheOk s'.
Proof.
  unfold cacheOk, cachedGrid. intros [Hp Hc] (Hr & Hu & Hw) [Hpw Hcw].
  rewrite Hpw, Hcw.
  split; intros Hsum; rewrite (computeWeights_grid s s') by auto; auto.
Qed.

Lemma cacheOk_invalid (s : Af) :
  RegionWeights.sum (phaseWeights_ s) = 0 ->
  RegionWeights.sum (contrastWeights_ s) = 0 -> cacheOk s.
Proof. intros Hp Hc. split; intros H; contradiction. Qed.

Lemma updateLensPosition_grid (s : Af) : gridFixed s (updateLensPosition s).
Proof. unfold updateLensPosition. repeat break_if; grid_done. Qed.

Lemma startProgrammedScan_grid (s : Af) : gridFixed s (startProgrammedScan s).
Proof.
  unfold startProgrammedScan.
  apply gridFixed_trans with
    (s2 := updateLensPosition (s <| ftarget_ := focusMin (rangeParams s) |>));
    [| grid_done].
  apply gridFixed_trans with (s2 := s <| ftarget_ := focusMin (rangeParams s) |>);
    [grid_done | apply updateLensPosition_grid].
Qed.

Lemma startAF_grid (s : Af) : gridFixed s (startAF s).
Proof.
  unfold startAF. destruct (_ && _); [| apply startProgrammedScan_grid].
  destruct (initted_ s); [grid_done |].
  match goal with
  | |- gridFixed s (?X <| _ := _ |> <| _ := _ |> <| _ := _ |> <| _ := _ |> <| _ := _ |>) =>
      apply gridFixed_trans with (s2 := X); [| grid_done]
  end.
  apply gridFixed_trans with (s2 := s <| ftarget_ := focusDefault (rangeParams s) |>);
    [grid_done | apply updateLensPosition_grid].
Qed.

Lemma doPDAF_grid (ph cf : double) (s : Af) : gridFixed s (doPDAF ph cf s).
Proof. unfold doPDAF. repeat break_if; grid_done. Qed.

Lemma pdafStep_grid (ph cf : double) (s : Af) : gridFixed s (pdafStep ph cf s).
Proof.
  unfold pdafStep. destruct (dlt _ cf).
  - apply gridFixed_trans with (s2 := doPDAF ph cf s); [apply doPDAF_grid |].
    repeat break_if; grid_done.
  - cbv zeta. break_if; [| grid_done].
    eapply gridFixed_trans; [| apply startProgrammedScan_grid]. grid_done.
Qed.

Lemma sceneMonitor_grid (s s' : Af) : sceneMonitor s = Some s' -> gridFixed s s'.
Proof.
  unfold sceneMonitor.
  destruct (imageMetadata_ s) as [md |]; [| discriminate].
  destruct (stats_ s) as [st |]; [| discriminate].
  cbn [mbind option_bind]. intros [= <-].
  match goal with
  | |- gridFixed s (?X <| _ := _ |> <| _ := _ |>) =>
      apply gridFixed_trans with (s2 := X); [| grid_done]
  end.
  repeat break_if;
    match goal with
    | |- gridFixed _ (startProgrammedScan ?x) =>
        apply gridFixed_trans with (s2 := x);
          [grid_done | apply startProgrammedScan_grid]
    | |- _ => grid_done
    end.
Qed.

Lemma doScan_grid (c p cf : double) (s s' : Af) :
  doScan c p cf s = Some s' -> gridFixed s s'.
Proof.
  unfold doScan.
  assert (Hrec : gridFixed s (recordScan c p cf s))
    by (unfold recordScan; repeat break_if; grid_done).
  set (s1 := recordScan c p cf s) in *. clearbody s1.
  cbv zeta.
  destruct (decide (scanState_ s1 = ScanState.Coarse));
    destruct (_ || _); try destruct (findPeak _ s1);
    cbn [mbind option_bind]; intros H; try discriminate; injection H as <-;
    (eapply gridFixed_trans; [exact Hrec | grid_done]).
Qed.

Lemma doAF_grid (c p cf : double) (s s' : Af) :
  doAF c p cf s = Some s' -> gridFixed s s'.
Proof.
  unfold doAF.
  destruct (0 <? skipCount_ s); [intros [= <-]; grid_done |].
  destruct (_ && bool_decide (scanState_ s = ScanState.Idle));
    [apply sceneMonitor_grid |].
  destruct (decide (scanState_ s = ScanState.Pdaf));
    [intros [= <-]; apply pdafStep_grid |].
  destruct (_ && deq _ _); [| intros [= <-]; grid_done].
  destruct (0 <? stepCount_ s); [intros [= <-]; grid_done |].
  destruct (decide (scanState_ s = ScanState.Settle)).
  { intros [= <-]. unfold settle. repeat break_if; grid_done. }
  destruct (dle _ cf); [| apply doScan_grid].
  assert (Het : gridFixed s (earlyTerminationByPhase p s).1)
    by (unfold earlyTerminationByPhase; repeat break_if; grid_done).
  destruct (earlyTerminationByPhase p s) as [s1 ok]. cbn [fst] in Het.
  destruct ok.
  - intros [= <-]. eapply gridFixed_trans; [exact Het | grid_done].
  - intros H. eapply gridFixed_trans; [exact Het | eapply doScan_grid, H].
Qed.

Lemma staleWeights_false (size : Size.t) (wg : RegionWeights.t) :
  staleWeights size wg = false ->
  RegionWeights.rows wg = Size.height size /\ RegionWeights.cols wg = Size.width size /\
  RegionWeights.sum wg <> 0.
Proof.
  unfold staleWeights. intros H.
  apply orb_false_iff in H as [H Hs]. apply orb_false_iff in H as [Hr Hc].
  apply negb_false_iff, Z.eqb_eq in Hr. apply negb_false_iff, Z.eqb_eq in Hc.
  apply Z.eqb_neq in Hs. auto.
Qed.

Lemma getPhase_cache (regions : PdafRegions) (s s' : Af) (ok : bool) (ph cf : double) :
  cacheOk s -> getPhase regions s = Some (s', ok, ph, cf) ->
  cacheOk s' /\ gridFixed s s' /\
  phaseWeights_ s' = computeWeights s (Size.height (RegionStats.size regions))
                                      (Size.width (RegionStats.size regions)).
Proof.
  intros [Hp Hc]. unfold getPhase. cbv zeta.
  set (h := Size.height (RegionStats.size regions)).
  set (w := Size.width (RegionStats.size regions)).
  set (s1 := if staleWeights _ _ then _ else s).
  assert (H1 : cacheOk s1 /\ gridFixed s s1 /\ phaseWeights_ s1 = computeWeights s h w).
  { unfold s1. destruct (staleWeights _ _) eqn:Hst.
    - destruct (computeWeights_wf s h w) as (Hr & Hcl & _).
      split; [| split; [grid_done | reflexivity]].
      split; unfold cachedGrid; af_simpl.
      + intros _. rewrite Hr, Hcl. symmetry. apply computeWeights_grid; reflexivity.
      + intros Hs. rewrite (Hc Hs) at 1. symmetry. apply computeWeights_grid; reflexivity.
    - split; [split; assumption | split; [apply gridFixed_refl |]].
      apply staleWeights_false in Hst as (Hr & Hcl & Hs).
      rewrite (Hp Hs) at 1. rewrite Hr, Hcl. reflexivity. }
  clearbody s1.
  destruct (phaseLoop _ _ _ _ _ _) as [[sumWc sumWcp] |]; [| discriminate].
  cbn [mbind option_bind]. destruct (_ && _); intros [= <- _ _ _]; exact H1.
Qed.

Lemma getContrast_cache (focusStats : FocusRegions) (s s' : Af) (c : double) :
  cacheOk s -> getContrast focusStats s = Some (s', c) ->
  cacheOk s' /\ gridFixed s s' /\
  contrastWeights_ s' = computeWeights s (Size.height (RegionStats.size focusStats))
                                         (Size.width (RegionStats.size focusStats)).
Proof.
  intros [Hp Hc]. unfold getContrast. cbv zeta.
  set (h := Size.height (RegionStats.size focusStats)).
  set (w := Size.width (RegionStats.size focusStats)).
  set (s1 := if staleWeights _ _ then _ else s).
  assert (H1 : cacheOk s1 /\ gridFixed s s1 /\ contrastWeights_ s1 = computeWeights s h w).
  { unfold s1. destruct (staleWeights _ _) eqn:Hst.
    - destruct (computeWeights_wf s h w) as (Hr & Hcl & _).
      split; [| split; [grid_done | reflexivity]].
      split; unfold cachedGrid; af_simpl.
      + intros Hs. rewrite (Hp Hs) at 1. symmetry. apply computeWeights_grid; reflexivity.
      + intros _. rewrite Hr, Hcl. symmetry. apply computeWeights_grid; reflexivity.
    - split; [split; assumption | split; [apply gridFixed_refl |]].
      apply staleWeights_false in Hst as (Hr & Hcl & Hs).
      rewrite (Hc Hs) at 1. rewrite Hr, Hcl. reflexivity. }
  clearbody s1.
  destruct (contrastLoop _ _ _ _ _) as [sumWc |]; [| discriminate].
  cbn [mbind option_bind]. intros [= <- _]. exact H1.
Qed.

Lemma prepare_cache (md md' : Metadata) (s s' : Af) :
  cacheOk s -> prepare md s = Some (s', md') ->
  cacheOk s' /\ gridFixed s s' /\
  (forall regions, pdaf_regions md = Some regions -> initted_ s' = true ->
     phaseWeights_ s' = computeWeights s (Size.height (RegionStats.size regions))
                                         (Size.width (RegionStats.size regions))).
Proof.
  intros Hok. unfold prepare.
  set (s0 := if decide (scanState_ s = ScanState.Trigger) then startAF s else s).
  assert (H0 : gridFixed s s0 /\ weightsFixed s s0).
  { unfold s0. destruct (decide _).
    - split; [apply startAF_grid | apply startAF_weights].
    - split; [apply gridFixed_refl | split; reflexivity]. }
  destruct H0 as [Hg0 Hw0].
  assert (Hok0 : cacheOk s0) by (eapply cacheOk_fixed; eassumption).
  clearbody s0.
  destruct (initted_ s0) eqn:Hi0.
  2:{ cbn [mbind option_bind]. intros [= <- _].
      split; [exact Hok0 | split; [exact Hg0 | congruence]]. }
  set (sm := s0 <| imageMetadata_ := Some md |>).
  assert (Hgm : gridFixed s sm) by exact Hg0.
  assert (Hokm : cacheOk sm) by exact Hok0.
  clearbody sm.
  destruct (pdaf_regions md) as [regions |]; cbn [mbind option_bind].
  - destruct (getPhase regions sm) as [[[[s1 ok] ph] cf] |] eqn:Hget; [| discriminate].
    cbn [mbind option_bind].
    destruct (getPhase_cache _ _ _ _ _ _ Hokm Hget) as (Hok1 & Hg1 & Hpw).
    destruct (doAF _ ph cf _) as [s2 |] eqn:HdoAF; [| discriminate].
    cbn [mbind option_bind]. intros [= <- _].
    assert (Hg2 : gridFixed s1 (updateLensPosition s2)).
    { eapply gridFixed_trans; [| apply updateLensPosition_grid].
      eapply gridFixed_trans; [| eapply doAF_grid; exact HdoAF]. grid_done. }
    assert (Hw2 : weightsFixed s1 (updateLensPosition s2)).
    { eapply weightsFixed_trans; [| apply updateLensPosition_weights].
      eapply weightsFixed_trans; [| eapply doAF_weights; exact HdoAF].
      split; reflexivity. }
    split; [eapply cacheOk_fixed; eassumption |].
    split; [eapply gridFixed_trans; [| exact Hg2]; eapply gridFixed_trans; eassumption |].
    intros regions' [= <-] _. destruct Hw2 as [-> _]. rewrite Hpw.
    destruct Hgm as (Hr & Hu & Hw). apply computeWeights_grid; auto.
  - destruct (doAF _ 0 0 sm) as [s2 |] eqn:HdoAF; [| discriminate].
    cbn [mbind option_bind]. intros [= <- _].
    assert (Hg2 : gridFixed sm (updateLensPosition s2)).
    { eapply gridFixed_trans; [eapply doAF_grid; exact HdoAF |].
      apply updateLensPosition_grid. }
    assert (Hw2 : weightsFixed sm (updateLensPosition s2)).
    { eapply weightsFixed_trans; [eapply doAF_weights; exact HdoAF |].
      apply updateLensPosition_weights. }
    split; [eapply cacheOk_fixed; eassumption |].
    split; [eapply gridFixed_trans; eassumption | discriminate].
Qed.

Lemma process_cache (stats : Statistics) (s s' : Af) :
  cacheOk s -> process stats s = Some s' ->
  cacheOk s' /\
  contrastWeights_ s' =
    computeWeights s (Size.height (RegionStats.size (focusRegions stats)))
                     (Size.width (RegionStats.size (focusRegions stats))).
Proof.
  intros Hok. unfold process.
  destruct (getContrast _ s) as [[s1 c] |] eqn:Hc; [| discriminate].
  cbn [mbind option_bind]. intros [= <-].
  destruct (getContrast_cache _ _ _ _ Hok Hc) as (Hok1 & _ & Hcw).
  split; [| exact Hcw].
  eapply cacheOk_fixed; [exact Hok1 | grid_done | split; reflexivity].
Qed.

Lemma step_cache (s s' : Af) : step s s' -> cacheOk s -> cacheOk s'.
Proof.
  intros Hstep Hok. destruct Hstep.
  - destruct (switchMode_weights cm s) as (s1 & Hp & Hc).
    apply cacheOk_invalid; [rewrite Hp | rewrite Hc]; reflexivity.
  - eapply prepare_cache; eassumption.
  - eapply process_cache; eassumption.
  - unfold setRange. break_if; [| exact Hok].
    eapply cacheOk_fixed; [exact Hok | grid_done | split; reflexivity].
  - unfold setSpeed. repeat break_if; try exact Hok;
      (eapply cacheOk_fixed; [exact Hok | grid_done | split; reflexivity]).
  - unfold setMetering. break_if; [exact Hok |]. apply cacheOk_invalid; reflexivity.
  - unfold setWindows. cbv zeta.
    change (useWindows_ (s <| windows_ := copyWindows [] ws |>)) with (useWindows_ s).
    destruct (useWindows_ s) eqn:Hu; [apply cacheOk_invalid; reflexivity |].
    destruct Hok as [Hp Hc].
    split; unfold cachedGrid; af_simpl; intros Hs;
      rewrite (computeWeights_grid s) by (try reflexivity; rewrite Hu; discriminate);
      auto.
  - unfold setLensPosition. destruct (decide _); cbn [fst]; [| exact Hok].
    eapply cacheOk_fixed; [exact Hok | |].
    + eapply gridFixed_trans; [| apply updateLensPosition_grid]. grid_done.
    + eapply weightsFixed_trans; [| apply updateLensPosition_weights]. split; reflexivity.
  - unfold cancelScan. break_if; [| exact Hok].
    eapply cacheOk_fixed; [exact Hok | grid_done | split; reflexivity].
  - unfold triggerScan. break_if; [| exact Hok].
    eapply cacheOk_fixed; [exact Hok | grid_done | split; reflexivity].
  - unfold setMode. repeat break_if; try exact Hok;
      (eapply cacheOk_fixed; [exact Hok | unfold goIdle; grid_done | split; reflexivity]).
  - unfold pause. repeat break_if; try exact Hok;
      (eapply cacheOk_fixed; [exact Hok | unfold goIdle; grid_done | split; reflexivity]).
Qed.

Lemma reachable_cache (cfg : CfgParams) (s : Af) : reachable cfg s -> cacheOk s.
Proof.
  induction 1 as [u | s s' _ IH Hstep]; [apply cacheOk_invalid; reflexivity |].
  eapply step_cache; eassumption.
Qed.

(** X15.  The weights that are kept between frames are never out of
    date.  In every reachable state a grid that is not invalidated is the
    one that [computeWeights] yields for the present windows, metering
    mode and statistics region; so [process] leaves the contrast weights
    of the present configuration in the state, and so does [prepare] for
    the phase weights, on every frame with PDAF data once the lens
    position is known. *)
Theorem weights_cache_coherent (cfg : CfgParams) (s : Af) :
  reachable cfg s ->
  cachedGrid s (phaseWeights_ s) /\ cachedGrid s (contrastWeights_ s) /\
  (forall stats s', process stats s = Some s' ->
     contrastWeights_ s' =
       computeWeights s' (Size.height (RegionStats.size (focusRegions stats)))
                         (Size.width (RegionStats.size (focusRegions stats)))) /\
  (forall md regions s' md',
     prepare md s = Some (s', md') -> pdaf_regions md = Some regions ->
     initted_ s' = true ->
     phaseWeights_ s' = computeWeights s' (Size.height (RegionStats.size regions))
                                          (Size.width (RegionStats.size regions))).
Proof.
  intros Hr. pose proof (reachable_cache cfg s Hr) as Hok.
  split; [apply Hok | split; [apply Hok |]]. split.
  - intros stats s' Hp. destruct (process_cache stats s s' Hok Hp) as [_ Hcw].
    rewrite Hcw. symmetry. revert Hp. unfold process.
    destruct (getContrast _ s) as [[s1 c] |] eqn:Hc; [| discriminate].
    cbn [mbind option_bind]. intros [= <-].
    destruct (getContrast_cache _ _ _ _ Hok Hc) as (_ & (Hg1 & Hg2 & Hg3) & _).
    apply computeWeights_grid; auto.
  - intros md regions s' md' Hp Hreg Hi.
    destruct (prepare_cache md md' s s' Hok Hp) as (_ & (Hg1 & Hg2 & Hg3) & Hpw).
    rewrite (Hpw regions Hreg Hi). symmetry. apply computeWeights_grid; auto.
Qed.

Lemma weights_cache_coherent_witness :
  exists s', process (statsAt 1) (setMetering true (Af_new CfgParams_default Unset_zero)) =
               Some s' /\
             contrastWeights_ s' = computeWeights s' 1 1.
Proof.
  destruct (process (statsAt 1) _) as [s' |] eqn:Hp; [| vm_compute in Hp; discriminate].
  exists s'. split; [reflexivity |].
  refine (proj1 (proj2 (proj2 (weights_cache_coherent CfgParams_default
            (setMetering true (Af_new CfgParams_default Unset_zero)) _))) (statsAt 1) s' Hp).
  repeat (eapply reachable_step; [| constructor]). apply reachable_new.
Defined.

(** ** A frame completes *)

Lemma fusion_weights_length {T : Type} (regions : RegionStats.t T) (s : Af)
    (wg : RegionWeights.t) :
  wfGrid regions -> wfWeights wg ->
  length (RegionWeights.w
            (if staleWeights (RegionStats.size regions) wg
             then computeWeights s (Size.height (RegionStats.size regions))
                                   (Size.width (RegionStats.size regions))
             else wg)) = RegionStats.numRegions regions.
Proof.
  intros (Hh & Hw & Hsize & Hnum) Hwf. rewrite Hnum.
  rewrite <- (u32_small (Size.height _ * Size.width _)) by nia.
  destruct (staleWeights _ wg) eqn:Hstale.
  - destruct (computeWeights_wf s (Size.height (RegionStats.size regions))
                (Size.width (RegionStats.size regions))) as (Hr & Hc & Hl).
    unfold wfWeights in Hl. rewrite Hr, Hc in Hl. exact Hl.
  - apply staleWeights_false in Hstale as (Hr & Hc & _).
    rewrite <- Hr, <- Hc. exact Hwf.
Qed.

Lemma getPhase_total (regions : PdafRegions) (s : Af) :
  wfGrid regions -> wfWeights (phaseWeights_ s) -> is_Some (getPhase regions s).
Proof.
  intros Hgrid Hwf. unfold getPhase. cbv zeta.
  set (s1 := if staleWeights _ _ then _ else s).
  assert (Hlen : length (RegionWeights.w (phaseWeights_ s1)) =
                 RegionStats.numRegions regions).
  { rewrite <- (fusion_weights_length regions s (phaseWeights_ s) Hgrid Hwf).
    unfold s1. destruct (staleWeights _ _); reflexivity. }
  clearbody s1. change (0, 0) with (u32 0, s64 0).
  rewrite phaseLoop_sums by (cbn [Nat.add]; congruence).
  cbn [mbind option_bind]. destruct (_ && _); eauto.
Qed.

Lemma contrastLoop_total (W : list Z) (focusStats : FocusRegions) (n i : nat) (a : Z) :
  (i + n <= length W)%nat -> (i + n <= RegionStats.numRegions focusStats)%nat ->
  is_Some (contrastLoop W focusStats i n a).
Proof.
  revert i a. induction n as [| n IH]; intros i a HW Hn; cbn [contrastLoop]; [eauto |].
  destruct (lookup_lt_is_Some_2 W i) as [w ->]; [lia |].
  unfold RegionStats.get, RegionStats.numRegions in *.
  destruct (lookup_lt_is_Some_2 (RegionStats.regions focusStats) i) as [r ->]; [lia |].
  cbn [mbind option_bind]. apply IH; lia.
Qed.

Lemma getContrast_total (focusStats : FocusRegions) (s : Af) :
  wfGrid focusStats -> wfWeights (contrastWeights_ s) ->
  is_Some (getContrast focusStats s).
Proof.
  intros Hgrid Hwf. unfold getContrast. cbv zeta.
  set (s1 := if staleWeights _ _ then _ else s).
  assert (Hlen : length (RegionWeights.w (contrastWeights_ s1)) =
                 RegionStats.numRegions focusStats).
  { rewrite <- (fusion_weights_length focusStats s (contrastWeights_ s) Hgrid Hwf).
    unfold s1. destruct (staleWeights _ _); reflexivity. }
  clearbody s1.
  destruct (contrastLoop_total (RegionWeights.w (contrastWeights_ s1)) focusStats
              (RegionStats.numRegions focusStats) 0 0) as [sumWc ->];
    [cbn [Nat.add]; lia | cbn [Nat.add]; lia |].
  cbn [mbind option_bind]. eauto.
Qed.

Lemma doAF_total (c p cf : double) (s : Af) :
  scanIndexOk s -> is_Some (imageMetadata_ s) -> monitorReady s ->
  is_Some (doAF c p cf s).
Proof.
  intros Hok [md Hmd] Hready. unfold doAF.
  destruct (0 <? skipCount_ s); [eauto |].
  destruct (_ && bool_decide (scanState_ s = ScanState.Idle)) eqn:Hmon.
  { apply andb_true_iff in Hmon as [Hmon Hidle].
    apply andb_true_iff in Hmon as [Hmode Hpdaf].
    apply bool_decide_eq_true in Hmode, Hidle. apply negb_true_iff in Hpdaf.
    destruct (Hready Hmode Hidle Hpdaf) as [st Hst].
    unfold sceneMonitor. rewrite Hmd, Hst. cbn [mbind option_bind]. eauto. }
  destruct (decide (scanState_ s = ScanState.Pdaf)); [eauto |].
  destruct (_ && deq _ _); [| eauto].
  destruct (0 <? stepCount_ s); [eauto |].
  destruct (decide (scanState_ s = ScanState.Settle)); [eauto |].
  assert (HdoScan : forall s1, scanIndexOk s1 -> is_Some (doScan c p cf s1)).
  { intros s1 H1. destruct (doScan_scan c p cf s1 H1) as (s2 & H2 & _). eauto. }
  destruct (dle _ cf); [| apply HdoScan, Hok].
  pose proof (earlyTerminationByPhase_scan p s) as Het.
  destruct (earlyTerminationByPhase p s) as [s1 ok]. cbn [fst] in Het.
  destruct ok; [eauto |]. apply HdoScan. eapply scanIndexOk_fixed; eassumption.
Qed.

Lemma startAF_not_idle (s : Af) : scanState_ (startAF s) <> ScanState.Idle.
Proof. unfold startAF. repeat break_if; discriminate. Qed.

Lemma getPhase_metadata (regions : PdafRegions) (s s' : Af) (ok : bool) (ph cf : double) :
  getPhase regions s = Some (s', ok, ph, cf) -> imageMetadata_ s' = imageMetadata_ s.
Proof.
  unfold getPhase.
  set (s1 := if staleWeights _ _ then _ else s).
  assert (H1 : imageMetadata_ s1 = imageMetadata_ s)
    by (unfold s1; destruct (staleWeights _ _); reflexivity).
  destruct (phaseLoop _ _ _ _ _ _) as [[sumWc sumWcp] |]; [| discriminate].
  cbn [mbind option_bind]. destruct (_ && _); intros [= <- _ _ _]; exact H1.
Qed.

Lemma prepare_total (md : Metadata) (s : Af) :
  scanIndexOk s -> weightsOk s -> monitorReady s ->
  (forall regions, pdaf_regions md = Some regions -> wfGrid regions) ->
  is_Some (prepare md s).
Proof.
  intros Hok Hwf Hst Hgrid. unfold prepare.
  set (s0 := if decide (scanState_ s = ScanState.Trigger) then startAF s else s).
  assert (H0 : scanIndexOk s0 /\ weightsOk s0 /\ monitorReady s0).
  { unfold s0. destruct (decide _); [| auto].
    split; [left; apply startAF_scan |].
    split; [eapply weightsOk_fixed; [exact Hwf | apply startAF_weights] |].
    intros _ Hidle. contradiction (startAF_not_idle s Hidle). }
  destruct H0 as (Hok0 & Hwf0 & Hst0). clearbody s0.
  destruct (initted_ s0); [| cbn [mbind option_bind]; eauto].
  set (sm := s0 <| imageMetadata_ := Some md |>).
  assert (Hokm : scanIndexOk sm) by exact Hok0.
  assert (Hwfm : weightsOk sm) by exact Hwf0.
  assert (Hstm : monitorReady sm) by exact Hst0.
  assert (Hmdm : is_Some (imageMetadata_ sm)) by (unfold sm; af_simpl; eauto).
  clearbody sm.
  destruct (pdaf_regions md) as [regions |]; cbn [mbind option_bind].
  - destruct (getPhase_total regions sm (Hgrid regions eq_refl) (proj1 Hwfm))
      as [[[[s1 ok] ph] cf] Hget].
    rewrite Hget. cbn [mbind option_bind].
    pose proof (getPhase_metadata _ _ _ _ _ _ Hget) as Hm1.
    pose proof (getPhase_scan _ _ _ _ _ _ Hget) as Hsc1.
    destruct (doAF_total (prevContrast_ (s1 <| isPdafEnabled_ := true |>)) ph cf
                (s1 <| isPdafEnabled_ := true |>)) as [s2 HdoAF].
    + eapply scanIndexOk_fixed; [exact Hokm |].
      eapply scanFixed_trans; [exact Hsc1 | split; reflexivity].
    + change (is_Some (imageMetadata_ s1)). rewrite Hm1. exact Hmdm.
    + intros _ _ Hpdaf. discriminate Hpdaf.
    + rewrite HdoAF. cbn [mbind option_bind]. eauto.
  - destruct (doAF_total (prevContrast_ sm) 0 0 sm Hokm Hmdm Hstm) as [s2 HdoAF].
    rewrite HdoAF. cbn [mbind option_bind]. eauto.
Qed.

Lemma indexFixed_refl (s : Af) : indexFixed s s.
Proof. split; reflexivity. Qed.

Lemma indexFixed_trans (s1 s2 s3 : Af) :
  indexFixed s1 s2 -> indexFixed s2 s3 -> indexFixed s1 s3.
Proof. unfold indexFixed. intros [A1 A2] [B1 B2]. split; congruence. Qed.

Lemma indexOk_fixed (s s' : Af) : indexOk s -> indexFixed s s' -> indexOk s'.
Proof. unfold indexOk. intros H [-> ->]. exact H. Qed.

Lemma updateLensPosition_index (s : Af) : indexFixed s (updateLensPosition s).
Proof. unfold updateLensPosition. repeat break_if; split; reflexivity. Qed.

Lemma startProgrammedScan_index (s : Af) : indexFixed s (startProgrammedScan s).
Proof.
  unfold startProgrammedScan.
  apply indexFixed_trans with
    (s2 := updateLensPosition (s <| ftarget_ := focusMin (rangeParams s) |>));
    [| split; reflexivity].
  apply indexFixed_trans with (s2 := s <| ftarget_ := focusMin (rangeParams s) |>);
    [split; reflexivity | apply updateLensPosition_index].
Qed.

Lemma startAF_index (s : Af) : indexFixed s (startAF s).
Proof.
  unfold startAF. destruct (_ && _); [| apply startProgrammedScan_index].
  destruct (initted_ s); [split; reflexivity |].
  match goal with
  | |- indexFixed s (?X <| _ := _ |> <| _ := _ |> <| _ := _ |> <| _ := _ |> <| _ := _ |>) =>
      apply indexFixed_trans with (s2 := X); [| split; reflexivity]
  end.
  apply indexFixed_trans with (s2 := s <| ftarget_ := focusDefault (rangeParams s) |>);
    [split; reflexivity | apply updateLensPosition_index].
Qed.

Lemma doPDAF_index (ph cf : double) (s : Af) : indexFixed s (doPDAF ph cf s).
Proof. unfold doPDAF. repeat break_if; split; reflexivity. Qed.

Lemma pdafStep_index (ph cf : double) (s : Af) : indexFixed s (pdafStep ph cf s).
Proof.
  unfold pdafStep. destruct (dlt _ cf).
  - apply indexFixed_trans with (s2 := doPDAF ph cf s); [apply doPDAF_index |].
    repeat break_if; split; reflexivity.
  - cbv zeta. break_if; [| split; reflexivity].
    eapply indexFixed_trans; [| apply startProgrammedScan_index]. split; reflexivity.
Qed.

Lemma sceneMonitor_index (s s' : Af) : sceneMonitor s = Some s' -> indexFixed s s'.
Proof.
  unfold sceneMonitor.
  destruct (imageMetadata_ s) as [md |]; [| discriminate].
  destruct (stats_ s) as [st |]; [| discriminate].
  cbn [mbind option_bind]. intros [= <-].
  match goal with
  | |- indexFixed s (?X <| _ := _ |> <| _ := _ |>) =>
      apply indexFixed_trans with (s2 := X); [| split; reflexivity]
  end.
  repeat break_if;
    match goal with
    | |- indexFixed _ (startProgrammedScan ?x) =>
        apply indexFixed_trans with (s2 := x);
          [split; reflexivity | apply startProgrammedScan_index]
    | |- _ => split; reflexivity
    end.
Qed.

Lemma doScan_index (c p cf : double) (s s' : Af) :
  doScan c p cf s = Some s' -> indexFixed s s'.
Proof.
  unfold doScan.
  assert (Hrec : indexFixed s (recordScan c p cf s))
    by (unfold recordScan; repeat break_if; split; reflexivity).
  set (s1 := recordScan c p cf s) in *. clearbody s1.
  cbv zeta.
  destruct (decide (scanState_ s1 = ScanState.Coarse));
    destruct (_ || _); try destruct (findPeak _ s1);
    cbn [mbind option_bind]; intros H; try discriminate; injection H as <-;
    (eapply indexFixed_trans; [exact Hrec | split; reflexivity]).
Qed.

Lemma doAF_index (c p cf : double) (s s' : Af) :
  doAF c p cf s = Some s' -> indexFixed s s'.
Proof.
  unfold doAF.
  destruct (0 <? skipCount_ s); [intros [= <-]; split; reflexivity |].
  destruct (_ && bool_decide (scanState_ s = ScanState.Idle));
    [apply sceneMonitor_index |].
  destruct (decide (scanState_ s = ScanState.Pdaf));
    [intros [= <-]; apply pdafStep_index |].
  destruct (_ && deq _ _); [| intros [= <-]; split; reflexivity].
  destruct (0 <? stepCount_ s); [intros [= <-]; split; reflexivity |].
  destruct (decide (scanState_ s = ScanState.Settle)).
  { intros [= <-]. unfold settle. repeat break_if; split; reflexivity. }
  destruct (dle _ cf); [| apply doScan_index].
  assert (Het : indexFixed s (earlyTerminationByPhase p s).1)
    by (unfold earlyTerminationByPhase; repeat break_if; split; reflexivity).
  destruct (earlyTerminationByPhase p s) as [s1 ok]. cbn [fst] in Het.
  destruct ok.
  - intros [= <-]. eapply indexFixed_trans; [exact Het | split; reflexivity].
  - intros H. eapply indexFixed_trans; [exact Het | eapply doScan_index, H].
Qed.

Lemma getPhase_index (regions : PdafRegions) (s s' : Af) (ok : bool) (ph cf : double) :
  getPhase regions s = Some (s', ok, ph, cf) -> indexFixed s s'.
Proof.
  unfold getPhase.
  set (s1 := if staleWeights _ _ then _ else s).
  assert (H1 : indexFixed s s1)
    by (unfold s1; destruct (staleWeights _ _); split; reflexivity).
  destruct (phaseLoop _ _ _ _ _ _) as [[sumWc sumWcp] |]; [| discriminate].
  cbn [mbind option_bind]. destruct (_ && _); intros [= <- _ _ _]; exact H1.
Qed.

Lemma getContrast_index (focusStats : FocusRegions) (s s' : Af) (c : double) :
  getContrast focusStats s = Some (s', c) -> indexFixed s s'.
Proof.
  unfold getContrast.
  set (s1 := if staleWeights _ _ then _ else s).
  assert (H1 : indexFixed s s1)
    by (unfold s1; destruct (staleWeights _ _); split; reflexivity).
  destruct (contrastLoop _ _ _ _ _) as [sumWc |]; [| discriminate].
  cbn [mbind option_bind]. intros [= <- _]. exact H1.
Qed.

(** No statement of a frame writes [range_] or [speed_]. *)
Lemma prepare_index (md md' : Metadata) (s s' : Af) :
  prepare md s = Some (s', md') -> indexFixed s s'.
Proof.
  unfold prepare.
  set (s0 := if decide (scanState_ s = ScanState.Trigger) then startAF s else s).
  assert (H0 : indexFixed s s0).
  { unfold s0. destruct (decide _); [apply startAF_index | apply indexFixed_refl]. }
  clearbody s0.
  destruct (initted_ s0); [| cbn [mbind option_bind]; intros [= <- _]; exact H0].
  set (sm := s0 <| imageMetadata_ := Some md |>).
  assert (Hm : indexFixed s sm) by exact H0.
  clearbody sm.
  destruct (pdaf_regions md) as [regions |]; cbn [mbind option_bind].
  - destruct (getPhase regions sm) as [[[[s1 ok] ph] cf] |] eqn:Hget; [| discriminate].
    cbn [mbind option_bind]. apply getPhase_index in Hget.
    destruct (doAF _ ph cf _) as [s2 |] eqn:HdoAF; [| discriminate].
    cbn [mbind option_bind]. intros [= <- _]. apply doAF_index in HdoAF.
    eapply indexFixed_trans; [exact Hm |].
    eapply indexFixed_trans; [exact Hget |].
    eapply indexFixed_trans; [| apply updateLensPosition_index].
    eapply indexFixed_trans; [| exact HdoAF]. split; reflexivity.
  - destruct (doAF _ 0 0 sm) as [s2 |] eqn:HdoAF; [| discriminate].
    cbn [mbind option_bind]. intros [= <- _]. apply doAF_index in HdoAF.
    eapply indexFixed_trans; [exact Hm |].
    eapply indexFixed_trans; [exact HdoAF | apply updateLensPosition_index].
Qed.

Lemma process_index (stats : Statistics) (s s' : Af) :
  process stats s = Some s' -> indexFixed s s'.
Proof.
  unfold process.
  destruct (getContrast _ s) as [[s1 c] |] eqn:Hc; [| discriminate].
  cbn [mbind option_bind]. intros [= <-]. apply getContrast_index in Hc.
  eapply indexFixed_trans; [exact Hc | split; reflexivity].
Qed.

(** X16.  A frame completes.  From every reachable state in which
    [range_] and [speed_] are indices of the arrays [cfg_.ranges] and
    [cfg_.speeds], [prepare] and then [process] complete, whatever the
    metadata and the statistics, as long as their grids have [height *
    width] regions and the scene monitor, if it is due, finds the
    statistics of an earlier frame: the loops of [getPhase] and
    [getContrast] stay within the weights and the regions, [findPeak] is
    called on a recorded step, and the monitor finds the metadata and
    the statistics it reads.  The frame writes neither [range_] nor
    [speed_], so that every read of the two arrays during the frame is
    at the index it started with.  Afterwards the statistics are at
    hand and the indices are as before, so that the next frame completes
    as well.  A state with an index outside of its array, which
    [setRange] and [setSpeed] admit below zero, is not covered. *)
Theorem frame_completes (cfg : CfgParams) (md : Metadata) (stats : Statistics) (s : Af) :
  reachable cfg s ->
  indexOk s ->
  monitorReady s ->
  (forall regions, pdaf_regions md = Some regions -> wfGrid regions) ->
  wfGrid (focusRegions stats) ->
  exists s1 md1 s2,
    prepare md s = Some (s1, md1) /\ process stats s1 = Some s2 /\
    indexFixed s s1 /\ indexFixed s s2 /\ indexOk s2 /\
    stats_ s2 = Some stats /\ monitorReady s2 /\ reachable cfg s2.
Proof.
  intros Hr Hidx Hst Hmd Hgrid.
  destruct (prepare_total md s (reachable_scan cfg s Hr) (reachable_weights cfg s Hr)
              Hst Hmd) as [[s1 md1] Hp].
  assert (Hr1 : reachable cfg s1)
    by (eapply reachable_step; [exact Hr | eapply step_prepare; exact Hp]).
  assert (Hq : is_Some (process stats s1)).
  { unfold process.
    destruct (getContrast_total (focusRegions stats) s1 Hgrid
                (proj2 (reachable_weights cfg s1 Hr1))) as [[s2 c] ->].
    cbn [mbind option_bind]. eauto. }
  destruct Hq as [s2 Hq]. exists s1, md1, s2.
  split; [exact Hp | split; [exact Hq |]].
  pose proof (prepare_index md md1 s s1 Hp) as Hi1.
  pose proof (indexFixed_trans _ _ _ Hi1 (process_index stats s1 s2 Hq)) as Hi2.
  split; [exact Hi1 | split; [exact Hi2 |]].
  split; [eapply indexOk_fixed; eassumption |].
  assert (Hs2 : stats_ s2 = Some stats).
  { revert Hq. unfold process.
    destruct (getContrast _ s1) as [[s3 c] |]; [| discriminate].
    cbn [mbind option_bind]. intros [= <-]. reflexivity. }
  split; [exact Hs2 |].
  split; [intros _ _ _; rewrite Hs2; eauto |].
  eapply reachable_step; [exact Hr1 | eapply step_process; exact Hq].
Qed.

Lemma frame_completes_witness :
  exists s1 md1 s2,
    prepare noMetadata (setMode AfModeContinuous (Af_new CfgParams_default Unset_zero)) =
      Some (s1, md1) /\
    process (statsAt 1) s1 = Some s2 /\ stats_ s2 = Some (statsAt 1) /\ indexOk s2.
Proof.
  destruct (frame_completes CfgParams_default noMetadata (statsAt 1)
              (setMode AfModeContinuous (Af_new CfgParams_default Unset_zero)))
    as (s1 & md1 & s2 & Hp & Hq & _ & _ & Hidx & Hs & _).
  - repeat (eapply reachable_step; [| constructor]). apply reachable_new.
  - vm_compute. repeat split; congruence.
  - intros _ Hidle. vm_compute in Hidle. discriminate Hidle.
  - intros regions Hreg. discriminate Hreg.
  - vm_compute. repeat split; congruence.
  - exists s1, md1, s2. auto.
Defined.

(** X17.  The condition on the scene monitor cannot be dropped: when the
    monitor is due (continuous mode, no PDAF, no scan, no start-up frame
    left to skip) and [process] has not stored any statistics yet,
    [prepare] dereferences the null [stats_]. *)
Theorem prepare_monitor_needs_statistics (md : Metadata) (s : Af) :
  mode_ s = AfModeContinuous -> scanState_ s = ScanState.Idle ->
  isPdafEnabled_ s = false -> initted_ s = true -> skipCount_ s = 0 ->
  pdaf_regions md = None -> stats_ s = None ->
  prepare md s = None.
Proof.
  intros Hmode Hidle Hpdaf Hinit Hskip Hreg Hstats. unfold prepare.
  rewrite Hidle. destruct (decide (ScanState.Idle = ScanState.Trigger)); [discriminate |].
  rewrite Hinit, Hreg. cbn [mbind option_bind].
  unfold doAF. af_simpl. rewrite Hskip, Hmode, Hidle, Hpdaf.
  cbn [Z.ltb Z.compare negb].
  rewrite !bool_decide_eq_true_2 by reflexivity. cbn [andb].
  unfold sceneMonitor. af_simpl. rewrite Hstats. reflexivity.
Qed.

Lemma prepare_monitor_needs_statistics_witness :
  let s := pause AfPauseImmediate (setMode AfModeContinuous
             (setLensPosition 1 (Af_new CfgParams_default Unset_zero)).1.1) in
  exists s5, frames 5 noMetadata s = Some s5 /\ reachable CfgParams_default s5 /\
             prepare noMetadata s5 = None.
Proof.
  intros s. destruct (frames 5 noMetadata s) as [s5 |] eqn:Hrun;
    [| vm_compute in Hrun; discriminate].
  exists s5. split; [reflexivity |]. split.
  - eapply frames_reachable; [| exact Hrun].
    repeat (eapply reachable_step; [| constructor]). apply reachable_new.
  - vm_compute in Hrun. injection Hrun as <-.
    apply (prepare_monitor_needs_statistics noMetadata); reflexivity.
Defined.

(** ** The tuning file *)

Lemma dmin_le (a b : double) : (dmin a b <= a)%Q /\ (dmin a b <= b)%Q.
Proof.
  unfold dmin. destruct (dlt b a) eqn:H.
  - apply dlt_true in H. split; lra.
  - apply dlt_false in H. split; lra.
Qed.

Lemma dmax_ge (a b : double) : (a <= dmax a b)%Q /\ (b <= dmax a b)%Q.
Proof.
  unfold dmax. destruct (dlt a b) eqn:H.
  - apply dlt_true in H. split; lra.
  - apply dlt_false in H. split; lra.
Qed.

(** X18.  When the tuning file gives ranges without a full one, the full
    range that [CfgParams::read] builds covers the normal and the macro
    range, with the default position of the normal range; its limits
    are ordered when theirs are.  This holds for every parser of the
    file. *)
Theorem read_full_range_covers {YamlObject : Type}
    (contains : YamlObject -> string -> bool) (child : YamlObject -> string -> YamlObject)
    (get_double : YamlObject -> option double) (get_uint32 : YamlObject -> option Z)
    (Pwl_read : YamlObject -> (double -> Z) * (double -> double) ->
                (double -> Z) * (double -> double))
    (params : YamlObject) (cfg : CfgParams) :
  contains params "ranges" = true ->
  contains (child params "ranges") "full" = false ->
  let cfg' := (CfgParams_read contains child get_double get_uint32 Pwl_read params cfg).1 in
  let normal := ranges cfg' AfRangeNormal in
  let macro := ranges cfg' AfRangeMacro in
  let full := ranges cfg' AfRangeFull in
  (focusMin full <= focusMin normal)%Q /\ (focusMin full <= focusMin macro)%Q /\
  (focusMax normal <= focusMax full)%Q /\ (focusMax macro <= focusMax full)%Q /\
  focusDefault full = focusDefault normal /\
  ((focusMin normal <= focusMax normal)%Q -> (focusMin full <= focusMax full)%Q).
Proof.
  intros Hranges Hfull. cbv zeta. unfold CfgParams_read. cbn [fst ranges].
  unfold readRanges. rewrite Hranges, Hfull. cbv zeta.
  match goal with
  | |- context [assign AfRangeFull _ ?X AfRangeNormal] => set (rg3 := X)
  end.
  unfold assign.
  change (AfRangeNormal =? AfRangeFull) with false.
  change (AfRangeMacro =? AfRangeFull) with false.
  change (AfRangeFull =? AfRangeFull) with true.
  cbn [focusMin focusMax focusDefault].
  destruct (dmin_le (focusMin (rg3 AfRangeNormal)) (focusMin (rg3 AfRangeMacro))) as [H1 H2].
  destruct (dmax_ge (focusMax (rg3 AfRangeNormal)) (focusMax (rg3 AfRangeMacro))) as [H3 H4].
  repeat split; try assumption; try reflexivity. intros Hle. lra.
Qed.

Lemma read_full_range_covers_witness :
  let cfg' := (CfgParams_read yaml_contains yaml_child yaml_double yaml_uint32 yaml_map
                 tuningExample CfgParams_default).1 in
  (focusMin (ranges cfg' AfRangeFull) <= focusMin (ranges cfg' AfRangeMacro))%Q /\
  (focusMax (ranges cfg' AfRangeNormal) <= focusMax (ranges cfg' AfRangeFull))%Q.
Proof.
  intros cfg'.
  destruct (read_full_range_covers yaml_contains yaml_child yaml_double yaml_uint32
              yaml_map tuningExample CfgParams_default eq_refl eq_refl)
    as (_ & H2 & H3 & _).
  split; [exact H2 | exact H3].
Defined.

(** X19.  What [CfgParams::read] does about what the tuning file leaves
    out: without ranges (speeds) the ranges (speeds) stay as they are;
    with ranges but no macro range, the macro range is the normal one;
    with speeds but no fast one, the fast speed is the normal one; a
    number that is missing keeps its value; without a map the map
    stays.  The returned code is always 0. *)
Theorem read_missing_keys {YamlObject : Type}
    (contains : YamlObject -> string -> bool) (child : YamlObject -> string -> YamlObject)
    (get_double : YamlObject -> option double) (get_uint32 : YamlObject -> option Z)
    (Pwl_read : YamlObject -> (double -> Z) * (double -> double) ->
                (double -> Z) * (double -> double))
    (params : YamlObject) (cfg : CfgParams) :
  let r := CfgParams_read contains child get_double get_uint32 Pwl_read params cfg in
  let cfg' := r.1 in
  r.2 = 0 /\
  (contains params "ranges" = false -> ranges cfg' = ranges cfg) /\
  (contains params "ranges" = true -> contains (child params "ranges") "macro" = false ->
   ranges cfg' AfRangeMacro = ranges cfg' AfRangeNormal) /\
  (contains params "speeds" = false -> speeds cfg' = speeds cfg) /\
  (contains params "speeds" = true -> contains (child params "speeds") "fast" = false ->
   speeds cfg' AfSpeedFast = speeds cfg' AfSpeedNormal) /\
  (get_uint32 (child params "conf_epsilon") = None -> confEpsilon cfg' = confEpsilon cfg) /\
  (get_uint32 (child params "conf_thresh") = None -> confThresh cfg' = confThresh cfg) /\
  (get_uint32 (child params "conf_clip") = None -> confClip cfg' = confClip cfg) /\
  (get_uint32 (child params "skip_frames") = None -> skipFrames cfg' = skipFrames cfg) /\
  (contains params "map" = false ->
   map_eval cfg' = map_eval cfg /\ map_domain_clip cfg' = map_domain_clip cfg).
Proof.
  cbv zeta. unfold CfgParams_read.
  cbn [fst snd ranges speeds confEpsilon confThresh confClip skipFrames map_eval
       map_domain_clip].
  split; [reflexivity |].
  split; [intros H; unfold readRanges; rewrite H; reflexivity |].
  split.
  { intros H Hm. unfold readRanges. rewrite H, Hm. cbv zeta.
    destruct (contains (child params "ranges") "full");
      destruct (contains (child params "ranges") "normal"); reflexivity. }
  split; [intros H; unfold readSpeeds; rewrite H; reflexivity |].
  split.
  { intros H Hf. unfold readSpeeds. rewrite H, Hf. cbv zeta.
    destruct (contains (child params "speeds") "normal"); reflexivity. }
  unfold readNumber.
  repeat (split; [intros H; rewrite H; reflexivity |]).
  intros H. rewrite H. split; reflexivity.
Qed.
